(** * Bidirectional GitHub <-> Gitea synchronisation engine

    A shallow embedding of [git-sync-service/src/services/sync_engine.py]
    together with the part of [database/models.py] and
    [config/settings.py] that the engine reads and writes.

    - The GitPython [Repo] object is a record of the queries the engine
      makes on it ([refs], [commit], [iter_commits]) and of the outcome of
      [git push].
    - The SQLAlchemy tables are a finite map keyed by the unique column
      [name] (table [sync_repositories]) and append-only lists (tables
      [sync_logs], [sync_conflicts]).
    - Exceptions are explicit results; [datetime.now] reads a clock kept
      in the state; the asyncio event loop is a step relation whose steps
      are the code between two suspension points. *)

From Stdlib Require Import ZArith String List Bool Lia.
From stdpp Require Import base tactics option list gmap strings.
Import ListNotations.

Local Open Scope string_scope.
Local Open Scope Z_scope.
Local Open Scope list_scope.

(** ** Strings *)

(** [s.replace(old, "")] for a non-empty [old]: every non-overlapping
    occurrence of [old], scanning from the left, is dropped.  [skip] counts
    the characters of the current occurrence still to be dropped. *)
Fixpoint str_remove_aux (old : string) (skip : nat) (s : string) : string :=
  match s with
  | EmptyString => EmptyString
  | String c s' =>
      match skip with
      | S k => str_remove_aux old k s'
      | O =>
          if String.prefix old s
          then str_remove_aux old (Nat.pred (String.length old)) s'
          else String c (str_remove_aux old 0 s')
      end
  end.

Definition str_remove (old s : string) : string := str_remove_aux old 0 s.

(** [s.startswith(p)] *)
Definition startswith (p s : string) : bool := String.prefix p s.

(** ** The working clone *)

Definition hexsha := string.

(** One [repo.git.push(...)] command line. *)
Inductive GitPush :=
| PushRef (remote src dst : string) (force : bool)
    (* push(remote, f"{src}:{dst}") with or without "--force" *)
| PushTags (remote : string)
    (* push(remote, "--tags") *)
| PushGlob (remote refspec : string).
    (* push(remote, "gitea/*:refs/tags/*") *)

#[global] Instance GitPush_eq_dec : EqDecision GitPush.
Proof. solve_decision. Defined.

(** The local clone with remote [origin] (GitHub) cloned and remote
    [gitea] fetched, as the engine sees it through GitPython.
    [None] stands for a raised exception. *)
Record Repo := {
  refs : list string;
    (* [ref.name for ref in repo.refs] *)
  commit : string -> option hexsha;
    (* repo.commit(rev).hexsha *)
  iter_commits : string -> string -> option (list hexsha);
    (* list(repo.iter_commits(f"{a}..{b}")): reachable from b, not from a *)
  push_rejected : GitPush -> bool;
    (* repo.git.push raises GitCommandError *)
  remote_tags : string -> list (string * hexsha)
    (* the tags each platform holds, by remote name; the analyser never reads it *)
}.

(** ** The divergence report *)

Record NewRefs := { github : list string; gitea : list string }.

Record Differences := {
  has_conflicts : bool;
  github_ahead : list string;
  gitea_ahead : list string;
  diverged_branches : list string;
  new_branches : NewRefs;
  new_tags : NewRefs
}.

Inductive Level := Info | Warning | Error.

Record LogEvent := { level : Level; event : string; subject : string }.

Definition differences0 : Differences :=
  {| has_conflicts := false;
     github_ahead := [];
     gitea_ahead := [];
     diverged_branches := [];
     new_branches := {| github := []; gitea := [] |};
     new_tags := {| github := []; gitea := [] |} |}.

Definition add_new_github (d : Differences) (b : string) : Differences :=
  {| has_conflicts := has_conflicts d;
     github_ahead := github_ahead d;
     gitea_ahead := gitea_ahead d;
     diverged_branches := diverged_branches d;
     new_branches := {| github := github (new_branches d) ++ [b];
                        gitea := gitea (new_branches d) |};
     new_tags := new_tags d |}.

Definition add_new_gitea (d : Differences) (b : string) : Differences :=
  {| has_conflicts := has_conflicts d;
     github_ahead := github_ahead d;
     gitea_ahead := gitea_ahead d;
     diverged_branches := diverged_branches d;
     new_branches := {| github := github (new_branches d);
                        gitea := gitea (new_branches d) ++ [b] |};
     new_tags := new_tags d |}.

Definition add_diverged (d : Differences) (b : string) : Differences :=
  {| has_conflicts := true;
     github_ahead := github_ahead d;
     gitea_ahead := gitea_ahead d;
     diverged_branches := diverged_branches d ++ [b];
     new_branches := new_branches d;
     new_tags := new_tags d |}.

Definition add_github_ahead (d : Differences) (b : string) : Differences :=
  {| has_conflicts := has_conflicts d;
     github_ahead := github_ahead d ++ [b];
     gitea_ahead := gitea_ahead d;
     diverged_branches := diverged_branches d;
     new_branches := new_branches d;
     new_tags := new_tags d |}.

Definition add_gitea_ahead (d : Differences) (b : string) : Differences :=
  {| has_conflicts := has_conflicts d;
     github_ahead := github_ahead d;
     gitea_ahead := gitea_ahead d ++ [b];
     diverged_branches := diverged_branches d;
     new_branches := new_branches d;
     new_tags := new_tags d |}.

(** Python truthiness of a list. *)
Definition truthy {A} (l : list A) : bool :=
  match l with [] => false | _ => true end.

Definition github_ref (branch : string) : string := "origin/" +:+ branch.
Definition gitea_ref (branch : string) : string := "gitea/" +:+ branch.

(** The body of the [try] of [_analyze_repository_differences]; [None] is
    an exception caught by [except Exception]. *)
Definition compare_branch (repo : Repo) (d : Differences) (branch : string)
  : option Differences :=
  github_commit ← commit repo (github_ref branch);
  gitea_commit ← commit repo (gitea_ref branch);
  if bool_decide (github_commit ≠ gitea_commit) then
    gh_ahead ← iter_commits repo (gitea_ref branch) (github_ref branch);
    gt_ahead ← iter_commits repo (github_ref branch) (gitea_ref branch);
    Some (if truthy gh_ahead && truthy gt_ahead then add_diverged d branch
          else if truthy gh_ahead then add_github_ahead d branch
          else if truthy gt_ahead then add_gitea_ahead d branch
          else d)
  else Some d.

(** One iteration of [for branch in all_branches]. *)
Definition analyze_branch (repo : Repo) (acc : Differences * list LogEvent)
    (branch : string) : Differences * list LogEvent :=
  let d := acc.1 in
  let github_exists := bool_decide (github_ref branch ∈ refs repo) in
  let gitea_exists := bool_decide (gitea_ref branch ∈ refs repo) in
  if github_exists && negb gitea_exists then (add_new_github d branch, acc.2)
  else if gitea_exists && negb github_exists then (add_new_gitea d branch, acc.2)
  else if github_exists && gitea_exists then
    match compare_branch repo d branch with
    | Some d' => (d', acc.2)
    | None =>
        (d, acc.2 ++ [{| level := Warning;
                         event := "Failed to compare branches";
                         subject := branch |}])
    end
  else acc.

Definition github_branches (repo : Repo) : list string :=
  map (str_remove "origin/") (filter (λ n, startswith "origin/" n = true) (refs repo)).

Definition gitea_branches (repo : Repo) : list string :=
  map (str_remove "gitea/") (filter (λ n, startswith "gitea/" n = true) (refs repo)).

(** [github_branches | gitea_branches]: a Python set, iterated here in
    the order of first occurrence, each name once. *)
Definition all_branches (repo : Repo) : list string :=
  remove_dups (github_branches repo ++ gitea_branches repo).

(** [_analyze_repository_differences], with the warnings it logs. *)
Definition analyze_repository_differences (repo : Repo)
  : Differences * list LogEvent :=
  fold_left (analyze_branch repo) (all_branches repo) (differences0, []).

(** ** Settings ([config/settings.py]) *)

Inductive ConflictResolution := github_wins | gitea_wins | manual.

Record Settings := {
  github_token : string;
  github_user : string;
  gitea_url_setting : string;
  gitea_user : string;
  conflict_resolution : ConflictResolution;
  sync_tags : bool;
  max_concurrent_syncs : Z;
  included_repositories : option (list string);
  excluded_repositories : option (list string)
}.

(** ** Exceptions and results *)

Inductive exn :=
| SyncConflictError (branches : list string)
    (* "Manual intervention required for conflicted branches: [...]" *)
| ValueError
| GitCommandError
| HTTPError.

Inductive outcome (A : Type) :=
| Return (a : A)
| Raise (e : exn).
Arguments Return {A} a.
Arguments Raise {A} e.

(** The result dictionaries of a sync: ["action"], ["details"], ["source"]. *)
Record SyncResult := {
  action : string;
  details : list string;
  origin : option string
}.

(** ** Git pushes

    A computation over the list of pushes the remotes accepted so far; a
    rejected push raises [GitCommandError] and changes nothing. *)

Definition Git (A : Type) : Type := list GitPush -> list GitPush * outcome A.

Definition git_ret {A} (a : A) : Git A := fun t => (t, Return a).

Definition git_bind {A B} (m : Git A) (k : A -> Git B) : Git B :=
  fun t => match m t with
           | (t', Return a) => k a t'
           | (t', Raise e) => (t', Raise e)
           end.

Definition git_push (repo : Repo) (cmd : GitPush) : Git unit :=
  fun t => if push_rejected repo cmd then (t, Raise GitCommandError)
           else (t ++ [cmd], Return tt).

(** [for branch in branches: push(...); actions.append(label + branch)] *)
Fixpoint push_each (repo : Repo) (mk : string -> GitPush) (label : string)
    (branches : list string) (actions : list string) : Git (list string) :=
  match branches with
  | [] => git_ret actions
  | branch :: rest =>
      git_bind (git_push repo (mk branch)) (fun _ =>
      push_each repo mk label rest (actions ++ [label +:+ branch]))
  end.

Definition push_to_gitea (force : bool) (branch : string) : GitPush :=
  PushRef "gitea" (github_ref branch) branch force.

Definition push_to_github (force : bool) (branch : string) : GitPush :=
  PushRef "origin" (gitea_ref branch) branch force.

(** [_perform_simple_sync] *)
Definition perform_simple_sync (st : Settings) (repo : Repo) (d : Differences)
  : Git SyncResult :=
  git_bind (push_each repo (push_to_gitea false) "pushed_to_gitea: "
              (github (new_branches d)) []) (fun actions =>
  git_bind (push_each repo (push_to_github false) "pushed_to_github: "
              (gitea (new_branches d)) actions) (fun actions =>
  git_bind (push_each repo (push_to_gitea false) "synced_to_gitea: "
              (github_ahead d) actions) (fun actions =>
  git_bind (push_each repo (push_to_github false) "synced_to_github: "
              (gitea_ahead d) actions) (fun actions =>
  git_bind (if sync_tags st then
              git_bind (git_push repo (PushTags "gitea")) (fun _ =>
              git_bind (git_push repo (PushGlob "origin" "gitea/*:refs/tags/*")) (fun _ =>
              git_ret (actions ++ ["synced_tags"])))
            else git_ret actions) (fun actions =>
  git_ret {| action := "synced"; details := actions; origin := None |}))))).

(** One iteration of the loop of [_handle_sync_conflicts]. *)
Fixpoint resolve_each (st : Settings) (repo : Repo) (branches : list string)
    (actions : list string) : Git (list string) :=
  match branches with
  | [] => git_ret actions
  | branch :: rest =>
      match conflict_resolution st with
      | github_wins =>
          git_bind (git_push repo (push_to_gitea true branch)) (fun _ =>
          resolve_each st repo rest (actions ++ ["github_wins: " +:+ branch]))
      | gitea_wins =>
          git_bind (git_push repo (push_to_github true branch)) (fun _ =>
          resolve_each st repo rest (actions ++ ["gitea_wins: " +:+ branch]))
      | manual => resolve_each st repo rest actions
      end
  end.

(** [_handle_sync_conflicts] *)
Definition handle_sync_conflicts (st : Settings) (repo : Repo) (d : Differences)
  : Git SyncResult :=
  match conflict_resolution st with
  | manual => fun t => (t, Raise (SyncConflictError (diverged_branches d)))
  | _ =>
      git_bind (resolve_each st repo (diverged_branches d) []) (fun actions =>
      git_ret {| action := "conflict_resolved"; details := actions; origin := None |})
  end.

(** The tail of [_sync_existing_repositories], after clone and fetch:
    analysis, then one of the two resolution paths. *)
Definition resolve (st : Settings) (repo : Repo) (d : Differences) : Git SyncResult :=
  if negb (has_conflicts d) then perform_simple_sync st repo d
  else handle_sync_conflicts st repo d.

Definition sync_existing (st : Settings) (repo : Repo)
  : (list GitPush * outcome SyncResult) * list LogEvent :=
  let a := analyze_repository_differences repo in
  (resolve st repo a.1 [], a.2).

(** ** The status store ([database/models.py]) *)

(** A row of [sync_repositories]. *)
Record SyncRepository := {
  id : Z;
  name : string;
  github_url : option string;
  gitea_url : option string;
  sync_status : string;
  last_sync : option Z;
  conflict_count : Z;
  created_at : Z;
  updated_at : Z;
  config : option string
}.

#[global] Instance SyncRepository_eq_dec : EqDecision SyncRepository.
Proof. solve_decision. Defined.

Inductive LogDetails :=
| DetailsResult (r : SyncResult)
| DetailsError (e : exn).       (* {"error": str(e)} *)

(** A row of [sync_logs]. *)
Record SyncLog := {
  log_repository_name : string;
  log_sync_status : string;
  log_details : LogDetails;
  log_timestamp : Z;
  log_source : option string;
  log_duration_seconds : option Z;
  log_error_message : option string
}.

(** A row of [sync_conflicts]. *)
Record SyncConflict := {
  conflict_repository_name : string;
  conflict_type : string;
  branch_name : option string;
  github_commit : option hexsha;
  gitea_commit : option hexsha;
  resolved : bool;
  resolution_strategy : option string;
  conflict_created_at : Z;
  resolved_at : option Z
}.

(** Everything a sync can change: the three tables, the pushes and
    repository creations the platforms accepted (with the repository
    name), the structured log, the engine's health flag and the clock. *)
Record World := {
  repositories : gmap string SyncRepository;
  sync_logs : list SyncLog;
  sync_conflicts : list SyncConflict;
  pushed : list (string * GitPush);
  created : list (string * string);
  logger : list LogEvent;
  healthy : bool;
  clock : Z
}.

Definition with_repositories (m : gmap string SyncRepository) (w : World) : World :=
  {| repositories := m; sync_logs := sync_logs w;
     sync_conflicts := sync_conflicts w; pushed := pushed w;
     created := created w; logger := logger w; healthy := healthy w;
     clock := clock w |}.

Definition with_sync_logs (l : list SyncLog) (w : World) : World :=
  {| repositories := repositories w; sync_logs := l;
     sync_conflicts := sync_conflicts w; pushed := pushed w;
     created := created w; logger := logger w; healthy := healthy w;
     clock := clock w |}.

Definition with_pushed (l : list (string * GitPush)) (w : World) : World :=
  {| repositories := repositories w; sync_logs := sync_logs w;
     sync_conflicts := sync_conflicts w; pushed := l;
     created := created w; logger := logger w; healthy := healthy w;
     clock := clock w |}.

Definition with_created (l : list (string * string)) (w : World) : World :=
  {| repositories := repositories w; sync_logs := sync_logs w;
     sync_conflicts := sync_conflicts w; pushed := pushed w;
     created := l; logger := logger w; healthy := healthy w;
     clock := clock w |}.

Definition with_logger (l : list LogEvent) (w : World) : World :=
  {| repositories := repositories w; sync_logs := sync_logs w;
     sync_conflicts := sync_conflicts w; pushed := pushed w;
     created := created w; logger := l; healthy := healthy w;
     clock := clock w |}.

Definition with_healthy (b : bool) (w : World) : World :=
  {| repositories := repositories w; sync_logs := sync_logs w;
     sync_conflicts := sync_conflicts w; pushed := pushed w;
     created := created w; logger := logger w; healthy := b;
     clock := clock w |}.

Definition with_clock (c : Z) (w : World) : World :=
  {| repositories := repositories w; sync_logs := sync_logs w;
     sync_conflicts := sync_conflicts w; pushed := pushed w;
     created := created w; logger := logger w; healthy := healthy w;
     clock := c |}.

(** [datetime.now(timezone.utc)]: read the clock, which then moves on. *)
Definition now (w : World) : Z * World := (clock w, with_clock (clock w + 1) w).

Definition log (lv : Level) (ev subj : string) (w : World) : World :=
  with_logger (logger w ++ [{| level := lv; event := ev; subject := subj |}]) w.

(** [session.commit()] of a loaded row that was assigned to: an UPDATE is
    emitted only when some column changed, and the UPDATE refreshes
    [updated_at] ([onupdate]). *)
Definition commit_row (key : string) (old new : SyncRepository) (w : World)
  : World :=
  if decide (new = old) then w
  else
    let t := now w in
    with_repositories
      (<[key :=
          {| id := id new; name := name new; github_url := github_url new;
             gitea_url := gitea_url new; sync_status := sync_status new;
             last_sync := last_sync new; conflict_count := conflict_count new;
             created_at := created_at new; updated_at := t.1;
             config := config new |}]> (repositories t.2)) t.2.

(** [_update_repo_status] *)
Definition update_repo_status (repo_name status : string) (w : World) : World :=
  match repositories w !! repo_name with
  | Some repo =>
      if decide (status = "synced") then
        let t := now w in
        commit_row repo_name repo
          {| id := id repo; name := name repo; github_url := github_url repo;
             gitea_url := gitea_url repo; sync_status := status;
             last_sync := Some t.1; conflict_count := conflict_count repo;
             created_at := created_at repo; updated_at := updated_at repo;
             config := config repo |} t.2
      else if decide (status = "conflict") then
        commit_row repo_name repo
          {| id := id repo; name := name repo; github_url := github_url repo;
             gitea_url := gitea_url repo; sync_status := status;
             last_sync := last_sync repo; conflict_count := conflict_count repo + 1;
             created_at := created_at repo; updated_at := updated_at repo;
             config := config repo |} w
      else
        commit_row repo_name repo
          {| id := id repo; name := name repo; github_url := github_url repo;
             gitea_url := gitea_url repo; sync_status := status;
             last_sync := last_sync repo; conflict_count := conflict_count repo;
             created_at := created_at repo; updated_at := updated_at repo;
             config := config repo |} w
  | None => w
  end.

(** The platform's answer to [get_repository]: the ["clone_url"] of the
    repository dictionary. *)
Record RepoInfo := { info_name : string; clone_url : string }.

(** [_ensure_repository_record]; the column defaults of the model fill
    [sync_status], [conflict_count] and [updated_at], and the primary key
    is the next free integer. *)
Definition ensure_repository_record (st : Settings) (repo_name : string)
    (github_repo gitea_repo : option RepoInfo) (w : World) : World :=
  match repositories w !! repo_name with
  | Some _ => w
  | None =>
      let t := now w in
      let u := now t.2 in
      with_repositories
        (<[repo_name :=
            {| id := Z.of_nat (size (repositories w)) + 1;
               name := repo_name;
               github_url := clone_url <$> github_repo;
               gitea_url :=
                 match gitea_repo with
                 | Some _ => Some (gitea_url_setting st +:+ "/" +:+ gitea_user st
                                   +:+ "/" +:+ repo_name +:+ ".git")
                 | None => None
                 end;
               sync_status := "pending";
               last_sync := None;
               conflict_count := 0;
               created_at := t.1;
               updated_at := u.1;
               config := None |}]> (repositories u.2)) u.2
  end.

(** [_log_sync_result] *)
Definition log_sync_result (repo_name status : string) (d : LogDetails)
    (w : World) : World :=
  let t := now w in
  with_sync_logs
    (sync_logs t.2 ++
       [{| log_repository_name := repo_name; log_sync_status := status;
           log_details := d; log_timestamp := t.1; log_source := None;
           log_duration_seconds := None; log_error_message := None |}]) t.2.

(** ** The platforms and the environment of a sync *)

Inductive api_result (A : Type) :=
| ApiOk (a : A)
| ApiError.                      (* the HTTP client raised *)
Arguments ApiOk {A} a.
Arguments ApiError {A}.

Record Env := {
  settings : Settings;
  github_get_repository : string -> api_result (option RepoInfo);
  gitea_get_repository : string -> api_result (option RepoInfo);
  github_list_repositories : api_result (list RepoInfo);
  gitea_list_repositories : api_result (list RepoInfo);
  create_repository : string -> string -> api_result unit;
    (* platform, repository name *)
  clone_github : string -> option Repo;
    (* Repo.clone_from(github_url, work_dir) *)
  clone_gitea : string -> option Repo;
    (* Repo.clone_from(gitea_url, work_dir) *)
  work_clone : string -> option Repo
    (* clone_from(github_url); create_remote("gitea"); fetch() *)
}.

(** ** One repository sync, between suspension points

    [sync_repository] is a coroutine.  It runs without interruption until
    it awaits a network call of a platform client; the event loop may run
    other coroutines before it resumes.  [pc] names the await at which the
    coroutine is suspended. *)

Inductive pc :=
| Start
| AwaitGithub                                  (* github_client.get_repository *)
| AwaitGitea (github_repo : option RepoInfo)   (* gitea_client.get_repository *)
| AwaitCreate (platform : string) (repo : Repo) (* <platform>_client.create_repository *)
| Done (r : outcome SyncResult).

(** The end of [sync_repository]: the success path after
    [_perform_bidirectional_sync], and the two [except] clauses. *)
Definition finish (repo_name : string) (r : outcome SyncResult) (w : World)
  : World * pc :=
  match r with
  | Return result =>
      let w1 := update_repo_status repo_name "synced" w in
      let w2 := log_sync_result repo_name "success" (DetailsResult result) w1 in
      (log Info "Repository sync completed" repo_name w2, Done (Return result))
  | Raise (SyncConflictError bs) =>
      let w1 := update_repo_status repo_name "conflict" w in
      let w2 := log_sync_result repo_name "conflict"
                  (DetailsError (SyncConflictError bs)) w1 in
      (log Warning "Sync conflict detected" repo_name w2,
       Done (Raise (SyncConflictError bs)))
  | Raise e =>
      let w1 := update_repo_status repo_name "failed" w in
      let w2 := log_sync_result repo_name "failed" (DetailsError e) w1 in
      (log Error "Repository sync failed" repo_name w2, Done (Raise e))
  end.

Definition record_pushes (repo_name : string) (t : list GitPush) (w : World) : World :=
  with_pushed (pushed w ++ map (pair repo_name) t) w.

(** The pushes of [_create_gitea_from_github] / [_create_github_from_gitea]
    once the remote repository exists. *)
Definition push_everything (repo : Repo) (remote : string) : Git unit :=
  git_bind (git_push repo (PushGlob remote "refs/heads/*:refs/heads/*")) (fun _ =>
  git_push repo (PushGlob remote "refs/tags/*:refs/tags/*")).

Definition task_step (env : Env) (repo_name source : string) (p : pc) (w : World)
  : World * pc :=
  match p with
  | Start =>
      let w1 := log Info "Starting repository sync" repo_name w in
      (update_repo_status repo_name "syncing" w1, AwaitGithub)
  | AwaitGithub =>
      match github_get_repository env repo_name with
      | ApiError => finish repo_name (Raise HTTPError) w
      | ApiOk github_repo => (w, AwaitGitea github_repo)
      end
  | AwaitGitea github_repo =>
      match gitea_get_repository env repo_name with
      | ApiError => finish repo_name (Raise HTTPError) w
      | ApiOk gitea_repo =>
          let w1 := ensure_repository_record (settings env) repo_name
                      github_repo gitea_repo w in
          match github_repo, gitea_repo with
          | None, None => finish repo_name (Raise ValueError) w1
          | Some _, None =>
              let w2 := log Info "Creating Gitea repository from GitHub" repo_name w1 in
              match clone_github env repo_name with
              | None => finish repo_name (Raise GitCommandError) w2
              | Some repo => (w2, AwaitCreate "gitea" repo)
              end
          | None, Some _ =>
              let w2 := log Info "Creating GitHub repository from Gitea" repo_name w1 in
              match clone_gitea env repo_name with
              | None => finish repo_name (Raise GitCommandError) w2
              | Some repo => (w2, AwaitCreate "github" repo)
              end
          | Some _, Some _ =>
              let w2 := log Info "Syncing existing repositories" repo_name w1 in
              match work_clone env repo_name with
              | None => finish repo_name (Raise GitCommandError) w2
              | Some repo =>
                  let r := sync_existing (settings env) repo in
                  finish repo_name r.1.2
                    (record_pushes repo_name r.1.1
                       (with_logger (logger w2 ++ r.2) w2))
              end
          end
      end
  | AwaitCreate platform repo =>
      match create_repository env platform repo_name with
      | ApiError => finish repo_name (Raise HTTPError) w
      | ApiOk _ =>
          let w1 := with_created (created w ++ [(platform, repo_name)]) w in
          let r := push_everything repo platform [] in
          let w2 := record_pushes repo_name r.1 w1 in
          match r.2 with
          | Raise e => finish repo_name (Raise e) w2
          | Return _ =>
              finish repo_name
                (Return (if decide (platform = "gitea")
                         then {| action := "created_gitea"; details := [];
                                 origin := Some "github" |}
                         else {| action := "created_github"; details := [];
                                 origin := Some "gitea" |})) w2
          end
      end
  | Done r => (w, Done r)
  end.

(** [sync_repository] run to completion with nothing scheduled in between:
    at most three awaits separate [Start] from [Done]. *)
Definition sync_repository (env : Env) (repo_name source : string) (w : World)
  : World * pc :=
  let s1 := task_step env repo_name source Start w in
  let s2 := task_step env repo_name source s1.2 s1.1 in
  let s3 := task_step env repo_name source s2.2 s2.1 in
  task_step env repo_name source s3.2 s3.1.

(** ** Discovery and the whole-fleet sync *)

(** The two [continue] guards of [discover_repositories]. *)
Definition wanted (st : Settings) (n : string) : bool :=
  negb (match included_repositories st with
        | Some inc => truthy inc && negb (bool_decide (n ∈ inc))
        | None => false
        end)
  && negb (bool_decide (n ∈ default [] (excluded_repositories st))).

(** [list(all_repos)]: a set turned into a list, each name once. *)
Definition discover_repositories (st : Settings)
    (github_repos gitea_repos : list RepoInfo) : list string :=
  remove_dups (filter (λ n, wanted st n = true) (map info_name github_repos)
               ++ filter (λ n, wanted st n = true) (map info_name gitea_repos)).

(** A task [sync_with_semaphore(name)] of the gather. *)
Inductive child_state :=
| Waiting                          (* not yet through [async with semaphore] *)
| Running (p : pc)                 (* holds a permit, suspended at [p] *)
| Finished (r : outcome SyncResult).

Record Child := { child_name : string; child_st : child_state }.

(** What [sync_repositories] hands back to its caller. *)
Inductive retval :=
| PyNone
| PyResults (rs : list (string * outcome SyncResult)).

(** The coroutine [sync_repositories(repo_name)]. *)
Inductive fleet :=
| FStart (repo_name : option string)
| FSingle (repo_name : string) (p : pc)         (* await self.sync_repository(repo_name) *)
| FListGithub                                   (* github_client.list_repositories *)
| FListGitea (github_repos : list RepoInfo)     (* gitea_client.list_repositories *)
| FGather (permits : Z) (children : list Child) (* asyncio.gather over the tasks, return_exceptions=True *)
| FDone (r : outcome retval).

(** The [except Exception] clause of [sync_repositories]. *)
Definition fleet_fail (e : exn) (w : World) : World * fleet :=
  (with_healthy false (log Error "Failed to sync repositories" "" w),
   FDone (Raise e)).

Definition set_child (i : nat) (s : child_state) (cs : list Child) : list Child :=
  alter (λ c, {| child_name := child_name c; child_st := s |}) i cs.

Definition is_finished (c : Child) : bool :=
  match child_st c with Finished _ => true | _ => false end.

(** The moves of [sync_repositories].  The event loop runs one coroutine
    at a time: a move is the code executed between two awaits.  In the
    gather any task may be resumed next: a waiting task when a permit is
    free (it takes the permit and runs [sync_repository] up to its first
    await), a running task at its next await; a task that finishes gives
    its permit back, and the gather returns once every task has finished,
    its list of results and exceptions being dropped. *)
Inductive fleet_step (env : Env) : World * fleet -> World * fleet -> Prop :=
| fs_start_single w repo_name s :
    repo_name <> "" ->
    s = task_step env repo_name "auto" Start w ->
    fleet_step env (w, FStart (Some repo_name)) (s.1, FSingle repo_name s.2)
| fs_start_all w o :
    o = None \/ o = Some "" ->
    fleet_step env (w, FStart o)
      (log Info "Discovering repositories" "" w, FListGithub)
| fs_single_next w repo_name p s :
    (forall r, p <> Done r) ->
    s = task_step env repo_name "auto" p w ->
    (forall r, s.2 <> Done r) ->
    fleet_step env (w, FSingle repo_name p) (s.1, FSingle repo_name s.2)
| fs_single_return w repo_name p s result :
    (forall r, p <> Done r) ->
    s = task_step env repo_name "auto" p w ->
    s.2 = Done (Return result) ->
    fleet_step env (w, FSingle repo_name p) (s.1, FDone (Return PyNone))
| fs_single_raise w repo_name p s e :
    (forall r, p <> Done r) ->
    s = task_step env repo_name "auto" p w ->
    s.2 = Done (Raise e) ->
    fleet_step env (w, FSingle repo_name p) (fleet_fail e s.1)
| fs_list_github_error w :
    github_list_repositories env = ApiError ->
    fleet_step env (w, FListGithub) (fleet_fail HTTPError w)
| fs_list_github w github_repos :
    github_list_repositories env = ApiOk github_repos ->
    fleet_step env (w, FListGithub) (w, FListGitea github_repos)
| fs_list_gitea_error w github_repos :
    gitea_list_repositories env = ApiError ->
    fleet_step env (w, FListGitea github_repos) (fleet_fail HTTPError w)
| fs_semaphore_error w github_repos gitea_repos :
    gitea_list_repositories env = ApiOk gitea_repos ->
    max_concurrent_syncs (settings env) < 0 ->
    fleet_step env (w, FListGitea github_repos)
      (fleet_fail ValueError (log Info "Discovered repositories" "" w))
| fs_gather w github_repos gitea_repos :
    gitea_list_repositories env = ApiOk gitea_repos ->
    0 <= max_concurrent_syncs (settings env) ->
    fleet_step env (w, FListGitea github_repos)
      (log Info "Discovered repositories" "" w,
       FGather (max_concurrent_syncs (settings env))
         (map (λ n, {| child_name := n; child_st := Waiting |})
            (discover_repositories (settings env) github_repos gitea_repos)))
| fs_acquire w permits cs i c s :
    cs !! i = Some c -> child_st c = Waiting -> 0 < permits ->
    s = task_step env (child_name c) "auto" Start w ->
    fleet_step env (w, FGather permits cs)
      (s.1, FGather (permits - 1) (set_child i (Running s.2) cs))
| fs_child_next w permits cs i c p s :
    cs !! i = Some c -> child_st c = Running p ->
    s = task_step env (child_name c) "auto" p w ->
    (forall r, s.2 <> Done r) ->
    fleet_step env (w, FGather permits cs)
      (s.1, FGather permits (set_child i (Running s.2) cs))
| fs_child_done w permits cs i c p s r :
    cs !! i = Some c -> child_st c = Running p ->
    s = task_step env (child_name c) "auto" p w ->
    s.2 = Done r ->
    fleet_step env (w, FGather permits cs)
      (s.1, FGather (permits + 1) (set_child i (Finished r) cs))
| fs_gathered w permits cs :
    forallb is_finished cs = true ->
    fleet_step env (w, FGather permits cs) (w, FDone (Return PyNone)).

(** ** Every coroutine of the service that syncs

    A direct call of [sync_repository] (a webhook's background task, an
    immediate trigger) or a call of [sync_repositories]. *)
Inductive Job :=
| Direct (repo_name source : string) (p : pc)
| Fleet (f : fleet).

Inductive step (env : Env) : World * list Job -> World * list Job -> Prop :=
| step_direct w jobs i repo_name source p s :
    jobs !! i = Some (Direct repo_name source p) ->
    (forall r, p <> Done r) ->
    s = task_step env repo_name source p w ->
    step env (w, jobs) (s.1, <[i := Direct repo_name source s.2]> jobs)
| step_fleet w jobs i f w' f' :
    jobs !! i = Some (Fleet f) ->
    fleet_step env (w, f) (w', f') ->
    step env (w, jobs) (w', <[i := Fleet f']> jobs).

(** A sync is in flight from the moment it has marked the repository
    [syncing] until it is done. *)
Definition pc_in_flight (p : pc) : bool :=
  match p with
  | Start | Done _ => false
  | _ => true
  end.

Definition child_in_flight (c : Child) : bool :=
  match child_st c with
  | Running p => pc_in_flight p
  | _ => false
  end.

Definition fleet_in_flight (f : fleet) : list string :=
  match f with
  | FSingle n p => if pc_in_flight p then [n] else []
  | FGather _ cs => map child_name (filter (λ c, child_in_flight c = true) cs)
  | _ => []
  end.

Definition job_in_flight (j : Job) : list string :=
  match j with
  | Direct n _ p => if pc_in_flight p then [n] else []
  | Fleet f => fleet_in_flight f
  end.

Definition in_flight (jobs : list Job) : list string :=
  concat (map job_in_flight jobs).

(** ** Schedules of a whole-fleet sync *)

(** A move of the coroutine [sync_repositories], whatever the state of the
    store when it is scheduled: other coroutines may have run in between. *)
Definition fleet_moves (env : Env) (f f' : fleet) : Prop :=
  exists w w', fleet_step env (w, f) (w', f').

Definition is_running (c : Child) : bool :=
  match child_st c with Running _ => true | _ => false end.

(** The number of tasks of the gather that hold a permit. *)
Definition running (cs : list Child) : nat :=
  length (filter (λ c, is_running c = true) cs).

(** The awaits a sync still has in front of it, at most. *)
Definition pc_measure (p : pc) : nat :=
  match p with
  | Start => 4
  | AwaitGithub => 3
  | AwaitGitea _ => 2
  | AwaitCreate _ _ => 1
  | Done _ => 0
  end.

Definition child_measure (c : Child) : nat :=
  match child_st c with
  | Waiting => 5
  | Running p => S (pc_measure p)
  | Finished _ => 0
  end.

Definition gather_measure (f : fleet) : nat :=
  match f with
  | FGather _ cs => S (list_sum (map child_measure cs))
  | _ => 0
  end.

(** A child the event loop can resume. *)
Definition ready (permits : Z) (c : Child) : Prop :=
  match child_st c with
  | Waiting => 0 < permits
  | Running _ => True
  | Finished _ => False
  end.

#[global] Instance ready_dec permits c : Decision (ready permits c).
Proof. unfold ready. destruct (child_st c); apply _. Defined.

(** One schedule among those of [fleet_step]: resume the first child that
    is ready. *)
Definition fleet_next (env : Env) (wf : World * fleet) : option (World * fleet) :=
  let w := wf.1 in
  match wf.2 with
  | FStart o =>
      match o with
      | Some n =>
          if decide (n = "")
          then Some (log Info "Discovering repositories" "" w, FListGithub)
          else let s := task_step env n "auto" Start w in Some (s.1, FSingle n s.2)
      | None => Some (log Info "Discovering repositories" "" w, FListGithub)
      end
  | FSingle n p =>
      match p with
      | Done _ => None
      | _ =>
          let s := task_step env n "auto" p w in
          match s.2 with
          | Done (Return _) => Some (s.1, FDone (Return PyNone))
          | Done (Raise e) => Some (fleet_fail e s.1)
          | _ => Some (s.1, FSingle n s.2)
          end
      end
  | FListGithub =>
      match github_list_repositories env with
      | ApiError => Some (fleet_fail HTTPError w)
      | ApiOk github_repos => Some (w, FListGitea github_repos)
      end
  | FListGitea github_repos =>
      match gitea_list_repositories env with
      | ApiError => Some (fleet_fail HTTPError w)
      | ApiOk gitea_repos =>
          if decide (max_concurrent_syncs (settings env) < 0)
          then Some (fleet_fail ValueError (log Info "Discovered repositories" "" w))
          else Some (log Info "Discovered repositories" "" w,
                     FGather (max_concurrent_syncs (settings env))
                       (map (λ n, {| child_name := n; child_st := Waiting |})
                          (discover_repositories (settings env)
                             github_repos gitea_repos)))
      end
  | FGather permits cs =>
      match list_find (ready permits) cs with
      | Some (i, c) =>
          match child_st c with
          | Waiting =>
              let s := task_step env (child_name c) "auto" Start w in
              Some (s.1, FGather (permits - 1) (set_child i (Running s.2) cs))
          | Running p =>
              let s := task_step env (child_name c) "auto" p w in
              match s.2 with
              | Done r => Some (s.1, FGather (permits + 1) (set_child i (Finished r) cs))
              | _ => Some (s.1, FGather permits (set_child i (Running s.2) cs))
              end
          | Finished _ => None
          end
      | None =>
          if forallb is_finished cs then Some (w, FDone (Return PyNone)) else None
      end
  | FDone _ => None
  end.

(** [fleet_next] repeated, at most [fuel] times. *)
Fixpoint fleet_run (env : Env) (fuel : nat) (wf : World * fleet) : World * fleet :=
  match fuel with
  | O => wf
  | S k =>
      match fleet_next env wf with
      | Some wf' => fleet_run env k wf'
      | None => wf
      end
  end.

(** The state of the gate during the gather: the permits left and the
    permits held add up to the size of the gate, and no two tasks carry
    the same repository name. *)
Definition gate_ok (env : Env) (permits : Z) (cs : list Child) : Prop :=
  NoDup (map child_name cs) /\ 0 <= permits /\
  permits + Z.of_nat (running cs) = max_concurrent_syncs (settings env).

Definition fleet_inv (env : Env) (f : fleet) : Prop :=
  match f with
  | FSingle _ p => pc_in_flight p = true
  | FGather permits cs => gate_ok env permits cs
  | _ => True
  end.

(** The invariant of a sync of the whole fleet whose two listings answer
    [gh] and [gt]. *)
Definition gather_inv (env : Env) (gh gt : list RepoInfo) (f : fleet) : Prop :=
  match f with
  | FStart o => o = None \/ o = Some ""
  | FSingle _ _ => False
  | FListGithub => True
  | FListGitea g => g = gh
  | FGather permits cs =>
      gate_ok env permits cs /\
      map child_name cs = discover_repositories (settings env) gh gt
  | FDone r => r = Return PyNone
  end.

(** ** Reading one loop iteration of the analyser

    The relation of one branch name to the clone, as the [if]/[elif]
    chain and the [try] of [_analyze_repository_differences] decide it.
    [Synced], [Broken] and [Untracked] branches enter no list of the
    report. *)
Inductive branch_class :=
| OnlyGithub | OnlyGitea | Synced | GithubAhead | GiteaAhead | Diverged
| Broken      (* the comparison raised *)
| Untracked.  (* neither [origin/<branch>] nor [gitea/<branch>] is a ref *)

#[global] Instance branch_class_eq_dec : EqDecision branch_class.
Proof. solve_decision. Defined.

Definition classify (repo : Repo) (branch : string) : branch_class :=
  match bool_decide (github_ref branch ∈ refs repo),
        bool_decide (gitea_ref branch ∈ refs repo) with
  | true, false => OnlyGithub
  | false, true => OnlyGitea
  | false, false => Untracked
  | true, true =>
      match commit repo (github_ref branch), commit repo (gitea_ref branch) with
      | Some g, Some t =>
          if bool_decide (g ≠ t) then
            match iter_commits repo (gitea_ref branch) (github_ref branch),
                  iter_commits repo (github_ref branch) (gitea_ref branch) with
            | Some gh_ahead, Some gt_ahead =>
                if truthy gh_ahead && truthy gt_ahead then Diverged
                else if truthy gh_ahead then GithubAhead
                else if truthy gt_ahead then GiteaAhead
                else Synced
            | _, _ => Broken
            end
          else Synced
      | _, _ => Broken
      end
  end.

(** The list of the report a class is collected in. *)
Definition class_list (c : branch_class) (d : Differences) : list string :=
  match c with
  | OnlyGithub => github (new_branches d)
  | OnlyGitea => gitea (new_branches d)
  | GithubAhead => github_ahead d
  | GiteaAhead => gitea_ahead d
  | Diverged => diverged_branches d
  | Synced | Broken | Untracked => []
  end.

Definition listed (c : branch_class) : bool :=
  match c with
  | Synced | Broken | Untracked => false
  | _ => true
  end.

Definition compare_warning (branch : string) : LogEvent :=
  {| level := Warning; event := "Failed to compare branches"; subject := branch |}.

(** The pushes a resolution path issues, in order, when none is rejected. *)
Definition simple_plan (st : Settings) (d : Differences) : list GitPush :=
  map (push_to_gitea false) (github (new_branches d))
  ++ map (push_to_github false) (gitea (new_branches d))
  ++ map (push_to_gitea false) (github_ahead d)
  ++ map (push_to_github false) (gitea_ahead d)
  ++ (if sync_tags st
      then [PushTags "gitea"; PushGlob "origin" "gitea/*:refs/tags/*"]
      else []).

Definition conflict_plan (st : Settings) (d : Differences) : list GitPush :=
  match conflict_resolution st with
  | github_wins => map (push_to_gitea true) (diverged_branches d)
  | gitea_wins => map (push_to_github true) (diverged_branches d)
  | manual => []
  end.

(** The pushes of a plan that go through: all of them up to the first
    rejected one. *)
Fixpoint accepted (repo : Repo) (plan : list GitPush) : list GitPush :=
  match plan with
  | [] => []
  | cmd :: rest =>
      if push_rejected repo cmd then [] else cmd :: accepted repo rest
  end.

Definition all_accepted (repo : Repo) (plan : list GitPush) : bool :=
  forallb (λ cmd, negb (push_rejected repo cmd)) plan.

Definition is_return {A} (r : outcome A) : bool :=
  match r with Return _ => true | Raise _ => false end.

(** [m] issues the pushes of [plan], in order, and raises at the first
    rejected one. *)
Definition runs (repo : Repo) {A} (m : Git A) (plan : list GitPush) : Prop :=
  forall t, (m t).1 = t ++ accepted repo plan /\
            is_return (m t).2 = all_accepted repo plan.

(** The pushes of either resolution path. *)
Definition plan (st : Settings) (d : Differences) : list GitPush :=
  if negb (has_conflicts d) then simple_plan st d else conflict_plan st d.

#[global] Instance ConflictResolution_eq_dec : EqDecision ConflictResolution.
Proof. solve_decision. Defined.

(** The classes whose branch is missing or behind on exactly one side,
    and the push that brings that side up to date. *)
Definition one_sided (c : branch_class) : bool :=
  match c with
  | OnlyGithub | GithubAhead | OnlyGitea | GiteaAhead => true
  | _ => false
  end.

Definition ahead_push (c : branch_class) (b : string) : GitPush :=
  match c with
  | OnlyGitea | GiteaAhead => push_to_github false b
  | _ => push_to_gitea false b
  end.

(** ** Sample clones and settings *)

Definition sample_settings (policy : ConflictResolution) (tags : bool) : Settings :=
  {| github_token := "token"; github_user := "octo";
     gitea_url_setting := "https://gitea.example"; gitea_user := "octo";
     conflict_resolution := policy; sync_tags := tags;
     max_concurrent_syncs := 5;
     included_repositories := None; excluded_repositories := None |}.

(** [main] forked: X on GitHub, Z on Gitea, neither an ancestor of the other. *)
Definition repo_gamma : Repo :=
  {| refs := ["main"; "origin/main"; "gitea/main"];
     commit := λ r, if decide (r = "origin/main") then Some "X"
                    else if decide (r = "gitea/main") then Some "Z"
                    else if decide (r = "main") then Some "X" else None;
     iter_commits := λ a b,
       if decide (a = "gitea/main" /\ b = "origin/main") then Some ["X"]
       else if decide (a = "origin/main" /\ b = "gitea/main") then Some ["Z"]
       else None;
     push_rejected := λ _, false;
     remote_tags := λ _, [] |}.

(** [main] forked as in [repo_gamma]; [dev] has one more commit on GitHub;
    [docs] exists on Gitea only. *)
Definition repo_mixed : Repo :=
  {| refs := ["main"; "origin/main"; "origin/dev"; "gitea/main"; "gitea/dev";
              "gitea/docs"];
     commit := λ r, if decide (r = "origin/main") then Some "X"
                    else if decide (r = "gitea/main") then Some "Z"
                    else if decide (r = "origin/dev") then Some "D2"
                    else if decide (r = "gitea/dev") then Some "D1"
                    else if decide (r = "gitea/docs") then Some "W"
                    else if decide (r = "main") then Some "X" else None;
     iter_commits := λ a b,
       if decide (a = "gitea/main" /\ b = "origin/main") then Some ["X"]
       else if decide (a = "origin/main" /\ b = "gitea/main") then Some ["Z"]
       else if decide (a = "gitea/dev" /\ b = "origin/dev") then Some ["D2"]
       else if decide (a = "origin/dev" /\ b = "gitea/dev") then Some []
       else None;
     push_rejected := λ _, false;
     remote_tags := λ _, [] |}.

(** [main] identical on both sides; [dev] ahead on GitHub; [docs] on Gitea
    only; [wip] has a ref on both sides that does not resolve; tag [v1] on
    GitHub only. *)
Definition repo_beta : Repo :=
  {| refs := ["main"; "origin/main"; "origin/dev"; "origin/wip"; "gitea/main";
              "gitea/dev"; "gitea/docs"; "gitea/wip"; "v1"];
     commit := λ r, if decide (r = "origin/main") then Some "X"
                    else if decide (r = "gitea/main") then Some "X"
                    else if decide (r = "origin/dev") then Some "D2"
                    else if decide (r = "gitea/dev") then Some "D1"
                    else if decide (r = "gitea/docs") then Some "W"
                    else if decide (r = "origin/wip") then Some "P"
                    else if decide (r = "main") then Some "X"
                    else if decide (r = "v1") then Some "X" else None;
     iter_commits := λ a b,
       if decide (a = "gitea/dev" /\ b = "origin/dev") then Some ["D2"]
       else if decide (a = "origin/dev" /\ b = "gitea/dev") then Some []
       else None;
     push_rejected := λ _, false;
     remote_tags := λ r, if decide (r = "origin") then [("v1", "X")] else [] |}.

(** ** Sample worlds and platforms *)

Definition world0 : World :=
  {| repositories := ∅; sync_logs := []; sync_conflicts := []; pushed := [];
     created := []; logger := []; healthy := true; clock := 100 |}.

Definition row_gamma : SyncRepository :=
  {| id := 1; name := "gamma";
     github_url := Some "https://github.com/octo/gamma.git";
     gitea_url := Some "https://gitea.example/octo/gamma.git";
     sync_status := "pending"; last_sync := None; conflict_count := 0;
     created_at := 7; updated_at := 7; config := None |}.

Definition world_gamma : World :=
  with_repositories {[ "gamma" := row_gamma ]} world0.

Definition info (n : string) : RepoInfo :=
  {| info_name := n; clone_url := "https://github.com/octo/" +:+ n +:+ ".git" |}.

(** [alpha] on GitHub only, [beta] and [gamma] on both platforms,
    [flaky] makes the GitHub client raise, anything else is on neither. *)
Definition sample_env (policy : ConflictResolution) : Env :=
  {| settings := sample_settings policy true;
     github_get_repository := λ n,
       if decide (n = "flaky") then ApiError
       else if decide (n = "alpha" \/ n = "beta" \/ n = "gamma")
            then ApiOk (Some (info n)) else ApiOk None;
     gitea_get_repository := λ n,
       if decide (n = "beta" \/ n = "gamma")
       then ApiOk (Some (info n)) else ApiOk None;
     github_list_repositories := ApiOk [info "alpha"; info "beta"; info "gamma"];
     gitea_list_repositories := ApiOk [info "beta"; info "gamma"];
     create_repository := λ _ _, ApiOk tt;
     clone_github := λ n,
       if decide (n = "alpha")
       then Some {| refs := ["main"; "origin/main"; "v1"];
                    commit := λ _, Some "A"; iter_commits := λ _ _, Some [];
                    push_rejected := λ _, false;
                    remote_tags := λ r, if decide (r = "origin")
                                        then [("v1", "A")] else [] |}
       else None;
     clone_gitea := λ _, None;
     work_clone := λ n,
       if decide (n = "gamma") then Some repo_gamma
       else if decide (n = "beta") then Some repo_beta else None |}.


(** [sample_env] with tag synchronisation switched off. *)
Definition sample_env_no_tags (policy : ConflictResolution) : Env :=
  {| settings := sample_settings policy false;
     github_get_repository := github_get_repository (sample_env policy);
     gitea_get_repository := gitea_get_repository (sample_env policy);
     github_list_repositories := github_list_repositories (sample_env policy);
     gitea_list_repositories := gitea_list_repositories (sample_env policy);
     create_repository := create_repository (sample_env policy);
     clone_github := clone_github (sample_env policy);
     clone_gitea := clone_gitea (sample_env policy);
     work_clone := work_clone (sample_env policy) |}.

(** ** Branch differences ([utils/git_operations.py]) *)

(** The dictionary [get_branch_differences] returns. *)
Record BranchDifferences := {
  ahead : list hexsha;
  behind : list hexsha;
  diverged : bool
}.

(** [len(l) > 0] *)
Definition nonempty {A} (l : list A) : bool := (0 <? length l)%nat.

(** [GitOperations.get_branch_differences]: the revision walks of
    [branch2..branch1] and [branch1..branch2]; a failing walk is logged and
    raised again. *)
Definition get_branch_differences (repo : Repo) (branch1 branch2 : string)
  : outcome BranchDifferences :=
  match iter_commits repo branch2 branch1 with
  | None => Raise GitCommandError
  | Some ahead_commits =>
      match iter_commits repo branch1 branch2 with
      | None => Raise GitCommandError
      | Some behind_commits =>
          Return {| ahead := ahead_commits; behind := behind_commits;
                    diverged := nonempty ahead_commits && nonempty behind_commits |}
      end
  end.

(** Swapping the two sides of a result. *)
Definition swap_differences (r : outcome BranchDifferences)
  : outcome BranchDifferences :=
  match r with
  | Return d => Return {| ahead := behind d; behind := ahead d;
                          diverged := diverged d |}
  | Raise e => Raise e
  end.

(** A fresh clone as git leaves it: the symbolic ref [origin/HEAD] beside
    [origin/main], [main] identical on both sides. *)
Definition repo_head : Repo :=
  {| refs := ["main"; "origin/HEAD"; "origin/main"; "gitea/main"];
     commit := λ _, Some "X";
     iter_commits := λ _ _, Some [];
     push_rejected := λ _, false;
     remote_tags := λ _, [] |}.

(** [repo_beta] with a protected [dev] on Gitea: the push onto it is
    rejected. *)
Definition repo_protected : Repo :=
  {| refs := refs repo_beta; commit := commit repo_beta;
     iter_commits := iter_commits repo_beta;
     push_rejected := λ cmd,
       bool_decide (cmd = PushRef "gitea" "origin/dev" "dev" false);
     remote_tags := remote_tags repo_beta |}.

(** Every exception a computation over the pushes raises is the one of a
    rejected push. *)
Definition raises_only_git {A} (m : Git A) : Prop :=
  forall t e, (m t).2 = Raise e -> e = GitCommandError.

(** ** What the service may do to its state *)

(** A later state of the service: rows are kept, with their key columns,
    URLs and configuration, and with a conflict counter that does not go
    down; the log table, the pushes, the created repositories and the
    structured log only grow; the table of conflicts is not written; the
    health flag is not restored; the clock does not go back. *)
Record evolves (w w' : World) : Prop := {
  ev_rows : forall k r,
    repositories w !! k = Some r ->
    exists r', repositories w' !! k = Some r' /\
      id r' = id r /\ name r' = name r /\ created_at r' = created_at r /\
      github_url r' = github_url r /\ gitea_url r' = gitea_url r /\
      config r' = config r /\ conflict_count r <= conflict_count r';
  ev_logs : sync_logs w `prefix_of` sync_logs w';
  ev_pushed : pushed w `prefix_of` pushed w';
  ev_created : created w `prefix_of` created w';
  ev_logger : logger w `prefix_of` logger w';
  ev_conflicts : sync_conflicts w' = sync_conflicts w;
  ev_healthy : healthy w' = true -> healthy w = true;
  ev_clock : clock w <= clock w'
}.

(** Only the row of [repo_name] may differ between [w] and [w']. *)
Definition touches_only (repo_name : string) (w w' : World) : Prop :=
  forall k, k <> repo_name -> repositories w' !! k = repositories w !! k.


Definition outcome_status (r : outcome SyncResult) : string :=
  match r with
  | Return _ => "synced"
  | Raise (SyncConflictError _) => "conflict"
  | Raise _ => "failed"
  end.



(** [sample_env] with a Gitea that refuses to create repositories. *)
Definition sample_env_no_create (policy : ConflictResolution) : Env :=
  {| settings := settings (sample_env policy);
     github_get_repository := github_get_repository (sample_env policy);
     gitea_get_repository := gitea_get_repository (sample_env policy);
     github_list_repositories := github_list_repositories (sample_env policy);
     gitea_list_repositories := gitea_list_repositories (sample_env policy);
     create_repository := λ _ _, ApiError;
     clone_github := clone_github (sample_env policy);
     clone_gitea := clone_gitea (sample_env policy);
     work_clone := work_clone (sample_env policy) |}.

(** ** Cancellation

    [task.cancel()] makes the await at which a coroutine is suspended
    raise [asyncio.CancelledError].  It is a [BaseException] and not an
    [Exception]: neither [except] clause of [sync_repository] catches it,
    nor those of the platform clients, and there is no [finally]; the call
    ends at that await and the store stays as the last step left it.  A
    task that has not started never runs; a call that is over cannot be
    cancelled.  [SyncScheduler.stop] cancels the scheduled sync this way. *)
Inductive ending :=
| Completed (r : outcome SyncResult)
| Cancelled.

(** [sync_repository] resumed [k] times, then cancelled unless it is over. *)
Definition sync_repository_cancel (env : Env) (repo_name source : string)
    (k : nat) (w : World) : World * ending :=
  let s := Nat.iter k (λ s, task_step env repo_name source s.2 s.1) (w, Start) in
  match s.2 with
  | Done r => (s.1, Completed r)
  | _ => (s.1, Cancelled)
  end.

(** What a call of [sync_repository] started in [w] and suspended at an
    await has done to the store [w']: nothing is logged, pushed or
    created, and the row of the repository is in status [syncing], or in
    [pending] when the call inserted it. *)
Definition suspended (repo_name : string) (w w' : World) : Prop :=
  sync_logs w' = sync_logs w /\ pushed w' = pushed w /\
  created w' = created w /\
  match repositories w !! repo_name with
  | Some _ =>
      exists row, repositories w' !! repo_name = Some row /\
                  sync_status row = "syncing"
  | None =>
      forall row, repositories w' !! repo_name = Some row ->
                  sync_status row = "pending"
  end.


(** [sample_env] with the row of [gamma] in the store, resumed twice.  *)
Definition cancelled_gamma : World * ending :=
  sync_repository_cancel (sample_env manual) "gamma" "auto" 2 world_gamma.

(** ** Webhooks ([services/webhook_handler.py], [main.py]) *)

(** [WebhookHandler._should_sync_repository] *)
Definition should_sync_repository (st : Settings) (repository_name : string)
  : bool :=
  let excluded_repos := default [] (excluded_repositories st) in
  if match included_repositories st with
     | Some included_repos =>
         truthy included_repos
         && negb (bool_decide (repository_name ∈ included_repos))
     | None => false
     end
  then false
  else if bool_decide (repository_name ∈ excluded_repos) then false
  else true.

(** What the handlers read of a webhook payload. *)
Record Payload := {
  payload_repository_name : option string;
    (* payload.get("repository", {}).get("name") *)
  payload_ref : option string;          (* payload.get("ref") *)
  payload_action : option string;       (* payload.get("action") *)
  payload_tag_name : option string
    (* payload.get("release", {}).get("tag_name") *)
}.

(** What the handlers read of the request headers. *)
Record Headers := {
  x_github_event : option string;
  x_gitea_event : option string;
  x_hub_signature_256 : option string;
  x_gitea_signature : option string
}.

(** The settings the webhook handler reads beside those of the engine;
    [payload_digest secret payload] is the hexadecimal HMAC-SHA256 of the
    compact JSON dump of the payload under [secret]. *)
Record WebhookSettings := {
  base : Settings;
  webhook_secret : option string;
  sync_branches : bool;
  sync_releases : bool;
  payload_digest : string -> Payload -> string
}.

(** The dictionary a handler returns. *)
Record WebhookResult := {
  sync_required : bool;
  result_repository : option string;
  result_event_type : option string;
  result_ref : option string;
  result_action : option string;
  result_tag_name : option string;
  result_source : option string
}.

(** [{"sync_required": False}] *)
Definition no_sync : WebhookResult :=
  {| sync_required := false; result_repository := None;
     result_event_type := None; result_ref := None; result_action := None;
     result_tag_name := None; result_source := None |}.

(** Python truthiness of an optional string. *)
Definition truthy_str (o : option string) : bool :=
  match o with
  | Some s => negb (bool_decide (s = ""))
  | None => false
  end.

(** [_verify_github_signature] *)
Definition verify_github_signature (ws : WebhookSettings) (payload : Payload)
    (headers : Headers) : bool :=
  if negb (truthy_str (x_hub_signature_256 headers)) then false
  else bool_decide
         (x_hub_signature_256 headers =
          Some ("sha256=" +:+
                payload_digest ws (default "" (webhook_secret ws)) payload)).


(** [_handle_github_push_event] and [_handle_gitea_push_event], which
    differ by the [source] they report. *)
Definition handle_push_event (ws : WebhookSettings) (source : string)
    (payload : Payload) (repository_name : string) : WebhookResult :=
  let ref := default "" (payload_ref payload) in
  if startswith "refs/heads/" ref && sync_branches ws then
    {| sync_required := true; result_repository := Some repository_name;
       result_event_type := Some "push"; result_ref := Some ref;
       result_action := None; result_tag_name := None;
       result_source := Some source |}
  else if startswith "refs/tags/" ref && sync_tags (base ws) then
    {| sync_required := true; result_repository := Some repository_name;
       result_event_type := Some "tag"; result_ref := Some ref;
       result_action := None; result_tag_name := None;
       result_source := Some source |}
  else no_sync.

(** [_handle_github_repo_created] and [_handle_gitea_repo_created] *)
Definition handle_repo_created (source repository_name : string)
  : WebhookResult :=
  {| sync_required := true; result_repository := Some repository_name;
     result_event_type := Some "repository_created"; result_ref := None;
     result_action := None; result_tag_name := None;
     result_source := Some source |}.

(** [_handle_github_release_event] and [_handle_gitea_release_event] *)
Definition handle_release_event (ws : WebhookSettings) (source : string)
    (payload : Payload) (repository_name : string) : WebhookResult :=
  if negb (sync_releases ws) then no_sync
  else if bool_decide (payload_action payload
                       ∈ map Some ["published"; "created"; "edited"; "deleted"])
  then {| sync_required := true; result_repository := Some repository_name;
          result_event_type := Some "release"; result_ref := None;
          result_action := payload_action payload;
          result_tag_name := payload_tag_name payload;
          result_source := Some source |}
  else no_sync.

(** What a call of a handler ends with: the dictionary it returns or the
    exception it raises. *)
Inductive webhook_exn :=
| TypeError          (* got multiple values for argument 'event' *)
| InvalidSignature.  (* ValueError("Invalid webhook signature") *)

Inductive handled :=
| Answer (result : WebhookResult)
| Raises (e : webhook_exn).

(** [self.logger.info(message, **kw)], [kw] being the keyword names of the
    call, followed by [rest].  The logger is structlog's; the message is
    the parameter [event] of its methods, so a call that passes a keyword
    [event] as well raises [TypeError] before anything is logged. *)
Definition logger_info (kw : list string) (rest : handled) : handled :=
  if bool_decide ("event" ∈ kw) then Raises TypeError else rest.

(** [handle_github_webhook] *)
Definition handle_github_webhook (ws : WebhookSettings) (payload : Payload)
    (headers : Headers) : handled :=
  logger_info ["event"]                (* "Processing GitHub webhook" *)
    (if truthy_str (webhook_secret ws)
        && negb (verify_github_signature ws payload headers)
     then Raises InvalidSignature
     else
       let event_type := x_github_event headers in
       match payload_repository_name payload with
       | None => Answer no_sync
       | Some repository_name =>
           if bool_decide (repository_name = "") then Answer no_sync
           else if negb (should_sync_repository (base ws) repository_name)
           then logger_info ["repo"] (Answer no_sync)
           else if bool_decide (event_type ∈ map Some ["push"; "create"; "delete"])
           then Answer (handle_push_event ws "github" payload repository_name)
           else if bool_decide (event_type = Some "repository")
                   && bool_decide (payload_action payload = Some "created")
           then Answer (handle_repo_created "github" repository_name)
           else if bool_decide (event_type = Some "release")
           then Answer (handle_release_event ws "github" payload repository_name)
           else logger_info ["event"; "repo"]   (* "Ignoring GitHub event" *)
                  (Answer no_sync)
       end).


(** The endpoints [/webhooks/github] and [/webhooks/gitea] of [main.py],
    once the service has started and [webhook_handler] is set: the HTTP
    status of the answer and the background tasks queued.  Every exception
    is answered by status 400, also the [KeyError] of a result that asks
    for a sync without naming the repository. *)
Definition webhook_endpoint (source : string)
    (handler : Payload -> Headers -> handled)
    (payload : Payload) (headers : Headers) (jobs : list Job)
  : Z * list Job :=
  match handler payload headers with
  | Raises _ => (400, jobs)
  | Answer result =>
      if sync_required result then
        match result_repository result with
        | Some repository => (200, jobs ++ [Direct repository source Start])
        | None => (400, jobs)
        end
      else (200, jobs)
  end.

Definition github_webhook (ws : WebhookSettings) :=
  webhook_endpoint "github" (handle_github_webhook ws).


(** The endpoint [/sync/manual]: one call of [sync_repositories] queued. *)
Definition manual_sync (repo_name : option string) (jobs : list Job) : list Job :=
  jobs ++ [Fleet (FStart repo_name)].

(** [SyncScheduler.trigger_immediate_sync]: a named repository is synced by
    [sync_repository] itself, the whole fleet by [sync_repositories]. *)
Definition trigger_immediate_sync (repo_name : option string) : Job :=
  if truthy_str repo_name then Direct (default "" repo_name) "auto" Start
  else Fleet (FStart None).

(** A webhook configuration for the samples: secret ["s3cret"], a digest
    that stands for the real one. *)
Definition sample_webhook_settings (st : Settings) : WebhookSettings :=
  {| base := st; webhook_secret := Some "s3cret"; sync_branches := true;
     sync_releases := true;
     payload_digest := λ secret payload,
       secret +:+ ":" +:+ default "" (payload_repository_name payload) |}.

Definition sample_push (n : string) : Payload :=
  {| payload_repository_name := Some n; payload_ref := Some "refs/heads/main";
     payload_action := None; payload_tag_name := None |}.

Definition sample_headers (event signature : string) : Headers :=
  {| x_github_event := Some event; x_gitea_event := Some event;
     x_hub_signature_256 := Some signature;
     x_gitea_signature := Some signature |}.

(** The two platforms of a webhook, to state facts about both handlers. *)
Inductive Platform := GitHub | Gitea.


(** ** The repositories a sync writes *)

(** Between [w] and [w'] only repositories of [D] were written: the rows
    of the others are the same, and every push, created repository and
    log row added since [w] carries a name of [D]. *)
Definition writes_within (D : string -> Prop) (w w' : World) : Prop :=
  (forall k, ~ D k -> repositories w' !! k = repositories w !! k) /\
  (exists l, pushed w' = pushed w ++ l /\ Forall (λ x, D x.1) l) /\
  (exists l, created w' = created w ++ l /\ Forall (λ x, D x.2) l) /\
  (exists l, sync_logs w' = sync_logs w ++ l /\
             Forall (λ x, D (log_repository_name x)) l).

(** The names [discover_repositories] returns for the listings of [env];
    a listing that raises leaves nothing to sync. *)
Definition discovered (env : Env) : list string :=
  match github_list_repositories env, gitea_list_repositories env with
  | ApiOk github_repos, ApiOk gitea_repos =>
      discover_repositories (settings env) github_repos gitea_repos
  | _, _ => []
  end.

(** The repositories a call [sync_repositories(repo_name)] is about: the
    one named, or the discovered ones when no name (or an empty one) is
    given. *)
Definition fleet_scope (env : Env) (o : option string) (k : string) : Prop :=
  match o with
  | Some n => if decide (n = "") then k ∈ discovered env else k = n
  | None => k ∈ discovered env
  end.

(** What holds of [sync_repositories] on its way when all it is about
    lies in [D]. *)
Definition scope_inv (env : Env) (D : string -> Prop) (f : fleet) : Prop :=
  match f with
  | FStart o => forall k, fleet_scope env o k -> D k
  | FSingle n _ => D n
  | FListGithub => forall k, k ∈ discovered env -> D k
  | FListGitea g =>
      github_list_repositories env = ApiOk g /\
      forall k, k ∈ discovered env -> D k
  | FGather _ cs => Forall (λ c, D (child_name c)) cs
  | FDone _ => True
  end.

(** [sample_env] with a repository [delta] that only Gitea has. *)
Definition sample_env_delta (policy : ConflictResolution) : Env :=
  {| settings := settings (sample_env policy);
     github_get_repository := github_get_repository (sample_env policy);
     gitea_get_repository := λ n,
       if decide (n = "delta") then ApiOk (Some (info n))
       else gitea_get_repository (sample_env policy) n;
     github_list_repositories := github_list_repositories (sample_env policy);
     gitea_list_repositories :=
       ApiOk [info "beta"; info "gamma"; info "delta"];
     create_repository := create_repository (sample_env policy);
     clone_github := clone_github (sample_env policy);
     clone_gitea := λ n,
       if decide (n = "delta")
       then Some {| refs := ["main"; "origin/main"];
                    commit := λ _, Some "D"; iter_commits := λ _ _, Some [];
                    push_rejected := λ _, false;
                    remote_tags := λ _, [] |}
       else None;
     work_clone := work_clone (sample_env policy) |}.

(** [sample_env] where the push of the tags of [alpha] to the new Gitea
    repository raises. *)
Definition sample_env_tags_fail (policy : ConflictResolution) : Env :=
  {| settings := settings (sample_env policy);
     github_get_repository := github_get_repository (sample_env policy);
     gitea_get_repository := gitea_get_repository (sample_env policy);
     github_list_repositories := github_list_repositories (sample_env policy);
     gitea_list_repositories := gitea_list_repositories (sample_env policy);
     create_repository := create_repository (sample_env policy);
     clone_github := λ n,
       if decide (n = "alpha")
       then Some {| refs := ["main"; "origin/main"; "v1"];
                    commit := λ _, Some "A"; iter_commits := λ _ _, Some [];
                    push_rejected := λ cmd,
                      bool_decide
                        (cmd = PushGlob "gitea" "refs/tags/*:refs/tags/*");
                    remote_tags := λ r, if decide (r = "origin")
                                        then [("v1", "A")] else [] |}
       else None;
     clone_gitea := clone_gitea (sample_env policy);
     work_clone := work_clone (sample_env policy) |}.

(** [sample_env] with [gamma] excluded from synchronisation. *)
Definition sample_env_excluding (policy : ConflictResolution) : Env :=
  {| settings :=
       {| github_token := "token"; github_user := "octo";
          gitea_url_setting := "https://gitea.example"; gitea_user := "octo";
          conflict_resolution := policy; sync_tags := true;
          max_concurrent_syncs := 5;
          included_repositories := None;
          excluded_repositories := Some ["gamma"] |};
     github_get_repository := github_get_repository (sample_env policy);
     gitea_get_repository := gitea_get_repository (sample_env policy);
     github_list_repositories := github_list_repositories (sample_env policy);
     gitea_list_repositories := gitea_list_repositories (sample_env policy);
     create_repository := create_repository (sample_env policy);
     clone_github := clone_github (sample_env policy);
     clone_gitea := clone_gitea (sample_env policy);
     work_clone := work_clone (sample_env policy) |}.

(** ** Listing the repositories of a platform ([utils/api_clients.py]) *)

(** The [while True] loop of [list_repositories]: [fetch page] is the
    answer to the request for [page] ([ApiError] when [_make_request]
    raises) and [repos] holds the entries gathered so far.  The loop has
    no bound of its own: [None] is a run that is not over after [fuel]
    requests. *)
Fixpoint list_pages {A} (fetch : nat -> api_result (list A)) (per_page : nat)
    (fuel page : nat) (repos : list A) : option (api_result (list A)) :=
  match fuel with
  | O => None
  | S k =>
      match fetch page with
      | ApiError => Some ApiError
      | ApiOk data =>
          if negb (truthy data) then Some (ApiOk repos)
          else
            let repos := repos ++ data in
            if (length data <? per_page)%nat then Some (ApiOk repos)
            else list_pages fetch per_page k (S page) repos
      end
  end.

(** [per_page = 100] in [GitHubClient], [limit = 50] in [GiteaClient]. *)
Definition page_size (pf : Platform) : nat :=
  match pf with GitHub => 100%nat | Gitea => 50%nat end.

(** [GitHubClient.list_repositories] and [GiteaClient.list_repositories] *)
Definition list_repositories {A} (pf : Platform)
    (fetch : nat -> api_result (list A)) (fuel : nat)
  : option (api_result (list A)) :=
  list_pages fetch (page_size pf) fuel 1 [].

(** The pages from [page] on are [pages], each of them full. *)
Definition full_pages {A} (fetch : nat -> api_result (list A)) (per_page : nat)
    (page : nat) (pages : list (list A)) : Prop :=
  forall i data, pages !! i = Some data ->
    fetch (page + i)%nat = ApiOk data /\ (per_page <= length data)%nat /\
    data <> [].

(** A Gitea whose first page is full and whose second page holds one
    repository. *)
Definition sample_fetch (page : nat) : api_result (list string) :=
  if decide (page = 1%nat) then ApiOk (replicate 50 "r")
  else if decide (page = 2%nat) then ApiOk ["s"]
  else ApiError.

(** * Properties *)

(** ** The analyser *)

Section Analysis.
Variable repo : Repo.

Lemma analyze_branch_class acc b c :
  class_list c (analyze_branch repo acc b).1 =
  class_list c acc.1 ++
    (if listed c && bool_decide (classify repo b = c) then [b] else []).
Proof.
  unfold analyze_branch, classify, compare_branch.
  destruct (bool_decide (github_ref b ∈ refs repo)),
           (bool_decide (gitea_ref b ∈ refs repo)); simpl;
    try (destruct c; simpl; rewrite ?app_nil_r; reflexivity).
  destruct (commit repo (github_ref b)) as [g|]; simpl;
    [|destruct c; simpl; rewrite ?app_nil_r; reflexivity].
  destruct (commit repo (gitea_ref b)) as [t|]; simpl;
    [|destruct c; simpl; rewrite ?app_nil_r; reflexivity].
  destruct (bool_decide (g ≠ t)); simpl;
    [|destruct c; simpl; rewrite ?app_nil_r; reflexivity].
  destruct (iter_commits repo (gitea_ref b) (github_ref b)) as [l1|]; simpl;
    [|destruct c; simpl; rewrite ?app_nil_r; reflexivity].
  destruct (iter_commits repo (github_ref b) (gitea_ref b)) as [l2|]; simpl;
    [|destruct c; simpl; rewrite ?app_nil_r; reflexivity].
  destruct (truthy l1), (truthy l2); simpl;
    destruct c; simpl; rewrite ?app_nil_r; reflexivity.
Qed.

Lemma analyze_fold_class bs : forall acc c,
  class_list c (fold_left (analyze_branch repo) bs acc).1 =
  class_list c acc.1 ++
    (if listed c then filter (λ b, classify repo b = c) bs else []).
Proof.
  induction bs as [|b bs IH]; intros acc c; simpl.
  - destruct (listed c); rewrite app_nil_r; reflexivity.
  - rewrite IH, analyze_branch_class.
    destruct (listed c); simpl; [|rewrite !app_nil_r; reflexivity].
    rewrite filter_cons. case_bool_decide; case_decide; try contradiction.
    + rewrite <- app_assoc. reflexivity.
    + rewrite app_nil_r. reflexivity.
Qed.

(** Each list of the report is the sub-list of [all_branches] of that
    class, in iteration order. *)
Lemma analyze_class c :
  class_list c (analyze_repository_differences repo).1 =
  if listed c then filter (λ b, classify repo b = c) (all_branches repo) else [].
Proof.
  unfold analyze_repository_differences. rewrite analyze_fold_class.
  destruct c; reflexivity.
Qed.

Lemma all_branches_NoDup : NoDup (all_branches repo).
Proof. apply NoDup_remove_dups. Qed.

Lemma analyze_class_elem c b :
  b ∈ class_list c (analyze_repository_differences repo).1 <->
  listed c = true /\ b ∈ all_branches repo /\ classify repo b = c.
Proof.
  rewrite analyze_class. destruct (listed c).
  - rewrite list_elem_of_filter. tauto.
  - split; [by intros ?%elem_of_nil | intros [H _]; discriminate].
Qed.

Lemma analyze_class_NoDup c :
  NoDup (class_list c (analyze_repository_differences repo).1).
Proof.
  rewrite analyze_class. destruct (listed c); [|constructor].
  apply NoDup_filter, all_branches_NoDup.
Qed.
End Analysis.

Section AnalysisInvariants.
Variable repo : Repo.

Lemma analyze_branch_new_tags acc b :
  new_tags (analyze_branch repo acc b).1 = new_tags acc.1.
Proof.
  unfold analyze_branch, compare_branch.
  repeat (case_match; simplify_option_eq; simpl; try reflexivity).
Qed.

Lemma analyze_fold_new_tags bs : forall acc,
  new_tags (fold_left (analyze_branch repo) bs acc).1 = new_tags acc.1.
Proof.
  induction bs as [|b bs IH]; intros acc; simpl; [reflexivity|].
  rewrite IH. apply analyze_branch_new_tags.
Qed.

Lemma analyze_branch_has_conflicts acc b :
  has_conflicts acc.1 = truthy (diverged_branches acc.1) ->
  has_conflicts (analyze_branch repo acc b).1 =
  truthy (diverged_branches (analyze_branch repo acc b).1).
Proof.
  intros H. unfold analyze_branch, compare_branch.
  repeat (case_match; simplify_option_eq; simpl; try assumption);
    destruct (diverged_branches acc.1); reflexivity.
Qed.

Lemma analyze_fold_has_conflicts bs : forall acc,
  has_conflicts acc.1 = truthy (diverged_branches acc.1) ->
  has_conflicts (fold_left (analyze_branch repo) bs acc).1 =
  truthy (diverged_branches (fold_left (analyze_branch repo) bs acc).1).
Proof.
  induction bs as [|b bs IH]; intros acc H; simpl; [assumption|].
  apply IH, analyze_branch_has_conflicts, H.
Qed.

(** [has_conflicts] is set exactly when some branch was listed as diverged. *)
Lemma analyze_has_conflicts :
  has_conflicts (analyze_repository_differences repo).1 =
  truthy (diverged_branches (analyze_repository_differences repo).1).
Proof. apply analyze_fold_has_conflicts. reflexivity. Qed.

Lemma analyze_branch_log acc b :
  (analyze_branch repo acc b).2 =
  acc.2 ++ (if bool_decide (classify repo b = Broken)
            then [compare_warning b] else []).
Proof.
  unfold analyze_branch, classify, compare_branch, compare_warning.
  repeat (case_match; simplify_option_eq; simpl;
          rewrite ?app_nil_r; try reflexivity; try congruence).
Qed.

Lemma analyze_fold_log bs : forall acc,
  (fold_left (analyze_branch repo) bs acc).2 =
  acc.2 ++ map compare_warning (filter (λ b, classify repo b = Broken) bs).
Proof.
  induction bs as [|b bs IH]; intros acc; simpl.
  - rewrite app_nil_r. reflexivity.
  - rewrite IH, analyze_branch_log, filter_cons.
    case_bool_decide; case_decide; try contradiction; simpl.
    + rewrite <- app_assoc. reflexivity.
    + rewrite app_nil_r. reflexivity.
Qed.
End AnalysisInvariants.

(** ** Resolution: which pushes are issued *)

Section Pushes.
Variable repo : Repo.

Lemma accepted_app p q :
  accepted repo (p ++ q) =
  if all_accepted repo p then p ++ accepted repo q else accepted repo p.
Proof.
  induction p as [|c p IH]; simpl; [reflexivity|].
  destruct (push_rejected repo c); simpl; [reflexivity|].
  rewrite IH. destruct (all_accepted repo p); reflexivity.
Qed.

Lemma all_accepted_app p q :
  all_accepted repo (p ++ q) = all_accepted repo p && all_accepted repo q.
Proof. apply forallb_app. Qed.

Lemma accepted_all p : all_accepted repo p = true -> accepted repo p = p.
Proof.
  induction p as [|c p IH]; simpl; [reflexivity|].
  destruct (push_rejected repo c); simpl; [discriminate|].
  intros H. rewrite IH; auto.
Qed.

Lemma accepted_prefix p : accepted repo p `prefix_of` p.
Proof.
  induction p as [|c p IH]; simpl; [reflexivity|].
  destruct (push_rejected repo c); [apply prefix_nil|].
  apply prefix_cons, IH.
Qed.

Lemma accepted_elem c p : c ∈ accepted repo p -> c ∈ p.
Proof.
  intros H. destruct (accepted_prefix p) as [k Hk].
  rewrite Hk. apply elem_of_app. left. exact H.
Qed.

Lemma runs_ret {A} (a : A) : runs repo (git_ret a) [].
Proof. intros t. simpl. rewrite app_nil_r. auto. Qed.

Lemma runs_push cmd : runs repo (git_push repo cmd) [cmd].
Proof.
  intros t. unfold git_push. simpl.
  destruct (push_rejected repo cmd); simpl; rewrite ?app_nil_r; auto.
Qed.

Lemma runs_bind {A B} (m : Git A) (k : A -> Git B) p q :
  runs repo m p -> (forall a, runs repo (k a) q) -> runs repo (git_bind m k) (p ++ q).
Proof.
  intros Hm Hk t. unfold git_bind.
  destruct (Hm t) as [Ht Hr].
  rewrite accepted_app, all_accepted_app.
  destruct (m t) as [t' [a|e]]; simpl in *; rewrite <- Hr; simpl; subst t'.
  - destruct (Hk a (t ++ accepted repo p)) as [Ht' Hr'].
    rewrite Ht', Hr', <- app_assoc, (accepted_all p) by auto. auto.
  - auto.
Qed.

Lemma runs_push_each mk label bs : forall actions,
  runs repo (push_each repo mk label bs actions) (map mk bs).
Proof.
  induction bs as [|b bs IH]; intros actions; simpl.
  - apply runs_ret.
  - apply (runs_bind _ _ [mk b]); [apply runs_push|]. intros _. apply IH.
Qed.

Lemma runs_simple_sync st d :
  runs repo (perform_simple_sync st repo d) (simple_plan st d).
Proof.
  unfold perform_simple_sync, simple_plan.
  apply runs_bind; [apply runs_push_each|intros a1].
  apply runs_bind; [apply runs_push_each|intros a2].
  apply runs_bind; [apply runs_push_each|intros a3].
  apply runs_bind; [apply runs_push_each|intros a4].
  rewrite <- (app_nil_r (if sync_tags st then _ else _)).
  apply runs_bind; [|intros a5; apply runs_ret].
  destruct (sync_tags st); [|apply runs_ret].
  apply (runs_bind _ _ [PushTags "gitea"]); [apply runs_push|intros _].
  rewrite <- (app_nil_r [PushGlob _ _]).
  apply runs_bind; [apply runs_push|intros _; apply runs_ret].
Qed.

Lemma runs_resolve_each st bs : forall actions,
  conflict_resolution st <> manual ->
  runs repo (resolve_each st repo bs actions)
    (match conflict_resolution st with
     | github_wins => map (push_to_gitea true) bs
     | gitea_wins => map (push_to_github true) bs
     | manual => []
     end).
Proof.
  induction bs as [|b bs IH]; intros actions Hm; simpl.
  - destruct (conflict_resolution st); apply runs_ret.
  - specialize (IH).
    destruct (conflict_resolution st) eqn:E; try congruence; simpl.
    + apply (runs_bind _ _ [push_to_gitea true b]); [apply runs_push|].
      intros _. apply IH. congruence.
    + apply (runs_bind _ _ [push_to_github true b]); [apply runs_push|].
      intros _. apply IH. congruence.
Qed.

Lemma runs_handle_conflicts st d :
  conflict_resolution st <> manual ->
  runs repo (handle_sync_conflicts st repo d) (conflict_plan st d).
Proof.
  intros Hm. unfold handle_sync_conflicts, conflict_plan.
  pose proof (runs_resolve_each st (diverged_branches d) [] Hm) as H.
  destruct (conflict_resolution st); try congruence;
    rewrite <- (app_nil_r (map _ _));
    (apply runs_bind; [exact H|intros a; apply runs_ret]).
Qed.

(** Under [manual] a conflict raises before any push. *)
Lemma handle_conflicts_manual st d t :
  conflict_resolution st = manual ->
  handle_sync_conflicts st repo d t =
  (t, Raise (SyncConflictError (diverged_branches d))).
Proof. intros H. unfold handle_sync_conflicts. rewrite H. reflexivity. Qed.

Lemma resolve_trace st d t :
  (resolve st repo d t).1 = t ++ accepted repo (plan st d).
Proof.
  unfold resolve, plan. destruct (has_conflicts d); simpl.
  - destruct (decide (conflict_resolution st = manual)) as [E|E].
    + rewrite handle_conflicts_manual by exact E.
      unfold conflict_plan. rewrite E. simpl. rewrite app_nil_r. reflexivity.
    + apply runs_handle_conflicts, E.
  - apply runs_simple_sync.
Qed.
End Pushes.

Example analyze_gamma :
  (analyze_repository_differences repo_gamma).1 =
  {| has_conflicts := true; github_ahead := []; gitea_ahead := [];
     diverged_branches := ["main"];
     new_branches := {| github := []; gitea := [] |};
     new_tags := {| github := []; gitea := [] |} |}.
Proof. vm_compute. reflexivity. Qed.

Example analyze_mixed :
  (analyze_repository_differences repo_mixed).1 =
  {| has_conflicts := true; github_ahead := ["dev"]; gitea_ahead := [];
     diverged_branches := ["main"];
     new_branches := {| github := []; gitea := ["docs"] |};
     new_tags := {| github := []; gitea := [] |} |}.
Proof. vm_compute. reflexivity. Qed.

Example analyze_beta :
  analyze_repository_differences repo_beta =
  ({| has_conflicts := false; github_ahead := ["dev"]; gitea_ahead := [];
      diverged_branches := [];
      new_branches := {| github := []; gitea := ["docs"] |};
      new_tags := {| github := []; gitea := [] |} |},
   [compare_warning "wip"]).
Proof. vm_compute. reflexivity. Qed.

Example resolve_beta :
  resolve (sample_settings manual true) repo_beta
    (analyze_repository_differences repo_beta).1 [] =
  ([PushRef "origin" "gitea/docs" "docs" false;
    PushRef "gitea" "origin/dev" "dev" false;
    PushTags "gitea"; PushGlob "origin" "gitea/*:refs/tags/*"],
   Return {| action := "synced";
             details := ["pushed_to_github: docs"; "synced_to_gitea: dev";
                         "synced_tags"];
             origin := None |}).
Proof. vm_compute. reflexivity. Qed.

(** ** Claims about analysis and resolution *)

Lemma simple_plan_ref st d remote src b force :
  PushRef remote src b force ∈ simple_plan st d ->
  force = false /\
  ((remote = "gitea" /\ src = github_ref b /\
      (b ∈ github (new_branches d) \/ b ∈ github_ahead d)) \/
   (remote = "origin" /\ src = gitea_ref b /\
      (b ∈ gitea (new_branches d) \/ b ∈ gitea_ahead d))).
Proof.
  unfold simple_plan, push_to_gitea, push_to_github.
  rewrite !elem_of_app, !list_elem_of_fmap.
  intros [(x & E & Hx)|[(x & E & Hx)|[(x & E & Hx)|[(x & E & Hx)|H]]]];
    try (inversion E; subst; tauto).
  destruct (sync_tags st).
  - apply elem_of_cons in H as [H|H]; [discriminate|].
    apply elem_of_cons in H as [H|H]; [discriminate|].
    by apply elem_of_nil in H.
  - by apply elem_of_nil in H.
Qed.

Lemma conflict_plan_ref st d remote src b force :
  PushRef remote src b force ∈ conflict_plan st d ->
  force = true /\ b ∈ diverged_branches d /\
  ((conflict_resolution st = github_wins /\ remote = "gitea" /\ src = github_ref b) \/
   (conflict_resolution st = gitea_wins /\ remote = "origin" /\ src = gitea_ref b)).
Proof.
  unfold conflict_plan, push_to_gitea, push_to_github.
  destruct (conflict_resolution st); rewrite ?list_elem_of_fmap.
  - intros (x & E & Hx). inversion E; subst. tauto.
  - intros (x & E & Hx). inversion E; subst. tauto.
  - by intros ?%elem_of_nil.
Qed.

Lemma plan_ref st d remote src b force :
  PushRef remote src b force ∈ plan st d ->
  b ∈ github (new_branches d) \/ b ∈ gitea (new_branches d) \/
  b ∈ github_ahead d \/ b ∈ gitea_ahead d \/ b ∈ diverged_branches d.
Proof.
  unfold plan. destruct (has_conflicts d); simpl.
  - intros H%conflict_plan_ref. tauto.
  - intros H%simple_plan_ref. tauto.
Qed.

Lemma classify_synced repo b h :
  github_ref b ∈ refs repo -> gitea_ref b ∈ refs repo ->
  commit repo (github_ref b) = Some h -> commit repo (gitea_ref b) = Some h ->
  classify repo b = Synced.
Proof.
  intros H1 H2 H3 H4. unfold classify.
  rewrite !bool_decide_eq_true_2, H3, H4 by assumption.
  rewrite bool_decide_eq_false_2; [reflexivity|]. intros H. by apply H.
Qed.

(** C7. A branch that is a ref of both remotes with the same commit
    identifier on both enters no list of the report (not ahead on either
    side, not new on either side, not diverged), and whatever the policy
    and whatever is rejected, resolution pushes no ref onto that branch:
    every push onto it in the trace was there before. *)
Theorem identical_branch_no_action (st : Settings) (repo : Repo) (b : string)
    (h : hexsha) (t0 : list GitPush) :
  github_ref b ∈ refs repo -> gitea_ref b ∈ refs repo ->
  commit repo (github_ref b) = Some h -> commit repo (gitea_ref b) = Some h ->
  let d := (analyze_repository_differences repo).1 in
  ((b ∉ github_ahead d) /\ (b ∉ gitea_ahead d) /\ (b ∉ diverged_branches d) /\
   (b ∉ github (new_branches d)) /\ (b ∉ gitea (new_branches d))) /\
  forall remote src force,
    PushRef remote src b force ∈ (resolve st repo d t0).1 ->
    PushRef remote src b force ∈ t0.
Proof.
  intros H1 H2 H3 H4 d.
  pose proof (classify_synced repo b h H1 H2 H3 H4) as Hs.
  assert (Hno : forall c, b ∉ class_list c d).
  { intros c Hc. apply analyze_class_elem in Hc as (Hl & _ & Hc).
    rewrite Hs in Hc. subst c. discriminate. }
  split.
  - pose proof (Hno GithubAhead). pose proof (Hno GiteaAhead).
    pose proof (Hno Diverged). pose proof (Hno OnlyGithub).
    pose proof (Hno OnlyGitea). tauto.
  - intros remote src force. rewrite resolve_trace, elem_of_app.
    intros [H|H]; [exact H|].
    apply accepted_elem, plan_ref in H.
    pose proof (Hno GithubAhead). pose proof (Hno GiteaAhead).
    pose proof (Hno Diverged). pose proof (Hno OnlyGithub).
    pose proof (Hno OnlyGitea). simpl in *. tauto.
Qed.

Lemma identical_branch_no_action_witness :
  let d := (analyze_repository_differences repo_beta).1 in
  (("main" ∉ github_ahead d) /\ ("main" ∉ gitea_ahead d) /\
   ("main" ∉ diverged_branches d) /\
   ("main" ∉ github (new_branches d)) /\ ("main" ∉ gitea (new_branches d))) /\
  forall remote src force,
    PushRef remote src "main" force
      ∈ (resolve (sample_settings manual true) repo_beta d []).1 ->
    PushRef remote src "main" force ∈ [].
Proof.
  apply (identical_branch_no_action (sample_settings manual true) repo_beta
           "main" "X" []).
  - apply (bool_decide_unpack _). vm_compute. exact I.
  - apply (bool_decide_unpack _). vm_compute. exact I.
  - reflexivity.
  - reflexivity.
Defined.

Lemma compare_raises_broken repo d b :
  github_ref b ∈ refs repo -> gitea_ref b ∈ refs repo ->
  compare_branch repo d b = None -> classify repo b = Broken.
Proof.
  intros H1 H2. unfold classify, compare_branch.
  rewrite !bool_decide_eq_true_2 by assumption.
  destruct (commit repo (github_ref b)); simpl; [|reflexivity].
  destruct (commit repo (gitea_ref b)); simpl; [|reflexivity].
  destruct (bool_decide _); [|discriminate].
  destruct (iter_commits repo (gitea_ref b) (github_ref b)); simpl; [|reflexivity].
  destruct (iter_commits repo (github_ref b) (gitea_ref b)); simpl; [|reflexivity].
  discriminate.
Qed.

Lemma analyze_branch_broken repo acc b :
  classify repo b = Broken -> (analyze_branch repo acc b).1 = acc.1.
Proof.
  unfold analyze_branch, classify, compare_branch.
  repeat (case_match; simplify_option_eq; simpl; try reflexivity; try congruence).
Qed.

Lemma analyze_branch_report repo acc acc' x :
  acc.1 = acc'.1 -> (analyze_branch repo acc x).1 = (analyze_branch repo acc' x).1.
Proof.
  destruct acc as [d l], acc' as [d' l']; simpl. intros ->.
  unfold analyze_branch; simpl.
  repeat (case_match; simpl; try reflexivity).
Qed.

Lemma analyze_fold_skip repo b bs : forall acc acc',
  classify repo b = Broken -> acc.1 = acc'.1 ->
  (fold_left (analyze_branch repo) bs acc).1 =
  (fold_left (analyze_branch repo) (filter (λ x, x ≠ b) bs) acc').1.
Proof.
  induction bs as [|x bs IH]; intros acc acc' Hb E; simpl; [exact E|].
  rewrite filter_cons. case_decide as Hx; simpl.
  - apply IH; [exact Hb|]. apply analyze_branch_report, E.
  - subst x. apply IH; [exact Hb|].
    rewrite analyze_branch_broken by exact Hb. exact E.
Qed.

(** C8. When the comparison of a branch raises (a ref of it does not
    resolve, or a revision walk fails), the analyser still returns a
    report: it logs one warning naming the branch and the branch enters
    no list of the report.  The remaining branches are classified as if
    nothing had happened: each of them is in the list that its own refs
    and commits decide ([classify]: new on GitHub, new on Gitea, ahead on
    GitHub, ahead on Gitea, diverged) and in no other, and the report is
    the one obtained from the remaining branches alone. *)
Theorem broken_branch_excluded (repo : Repo) (b : string) :
  b ∈ all_branches repo ->
  github_ref b ∈ refs repo -> gitea_ref b ∈ refs repo ->
  compare_branch repo differences0 b = None ->
  let a := analyze_repository_differences repo in
  compare_warning b ∈ a.2 /\
  ((b ∉ github_ahead a.1) /\ (b ∉ gitea_ahead a.1) /\
   (b ∉ diverged_branches a.1) /\
   (b ∉ github (new_branches a.1)) /\ (b ∉ gitea (new_branches a.1))) /\
  (forall b' c, b' ∈ all_branches repo -> b' <> b -> listed c = true ->
     (b' ∈ class_list c a.1 <-> classify repo b' = c)) /\
  a.1 = (fold_left (analyze_branch repo)
           (filter (λ x, x ≠ b) (all_branches repo)) (differences0, [])).1.
Proof.
  intros Hin H1 H2 Hc a.
  pose proof (compare_raises_broken repo _ b H1 H2 Hc) as Hb.
  assert (Hno : forall c, b ∉ class_list c a.1).
  { intros c Hx. apply analyze_class_elem in Hx as (Hl & _ & Hx).
    rewrite Hb in Hx. subst c. discriminate. }
  split; [|split; [|split]].
  - subst a. unfold analyze_repository_differences.
    rewrite analyze_fold_log. simpl.
    apply list_elem_of_fmap. exists b. split; [reflexivity|].
    apply list_elem_of_filter. auto.
  - pose proof (Hno GithubAhead). pose proof (Hno GiteaAhead).
    pose proof (Hno Diverged). pose proof (Hno OnlyGithub).
    pose proof (Hno OnlyGitea). tauto.
  - intros b' c Hb' _ Hl. subst a. rewrite analyze_class_elem. tauto.
  - apply analyze_fold_skip; [exact Hb|reflexivity].
Qed.

Lemma broken_branch_excluded_witness :
  let a := analyze_repository_differences repo_beta in
  compare_warning "wip" ∈ a.2 /\
  (("wip" ∉ github_ahead a.1) /\ ("wip" ∉ gitea_ahead a.1) /\
   ("wip" ∉ diverged_branches a.1) /\
   ("wip" ∉ github (new_branches a.1)) /\ ("wip" ∉ gitea (new_branches a.1))) /\
  (forall b' c, b' ∈ all_branches repo_beta -> b' <> "wip" -> listed c = true ->
     (b' ∈ class_list c a.1 <-> classify repo_beta b' = c)) /\
  a.1 = (fold_left (analyze_branch repo_beta)
           (filter (λ x, x ≠ "wip") (all_branches repo_beta)) (differences0, [])).1.
Proof.
  apply (broken_branch_excluded repo_beta "wip").
  - apply (bool_decide_unpack _). vm_compute. exact I.
  - apply (bool_decide_unpack _). vm_compute. exact I.
  - apply (bool_decide_unpack _). vm_compute. exact I.
  - reflexivity.
Defined.



(** A branch with a ref on GitHub whose name contains no further
    ["origin/"] is one of the names the analyser iterates over. *)
Lemma github_branch_enumerated (repo : Repo) (b : string) :
  github_ref b ∈ refs repo -> str_remove "origin/" b = b ->
  b ∈ all_branches repo.
Proof.
  intros Hin Hb. unfold all_branches, github_branches.
  apply elem_of_remove_dups, elem_of_app. left.
  apply list_elem_of_fmap. exists (github_ref b). split.
  - transitivity (str_remove "origin/" b); [symmetry; exact Hb|].
    destruct b; vm_compute; reflexivity.
  - apply list_elem_of_filter. split; [|exact Hin].
    destruct b; vm_compute; reflexivity.
Qed.





Example resolve_mixed_github_wins :
  resolve (sample_settings github_wins true) repo_mixed
    (analyze_repository_differences repo_mixed).1 [] =
  ([PushRef "gitea" "origin/main" "main" true],
   Return {| action := "conflict_resolved"; details := ["github_wins: main"];
             origin := None |}).
Proof. vm_compute. reflexivity. Qed.

Example resolve_gamma_manual :
  resolve (sample_settings manual true) repo_gamma
    (analyze_repository_differences repo_gamma).1 [] =
  ([], Raise (SyncConflictError ["main"])).
Proof. vm_compute. reflexivity. Qed.

Lemma ahead_push_planned st d c b :
  one_sided c = true -> b ∈ class_list c d -> ahead_push c b ∈ simple_plan st d.
Proof.
  intros Hc Hb. unfold simple_plan. rewrite !elem_of_app, !list_elem_of_fmap.
  destruct c; try discriminate; simpl in *; eauto 10.
Qed.

(** C3 as stated fails: [dev] is ahead on GitHub, every push would be
    accepted, yet with [main] diverged and policy [github_wins] the only
    push is the forced one of [main]. *)
Lemma one_sided_branch_push_counterexample :
  let d := (analyze_repository_differences repo_mixed).1 in
  "dev" ∈ github_ahead d /\
  (forall cmd, push_rejected repo_mixed cmd = false) /\
  (PushRef "gitea" "origin/dev" "dev" false
     ∉ (resolve (sample_settings github_wins true) repo_mixed d []).1).
Proof.
  split; [|split].
  - apply (bool_decide_unpack _). vm_compute. exact I.
  - reflexivity.
  - apply (bool_decide_unpack _). vm_compute. exact I.
Qed.

(** C3, amended.  For a branch listed as new on one side or ahead on one
    side: resolution never pushes onto it anything but the non-forced
    push of the ahead side's ref to the other remote, under every policy;
    when no branch of the repository is diverged and the remotes accept
    the pushes, that push is issued, whatever the policy; when some
    branch is diverged, nothing is pushed onto it. *)
Theorem one_sided_branch_push (st : Settings) (repo : Repo) (c : branch_class)
    (b : string) (t0 : list GitPush) :
  let d := (analyze_repository_differences repo).1 in
  let tr := (resolve st repo d t0).1 in
  one_sided c = true -> b ∈ class_list c d ->
  (has_conflicts d = false -> all_accepted repo (simple_plan st d) = true ->
   ahead_push c b ∈ tr) /\
  (has_conflicts d = true ->
   forall remote src force,
     PushRef remote src b force ∈ tr -> PushRef remote src b force ∈ t0) /\
  (forall remote src force,
     PushRef remote src b force ∈ tr ->
     PushRef remote src b force ∈ t0 \/ PushRef remote src b force = ahead_push c b).
Proof.
  intros d tr Hc Hb.
  assert (Hcls : classify repo b = c).
  { apply analyze_class_elem in Hb. tauto. }
  assert (Hother : forall c', b ∈ class_list c' d -> c' = c).
  { intros c' Hx. apply analyze_class_elem in Hx. destruct Hx as (_ & _ & <-).
    exact Hcls. }
  assert (Hnd : b ∉ diverged_branches d).
  { intros Hx. apply (Hother Diverged) in Hx. rewrite <- Hx in Hc. discriminate. }
  subst tr. split; [|split].
  - intros Hh Hok. rewrite resolve_trace. unfold plan. rewrite Hh. simpl.
    rewrite accepted_all by exact Hok.
    apply elem_of_app. right. apply ahead_push_planned; assumption.
  - intros Hh remote src force. rewrite resolve_trace, elem_of_app.
    intros [H|H]; [exact H|]. apply accepted_elem in H.
    unfold plan in H. rewrite Hh in H. simpl in H.
    apply conflict_plan_ref in H. tauto.
  - intros remote src force. rewrite resolve_trace, elem_of_app.
    intros [H|H]; [left; exact H|right]. apply accepted_elem in H.
    unfold plan in H. destruct (has_conflicts d); simpl in H.
    + apply conflict_plan_ref in H. tauto.
    + apply simple_plan_ref in H.
      destruct H as [Hf [(Hr & Hs & [Hx|Hx])|(Hr & Hs & [Hx|Hx])]];
        subst force remote src.
      * apply (Hother OnlyGithub) in Hx. rewrite <- Hx. reflexivity.
      * apply (Hother GithubAhead) in Hx. rewrite <- Hx. reflexivity.
      * apply (Hother OnlyGitea) in Hx. rewrite <- Hx. reflexivity.
      * apply (Hother GiteaAhead) in Hx. rewrite <- Hx. reflexivity.
Qed.

Lemma one_sided_branch_push_witness :
  let d := (analyze_repository_differences repo_beta).1 in
  let tr := (resolve (sample_settings manual true) repo_beta d []).1 in
  (has_conflicts d = false ->
   all_accepted repo_beta (simple_plan (sample_settings manual true) d) = true ->
   PushRef "gitea" "origin/dev" "dev" false ∈ tr) /\
  (has_conflicts d = true ->
   forall remote src force,
     PushRef remote src "dev" force ∈ tr -> PushRef remote src "dev" force ∈ []) /\
  (forall remote src force,
     PushRef remote src "dev" force ∈ tr ->
     PushRef remote src "dev" force ∈ [] \/
     PushRef remote src "dev" force = PushRef "gitea" "origin/dev" "dev" false).
Proof.
  apply (one_sided_branch_push (sample_settings manual true) repo_beta
           GithubAhead "dev" []).
  - reflexivity.
  - apply (bool_decide_unpack _). vm_compute. exact I.
Defined.

(** C9 as stated fails: tag [v1] is on GitHub only, and the report lists
    no tag on either side. *)
Lemma tags_compared_counterexample :
  let d := (analyze_repository_differences repo_beta).1 in
  "v1" ∈ map fst (remote_tags repo_beta "origin") /\
  ("v1" ∉ map fst (remote_tags repo_beta "gitea")) /\
  ("v1" ∉ github (new_tags d)) /\ ("v1" ∉ gitea (new_tags d)).
Proof.
  repeat split; apply (bool_decide_unpack _); vm_compute; exact I.
Qed.

Lemma plan_tags st d cmd :
  cmd ∈ plan st d ->
  (exists remote src dst force, cmd = PushRef remote src dst force) \/
  (has_conflicts d = false /\ sync_tags st = true /\
   (cmd = PushTags "gitea" \/ cmd = PushGlob "origin" "gitea/*:refs/tags/*")).
Proof.
  unfold plan. destruct (has_conflicts d); simpl.
  - unfold conflict_plan, push_to_gitea, push_to_github.
    destruct (conflict_resolution st); rewrite ?list_elem_of_fmap.
    + intros (x & -> & _). left. eauto.
    + intros (x & -> & _). left. eauto.
    + by intros ?%elem_of_nil.
  - unfold simple_plan, push_to_gitea, push_to_github.
    rewrite !elem_of_app, !list_elem_of_fmap.
    intros [(x & -> & _)|[(x & -> & _)|[(x & -> & _)|[(x & -> & _)|H]]]];
      try (left; eauto; fail).
    destruct (sync_tags st); [|by apply elem_of_nil in H].
    right. split; [reflexivity|]. split; [reflexivity|].
    apply elem_of_cons in H as [H|H]; [auto|].
    apply elem_of_cons in H as [H|H]; [auto|]. by apply elem_of_nil in H.
Qed.

(** ** The status store *)

Lemma commit_row_frame key old new w :
  sync_logs (commit_row key old new w) = sync_logs w /\
  sync_conflicts (commit_row key old new w) = sync_conflicts w /\
  pushed (commit_row key old new w) = pushed w /\
  created (commit_row key old new w) = created w /\
  logger (commit_row key old new w) = logger w /\
  healthy (commit_row key old new w) = healthy w.
Proof. unfold commit_row. case_decide; simpl; auto 10. Qed.

Lemma commit_row_other key old new w k :
  k <> key -> repositories (commit_row key old new w) !! k = repositories w !! k.
Proof.
  intros Hk. unfold commit_row. case_decide; simpl; [reflexivity|].
  apply lookup_insert_ne. congruence.
Qed.

(** After the commit the row holds the assigned columns; [updated_at] is
    either untouched (nothing changed) or the time of the commit. *)
Lemma commit_row_lookup key old new w :
  repositories w !! key = Some old -> updated_at new = updated_at old ->
  exists r, repositories (commit_row key old new w) !! key = Some r /\
    id r = id new /\ name r = name new /\ github_url r = github_url new /\
    gitea_url r = gitea_url new /\ sync_status r = sync_status new /\
    last_sync r = last_sync new /\ conflict_count r = conflict_count new /\
    created_at r = created_at new /\ config r = config new /\
    (new = old /\ updated_at r = updated_at old \/
     new <> old /\ updated_at r = clock w).
Proof.
  intros Hold Hu. unfold commit_row. case_decide as E; simpl.
  - subst new. exists old. split; [exact Hold|]. auto 15.
  - eexists. split; [apply lookup_insert_eq|]. simpl. auto 15.
Qed.

Lemma update_repo_status_frame repo_name status w :
  sync_logs (update_repo_status repo_name status w) = sync_logs w /\
  sync_conflicts (update_repo_status repo_name status w) = sync_conflicts w /\
  pushed (update_repo_status repo_name status w) = pushed w /\
  created (update_repo_status repo_name status w) = created w /\
  logger (update_repo_status repo_name status w) = logger w /\
  healthy (update_repo_status repo_name status w) = healthy w.
Proof.
  unfold update_repo_status.
  destruct (repositories w !! repo_name); [|auto 10].
  repeat case_decide;
    match goal with
    | |- context [commit_row ?k ?o ?n ?x] =>
        pose proof (commit_row_frame k o n x) as Hf; simpl in Hf
    end; exact Hf.
Qed.

Lemma update_repo_status_other repo_name status w k :
  k <> repo_name ->
  repositories (update_repo_status repo_name status w) !! k = repositories w !! k.
Proof.
  intros Hk. unfold update_repo_status.
  destruct (repositories w !! repo_name); [|reflexivity].
  repeat case_decide; rewrite commit_row_other by exact Hk; reflexivity.
Qed.

Lemma update_repo_status_missing repo_name status w :
  repositories w !! repo_name = None -> update_repo_status repo_name status w = w.
Proof. intros H. unfold update_repo_status. rewrite H. reflexivity. Qed.

Lemma update_repo_status_row repo_name status w r :
  repositories w !! repo_name = Some r ->
  exists r',
    repositories (update_repo_status repo_name status w) !! repo_name = Some r' /\
    sync_status r' = status /\
    last_sync r' = (if decide (status = "synced") then Some (clock w) else last_sync r) /\
    conflict_count r' = (if decide (status = "conflict") then conflict_count r + 1
                         else conflict_count r) /\
    id r' = id r /\ name r' = name r /\ github_url r' = github_url r /\
    gitea_url r' = gitea_url r /\ config r' = config r /\
    created_at r' = created_at r /\
    (updated_at r' = updated_at r \/ clock w <= updated_at r').
Proof.
  intros Hr. unfold update_repo_status. rewrite Hr.
  destruct (decide (status = "synced")) as [E1|E1];
    destruct (decide (status = "conflict")) as [E2|E2];
    try (subst status; discriminate E2);
    match goal with
    | |- context [commit_row ?k ?o ?n ?x] =>
        destruct (commit_row_lookup k o n x) as (r' & Hl & Hf);
          [exact Hr|reflexivity|]
    end; simpl in Hf; exists r';
    destruct Hf as (Hid&Hn&Hgh&Hgt&Hst&Hls&Hcc&Hca&Hcf&Hu);
    (split; [exact Hl|]);
    repeat (split; [first [assumption | congruence]|]);
    (destruct Hu as [[_ Hu]|[_ Hu]]; [left; exact Hu|right; rewrite Hu; lia]).
Qed.

Example update_gamma_syncing :
  repositories (update_repo_status "gamma" "syncing" world_gamma) !! "gamma" =
  Some {| id := 1; name := "gamma";
          github_url := Some "https://github.com/octo/gamma.git";
          gitea_url := Some "https://gitea.example/octo/gamma.git";
          sync_status := "syncing"; last_sync := None; conflict_count := 0;
          created_at := 7; updated_at := 100; config := None |}.
Proof. vm_compute. reflexivity. Qed.

(** C10 as stated fails: the update to [syncing] of a [pending] row also
    changes its [updated_at] column (the [onupdate] of the model). *)
Lemma status_update_only_status_counterexample :
  exists r',
    repositories (update_repo_status "gamma" "syncing" world_gamma) !! "gamma"
      = Some r' /\
    repositories world_gamma !! "gamma" = Some row_gamma /\
    updated_at r' <> updated_at row_gamma.
Proof.
  eexists. split; [apply update_gamma_syncing|].
  split; [reflexivity|]. simpl. discriminate.
Qed.

(** C10, amended.  A status update of a repository name changes, in the
    row of that name, the status, the last-sync time exactly when the new
    status is [synced] (it becomes the current time), the conflict
    counter exactly when the new status is [conflict] (it grows by one),
    and the automatically maintained [updated_at]; [id], [name], both
    URLs, [config] and [created_at] keep their values.  No other row and
    no other table changes, and when the name has no row the update
    changes nothing at all. *)
Theorem status_update_frame (repo_name status : string) (w : World) :
  let w' := update_repo_status repo_name status w in
  (sync_logs w' = sync_logs w /\ sync_conflicts w' = sync_conflicts w /\
   pushed w' = pushed w /\ created w' = created w) /\
  (forall k, k <> repo_name -> repositories w' !! k = repositories w !! k) /\
  match repositories w !! repo_name with
  | None => w' = w
  | Some r =>
      exists r',
        repositories w' !! repo_name = Some r' /\
        sync_status r' = status /\
        last_sync r' = (if decide (status = "synced") then Some (clock w)
                        else last_sync r) /\
        conflict_count r' = (if decide (status = "conflict")
                             then conflict_count r + 1 else conflict_count r) /\
        id r' = id r /\ name r' = name r /\ github_url r' = github_url r /\
        gitea_url r' = gitea_url r /\ config r' = config r /\
        created_at r' = created_at r
  end.
Proof.
  intros w'. subst w'. split; [|split].
  - pose proof (update_repo_status_frame repo_name status w). tauto.
  - intros k Hk. apply update_repo_status_other, Hk.
  - destruct (repositories w !! repo_name) as [r|] eqn:E.
    + destruct (update_repo_status_row repo_name status w r E)
        as (r' & H1 & H2 & H3 & H4 & H5 & H6 & H7 & H8 & H9 & H10 & _).
      exists r'. auto 15.
    + apply update_repo_status_missing, E.
Qed.

(** ** One repository sync *)

Lemma ensure_repository_record_new st repo_name gh gt w :
  repositories w !! repo_name = None ->
  exists r,
    repositories (ensure_repository_record st repo_name gh gt w) !! repo_name
      = Some r /\
    name r = repo_name /\ sync_status r = "pending" /\ conflict_count r = 0 /\
    last_sync r = None.
Proof.
  intros H. unfold ensure_repository_record. rewrite H. simpl.
  eexists. split; [apply lookup_insert_eq|]. simpl. auto.
Qed.

Lemma ensure_repository_record_old st repo_name gh gt w r :
  repositories w !! repo_name = Some r ->
  ensure_repository_record st repo_name gh gt w = w.
Proof. intros H. unfold ensure_repository_record. rewrite H. reflexivity. Qed.

Example first_sync_alpha_steps :
  let env := sample_env manual in
  let s1 := task_step env "alpha" "auto" Start world0 in
  let s2 := task_step env "alpha" "auto" s1.2 s1.1 in
  let s3 := task_step env "alpha" "auto" s2.2 s2.1 in
  s1.2 = AwaitGithub /\ s2.2 = AwaitGitea (Some (info "alpha")) /\
  (exists repo, s3.2 = AwaitCreate "gitea" repo) /\
  sync_status <$> repositories s3.1 !! "alpha" = Some "pending".
Proof. vm_compute. eauto 10. Qed.

(** C6 as stated fails: on the first sync of an unknown repository the
    first step leaves the table without a row of that name while the
    platforms are queried, and the row created after the queries has
    status [pending]. *)
Lemma first_step_syncing_counterexample :
  let env := sample_env manual in
  let s1 := task_step env "alpha" "auto" Start world0 in
  let s2 := task_step env "alpha" "auto" s1.2 s1.1 in
  let s3 := task_step env "alpha" "auto" s2.2 s2.1 in
  s1.2 = AwaitGithub /\ repositories s1.1 !! "alpha" = None /\
  repositories s2.1 !! "alpha" = None /\
  sync_status <$> repositories s3.1 !! "alpha" = Some "pending".
Proof. vm_compute. auto. Qed.

(** C6, amended.  The first step of [sync_repository] marks the row of
    the repository [syncing] when such a row exists, and then suspends on
    the first platform query.  When no row exists the first step leaves
    the table as it is; the query of GitHub does not touch it either, and
    the row is created once both queries have answered, with status
    [pending]. *)
Theorem first_step_marks_existing (env : Env) (repo_name source : string)
    (w : World) :
  let s := task_step env repo_name source Start w in
  s.2 = AwaitGithub /\
  match repositories w !! repo_name with
  | Some r =>
      exists r', repositories s.1 !! repo_name = Some r' /\
                 sync_status r' = "syncing"
  | None =>
      repositories s.1 = repositories w /\
      (forall github_repo,
         github_get_repository env repo_name = ApiOk github_repo ->
         task_step env repo_name source AwaitGithub s.1
         = (s.1, AwaitGitea github_repo)) /\
      (forall github_repo gitea_repo,
         exists r',
           repositories (ensure_repository_record (settings env) repo_name
                           github_repo gitea_repo s.1) !! repo_name = Some r' /\
           sync_status r' = "pending")
  end.
Proof.
  intros s. subst s. simpl. split; [reflexivity|].
  destruct (repositories w !! repo_name) as [r|] eqn:E.
  - destruct (update_repo_status_row repo_name "syncing"
                (log Info "Starting repository sync" repo_name w) r E)
      as (r' & H1 & H2 & _).
    exists r'. auto.
  - rewrite update_repo_status_missing by exact E. simpl.
    split; [reflexivity|]. split.
    + intros gh ->. reflexivity.
    + intros gh gt.
      destruct (ensure_repository_record_new (settings env) repo_name gh gt
                  (log Info "Starting repository sync" repo_name w) E)
        as (r' & H1 & _ & H2 & _).
      exists r'. auto.
Qed.

Example sync_gamma_manual :
  let s := sync_repository (sample_env manual) "gamma" "auto" world_gamma in
  s.2 = Done (Raise (SyncConflictError ["main"])) /\
  repositories s.1 !! "gamma" =
    Some {| id := 1; name := "gamma";
            github_url := Some "https://github.com/octo/gamma.git";
            gitea_url := Some "https://gitea.example/octo/gamma.git";
            sync_status := "conflict"; last_sync := None; conflict_count := 1;
            created_at := 7; updated_at := 101; config := None |} /\
  sync_logs s.1 =
    [{| log_repository_name := "gamma"; log_sync_status := "conflict";
        log_details := DetailsError (SyncConflictError ["main"]);
        log_timestamp := 102; log_source := None;
        log_duration_seconds := None; log_error_message := None |}] /\
  pushed s.1 = [] /\ sync_conflicts s.1 = [].
Proof. vm_compute. auto. Qed.

(** C1 as stated fails: after the sync of [gamma], whose [main] is
    diverged, under policy [manual], the table of conflicts is still
    empty. *)
Lemma manual_conflict_records_counterexample :
  let s := sync_repository (sample_env manual) "gamma" "auto" world_gamma in
  diverged_branches (analyze_repository_differences repo_gamma).1 = ["main"] /\
  s.2 = Done (Raise (SyncConflictError ["main"])) /\
  sync_conflicts s.1 = [].
Proof. vm_compute. auto. Qed.

Lemma finish_conflict repo_name bs w r :
  repositories w !! repo_name = Some r ->
  let s := finish repo_name (Raise (SyncConflictError bs)) w in
  s.2 = Done (Raise (SyncConflictError bs)) /\
  (exists r', repositories s.1 !! repo_name = Some r' /\
              sync_status r' = "conflict" /\
              conflict_count r' = conflict_count r + 1) /\
  (exists ts,
     sync_logs s.1 = sync_logs w ++
       [{| log_repository_name := repo_name; log_sync_status := "conflict";
           log_details := DetailsError (SyncConflictError bs);
           log_timestamp := ts; log_source := None;
           log_duration_seconds := None; log_error_message := None |}]) /\
  pushed s.1 = pushed w /\ created s.1 = created w /\
  sync_conflicts s.1 = sync_conflicts w.
Proof.
  intros Hr. simpl.
  destruct (update_repo_status_row repo_name "conflict" w r Hr)
    as (r' & H1 & H2 & _ & H4 & _).
  destruct (update_repo_status_frame repo_name "conflict" w)
    as (F1 & F2 & F3 & F4 & _).
  split; [reflexivity|]. split; [exists r'; auto|].
  rewrite F1, F2, F3, F4. split; [eauto|]. auto.
Qed.

Lemma ensure_repository_record_frame st repo_name gh gt w :
  sync_logs (ensure_repository_record st repo_name gh gt w) = sync_logs w /\
  sync_conflicts (ensure_repository_record st repo_name gh gt w) = sync_conflicts w /\
  pushed (ensure_repository_record st repo_name gh gt w) = pushed w /\
  created (ensure_repository_record st repo_name gh gt w) = created w /\
  logger (ensure_repository_record st repo_name gh gt w) = logger w /\
  healthy (ensure_repository_record st repo_name gh gt w) = healthy w.
Proof. unfold ensure_repository_record. case_match; simpl; auto 10. Qed.

(** What the first three steps of a sync of a repository present on both
    platforms leave untouched before [finish] runs. *)
Lemma before_finish_frame st repo_name gh gt t lg w :
  let w1 := update_repo_status repo_name "syncing"
              (log Info "Starting repository sync" repo_name w) in
  let w2 := ensure_repository_record st repo_name gh gt w1 in
  let w2' := log Info "Syncing existing repositories" repo_name w2 in
  let w3 := record_pushes repo_name t (with_logger (logger w2' ++ lg) w2') in
  sync_logs w3 = sync_logs w /\ sync_conflicts w3 = sync_conflicts w /\
  pushed w3 = pushed w ++ map (pair repo_name) t /\ created w3 = created w /\
  repositories w3 = repositories w2.
Proof.
  intros w1 w2 w2' w3.
  destruct (ensure_repository_record_frame st repo_name gh gt w1)
    as (E1 & E2 & E3 & E4 & _).
  destruct (update_repo_status_frame repo_name "syncing"
              (log Info "Starting repository sync" repo_name w))
    as (U1 & U2 & U3 & U4 & _).
  fold w1 in U1, U2, U3, U4. fold w2 in E1, E2, E3, E4.
  subst w3 w2'. unfold record_pushes, with_pushed, with_logger, log; cbn.
  rewrite E1, E2, E3, E4, U1, U2, U3, U4. auto.
Qed.

Lemma step_github_ok env repo_name source w github_repo :
  github_get_repository env repo_name = ApiOk github_repo ->
  task_step env repo_name source AwaitGithub w = (w, AwaitGitea github_repo).
Proof. intros H. simpl. rewrite H. reflexivity. Qed.

Lemma step_gitea_both env repo_name source w gh gt repo :
  gitea_get_repository env repo_name = ApiOk (Some gt) ->
  work_clone env repo_name = Some repo ->
  task_step env repo_name source (AwaitGitea (Some gh)) w =
  let w1 := ensure_repository_record (settings env) repo_name (Some gh) (Some gt) w in
  let w2 := log Info "Syncing existing repositories" repo_name w1 in
  let r := sync_existing (settings env) repo in
  finish repo_name r.1.2
    (record_pushes repo_name r.1.1 (with_logger (logger w2 ++ r.2) w2)).
Proof. intros H1 H2. simpl. rewrite H1, H2. reflexivity. Qed.

(** C1, amended.  When both platforms have the repository, the clone
    succeeds, analysis finds a diverged branch and the policy is
    [manual], [sync_repository] ends by raising the conflict error that
    names the diverged branches; the row of the repository has status
    [conflict] and its conflict counter is one more than before (one for
    a row created by this sync); exactly one log row, of status
    [conflict], is appended; no push and no repository creation happens.
    No conflict record is created: the table of conflicts is unchanged. *)
Theorem manual_conflict_outcome (env : Env) (repo_name source : string)
    (w : World) (gh gt : RepoInfo) (repo : Repo) :
  github_get_repository env repo_name = ApiOk (Some gh) ->
  gitea_get_repository env repo_name = ApiOk (Some gt) ->
  work_clone env repo_name = Some repo ->
  diverged_branches (analyze_repository_differences repo).1 <> [] ->
  conflict_resolution (settings env) = manual ->
  let d := (analyze_repository_differences repo).1 in
  let s := sync_repository env repo_name source w in
  s.2 = Done (Raise (SyncConflictError (diverged_branches d))) /\
  (exists r', repositories s.1 !! repo_name = Some r' /\
              sync_status r' = "conflict" /\
              conflict_count r' =
                match repositories w !! repo_name with
                | Some r => conflict_count r
                | None => 0
                end + 1) /\
  (exists ts,
     sync_logs s.1 = sync_logs w ++
       [{| log_repository_name := repo_name; log_sync_status := "conflict";
           log_details := DetailsError (SyncConflictError (diverged_branches d));
           log_timestamp := ts; log_source := None;
           log_duration_seconds := None; log_error_message := None |}]) /\
  pushed s.1 = pushed w /\ created s.1 = created w /\
  sync_conflicts s.1 = sync_conflicts w.
Proof.
  intros Hgh Hgt Hcl Hdiv Hman d s.
  assert (Hh : has_conflicts d = true).
  { subst d. rewrite analyze_has_conflicts.
    destruct (diverged_branches _); [congruence|reflexivity]. }
  assert (Hres : resolve (settings env) repo d [] =
                 ([], Raise (SyncConflictError (diverged_branches d)))).
  { unfold resolve. rewrite Hh. simpl. apply handle_conflicts_manual, Hman. }
  subst s. unfold sync_repository.
  set (w1 := update_repo_status repo_name "syncing"
               (log Info "Starting repository sync" repo_name w)).
  change (task_step env repo_name source Start w) with (w1, AwaitGithub).
  cbn [fst snd]. rewrite (step_github_ok _ _ _ _ _ Hgh). cbn [fst snd].
  rewrite (step_gitea_both _ _ _ _ _ _ _ Hgt Hcl). cbv zeta.
  unfold sync_existing. fold d. rewrite Hres. cbn [fst snd].
  set (w2 := ensure_repository_record (settings env) repo_name (Some gh) (Some gt) w1).
  set (w3 := record_pushes _ _ _).
  assert (Hrow : exists r, repositories w3 !! repo_name = Some r /\
            conflict_count r = match repositories w !! repo_name with
                               | Some r => conflict_count r | None => 0 end).
  { subst w3. simpl. destruct (repositories w !! repo_name) as [r|] eqn:E.
    - destruct (update_repo_status_row repo_name "syncing"
                  (log Info "Starting repository sync" repo_name w) r E)
        as (r' & H1 & _ & _ & H4 & _).
      fold w1 in H1. subst w2.
      rewrite (ensure_repository_record_old _ _ _ _ _ r') by exact H1.
      exists r'. split; [exact H1|].
      rewrite H4. rewrite decide_False by discriminate. reflexivity.
    - assert (E1 : repositories w1 !! repo_name = None).
      { subst w1. rewrite update_repo_status_missing by exact E. exact E. }
      destruct (ensure_repository_record_new (settings env) repo_name
                  (Some gh) (Some gt) w1 E1) as (r' & H1 & _ & _ & H4 & _).
      exists r'. auto. }
  destruct Hrow as (r & Hr & Hcount).
  pose proof (finish_conflict repo_name (diverged_branches d) w3 r Hr) as F.
  cbv zeta in F. destruct F as (F1 & (r' & F2 & F3 & F4) & (ts & F5) & F6 & F7 & F8).
  set (f := finish repo_name _ w3) in *.
  assert (Hdone : task_step env repo_name source f.2 f.1 = f).
  { clearbody f. destruct f as [wf pf]. simpl in F1. subst pf. reflexivity. }
  rewrite Hdone.
  pose proof (before_finish_frame (settings env) repo_name (Some gh) (Some gt)
                [] (analyze_repository_differences repo).2 w) as B.
  cbv zeta in B. fold w1 in B. fold w2 in B. fold w3 in B.
  destruct B as (Hlogs & B2 & B3 & B4 & _). rewrite app_nil_r in B3.
  assert (Hp : pushed w3 = pushed w /\ created w3 = created w /\
               sync_conflicts w3 = sync_conflicts w) by auto.
  split; [exact F1|]. split; [exists r'; rewrite F4, Hcount; auto|].
  split; [exists ts; rewrite F5, Hlogs; reflexivity|].
  rewrite F6, F7, F8. tauto.
Qed.

Lemma manual_conflict_outcome_witness :
  let d := (analyze_repository_differences repo_gamma).1 in
  let s := sync_repository (sample_env manual) "gamma" "auto" world_gamma in
  s.2 = Done (Raise (SyncConflictError (diverged_branches d))) /\
  (exists r', repositories s.1 !! "gamma" = Some r' /\
              sync_status r' = "conflict" /\
              conflict_count r' =
                match repositories world_gamma !! "gamma" with
                | Some r => conflict_count r
                | None => 0
                end + 1) /\
  (exists ts,
     sync_logs s.1 = sync_logs world_gamma ++
       [{| log_repository_name := "gamma"; log_sync_status := "conflict";
           log_details := DetailsError (SyncConflictError (diverged_branches d));
           log_timestamp := ts; log_source := None;
           log_duration_seconds := None; log_error_message := None |}]) /\
  pushed s.1 = pushed world_gamma /\ created s.1 = created world_gamma /\
  sync_conflicts s.1 = sync_conflicts world_gamma.
Proof.
  apply (manual_conflict_outcome (sample_env manual) "gamma" "auto" world_gamma
           (info "gamma") (info "gamma") repo_gamma).
  - reflexivity.
  - reflexivity.
  - reflexivity.
  - vm_compute. discriminate.
  - reflexivity.
Defined.

(** ** Concurrent syncs *)

Lemma fleet_next_sound env wf wf' :
  fleet_next env wf = Some wf' -> fleet_step env wf wf'.
Proof.
  destruct wf as [w f]. unfold fleet_next. cbn [fst snd].
  destruct f as [o|n p| |gh|permits cs|r].
  - destruct o as [n|].
    + case_decide as E.
      * intros [= <-]. subst n. apply fs_start_all. auto.
      * intros [= <-].
        apply (fs_start_single env w n (task_step env n "auto" Start w)); auto.
    + intros [= <-]. apply fs_start_all. auto.
  - destruct p as [| |gh|pl rp|r]; try discriminate;
      (destruct (task_step env n "auto" _ w) as [w1 p1] eqn:E; cbn [fst snd];
       destruct p1 as [| |gh1|pl1 rp1|[res|e]]; intros [= <-];
       [ eapply (fs_single_next env w n _ (_, _)); [congruence|symmetry; exact E|simpl; congruence] ..
       | eapply (fs_single_return env w n _ (_, _)); [congruence|symmetry; exact E|reflexivity]
       | eapply (fs_single_raise env w n _ (_, _)); [congruence|symmetry; exact E|reflexivity] ]).
  - destruct (github_list_repositories env) eqn:E; intros [= <-].
    + apply fs_list_github. exact E.
    + apply fs_list_github_error. exact E.
  - destruct (gitea_list_repositories env) eqn:E.
    + case_decide as Hm; intros [= <-].
      * eapply fs_semaphore_error; eauto.
      * eapply fs_gather; eauto. lia.
    + intros [= <-]. apply fs_list_gitea_error. exact E.
  - destruct (list_find (ready permits) cs) as [[i c]|] eqn:E.
    + apply list_find_Some in E as (Hi & Hr & _). unfold ready in Hr.
      destruct (child_st c) as [|p|r] eqn:Ec; [| |contradiction].
      * intros [= <-].
        apply (fs_acquire env w permits cs i c
                 (task_step env (child_name c) "auto" Start w)); auto.
      * destruct (task_step env (child_name c) "auto" p w) as [w1 p1] eqn:Es;
          cbn [fst snd].
        destruct p1 as [| |gh1|pl1 rp1|r]; intros [= <-];
          [ eapply (fs_child_next env w permits cs i c p (_, _));
              [exact Hi|exact Ec|symmetry; exact Es|simpl; congruence] ..
          | eapply (fs_child_done env w permits cs i c p (_, _));
              [exact Hi|exact Ec|symmetry; exact Es|reflexivity] ].
    + destruct (forallb is_finished cs) eqn:Hf; [|discriminate].
      intros [= <-]. apply fs_gathered. exact Hf.
  - discriminate.
Qed.

Lemma fleet_run_sound env fuel : forall wf,
  rtc (fleet_step env) wf (fleet_run env fuel wf).
Proof.
  induction fuel as [|k IH]; intros wf; simpl; [reflexivity|].
  destruct (fleet_next env wf) as [wf'|] eqn:E; [|reflexivity].
  eapply rtc_l; [apply fleet_next_sound, E|apply IH].
Qed.

Example fleet_run_sample :
  let s := fleet_run (sample_env manual) 20 (world0, FStart None) in
  s.2 = FDone (Return PyNone) /\
  map (λ l, (log_repository_name l, log_sync_status l)) (sync_logs s.1) =
    [("alpha", "success"); ("beta", "success"); ("gamma", "conflict")] /\
  healthy s.1 = true.
Proof. vm_compute. auto. Qed.

Lemma finish_done repo_name r w : exists r', (finish repo_name r w).2 = Done r'.
Proof. destruct r as [a|[bs| | |]]; simpl; eauto. Qed.

Lemma task_step_measure env repo_name source p w :
  (forall r, p <> Done r) ->
  (pc_measure (task_step env repo_name source p w).2 < pc_measure p)%nat.
Proof.
  intros Hp.
  assert (Hfin : forall r w0, (0 < pc_measure p)%nat ->
            (pc_measure (finish repo_name r w0).2 < pc_measure p)%nat).
  { intros r w0 H. destruct (finish_done repo_name r w0) as [r' ->]. exact H. }
  destruct p as [| |gh|pl rp|r];
    [| | | |exfalso; eapply Hp; reflexivity];
    simpl; repeat case_match; simpl; try lia; try (apply Hfin; simpl; lia).
Qed.

Lemma task_step_in_flight env repo_name source p w :
  (forall r, (task_step env repo_name source p w).2 <> Done r) ->
  pc_in_flight (task_step env repo_name source p w).2 = true.
Proof.
  intros H. destruct (task_step env repo_name source p w).2 eqn:E;
    try reflexivity.
  - exfalso. revert E. destruct p; simpl; repeat case_match; simpl;
      try discriminate;
      match goal with
      | |- context [finish ?n ?r ?x] =>
          destruct (finish_done n r x) as [r' ->]; discriminate
      end.
  - exfalso. eapply H. reflexivity.
Qed.

Section Gather.
Variable env : Env.

Lemma set_child_names i s cs :
  map child_name (set_child i s cs) = map child_name cs.
Proof.
  unfold set_child. revert i. induction cs as [|c cs IH]; intros [|i]; simpl;
    try reflexivity. f_equal. apply IH.
Qed.

Lemma running_set_child cs : forall i c s,
  cs !! i = Some c ->
  (running (set_child i s cs) + (if is_running c then 1 else 0) =
   running cs + (match s with Running _ => 1 | _ => 0 end))%nat.
Proof.
  unfold running, set_child.
  induction cs as [|x cs IH]; intros [|i] c s H; simpl in *; try discriminate.
  - injection H as ->. destruct c as [n st]. rewrite !filter_cons.
    unfold is_running; simpl.
    destruct st, s; simpl; repeat case_decide; simpl; try congruence; lia.
  - specialize (IH i c s H). rewrite !filter_cons.
    case_decide; simpl; [f_equal|]; exact IH.
Qed.

Lemma measure_set_child cs : forall i c s,
  cs !! i = Some c ->
  (list_sum (map child_measure (set_child i s cs)) + child_measure c =
   list_sum (map child_measure cs)
   + child_measure {| child_name := child_name c; child_st := s |})%nat.
Proof.
  unfold set_child.
  induction cs as [|x cs IH]; intros [|i] c s H; simpl in *; try discriminate.
  - injection H as ->. lia.
  - specialize (IH i c s H). unfold alter in IH. lia.
Qed.

Lemma gate_set_child permits permits' cs i c s :
  gate_ok env permits cs -> cs !! i = Some c -> 0 <= permits' ->
  permits' + (match s with Running _ => 1 | _ => 0 end)
  = permits + (if is_running c then 1 else 0) ->
  gate_ok env permits' (set_child i s cs).
Proof.
  intros (Hnd & Hp & Hsum) Hi Hp' He.
  pose proof (running_set_child cs i c s Hi) as Hr.
  split; [rewrite set_child_names; exact Hnd|]. split; [exact Hp'|].
  destruct (is_running c), s; lia.
Qed.

Lemma measure_set_child_lt permits permits' cs i c s :
  cs !! i = Some c ->
  (child_measure {| child_name := child_name c; child_st := s |}
   < child_measure c)%nat ->
  (gather_measure (FGather permits' (set_child i s cs))
   < gather_measure (FGather permits cs))%nat.
Proof.
  intros Hi Hlt. pose proof (measure_set_child cs i c s Hi). simpl. lia.
Qed.

Lemma gather_step w permits cs w' f' :
  gate_ok env permits cs ->
  fleet_step env (w, FGather permits cs) (w', f') ->
  f' = FDone (Return PyNone) /\ forallb is_finished cs = true \/
  exists permits' cs',
    f' = FGather permits' cs' /\ gate_ok env permits' cs' /\
    map child_name cs' = map child_name cs /\
    (gather_measure f' < gather_measure (FGather permits cs))%nat.
Proof.
  intros Hg H. pose proof Hg as (_ & Hp & _).
  inversion H; subst; clear H;
    [right; do 2 eexists; (split; [reflexivity|]) ..|left; auto];
    match goal with
    | Hi : cs !! ?i = Some ?c, Hs : child_st ?c = ?st |- _ =>
        (split; [|split; [apply set_child_names|]]);
        [ eapply gate_set_child; [exact Hg|exact Hi| |];
          unfold is_running; rewrite ?Hs; lia
        | eapply measure_set_child_lt; [exact Hi|];
          unfold child_measure; rewrite ?Hs; simpl ]
    end.
  - lia.
  - apply ->Nat.succ_lt_mono. apply task_step_measure.
    intros r ->. simpl in *.
    match goal with Hn : forall r, _ <> Done r |- _ => eapply Hn; reflexivity end.
  - lia.
Qed.
End Gather.

Section FleetInvariant.
Variable env : Env.

Lemma gather_initial names :
  NoDup names -> 0 <= max_concurrent_syncs (settings env) ->
  gate_ok env (max_concurrent_syncs (settings env))
    (map (λ n, {| child_name := n; child_st := Waiting |}) names) /\
  map child_name (map (λ n, {| child_name := n; child_st := Waiting |}) names)
  = names.
Proof.
  intros Hnd Hm.
  assert (E : map child_name
                (map (λ n, {| child_name := n; child_st := Waiting |}) names)
              = names).
  { rewrite map_map. simpl. apply map_id. }
  split; [|exact E]. unfold gate_ok. rewrite E.
  split; [exact Hnd|]. split; [exact Hm|].
  assert (R : running (map (λ n, {| child_name := n; child_st := Waiting |}) names)
              = 0%nat).
  { clear. unfold running. induction names as [|n ns IH]; [reflexivity|].
    cbn [map]. rewrite filter_cons.
    destruct (decide _) as [Hd|Hd]; [discriminate Hd|exact IH]. }
  rewrite R. lia.
Qed.

Lemma discover_NoDup gh gt :
  NoDup (discover_repositories (settings env) gh gt).
Proof. apply NoDup_remove_dups. Qed.

Lemma fleet_inv_step f f' :
  fleet_inv env f -> fleet_moves env f f' -> fleet_inv env f'.
Proof.
  intros Hinv (w & w' & H).
  destruct f as [o|n p| |gh|permits cs|r].
  - inversion H; subst; simpl; auto.
  - inversion H; subst; simpl; auto.
    apply task_step_in_flight. assumption.
  - inversion H; subst; simpl; auto.
  - inversion H; subst; simpl; auto.
    apply gather_initial; [apply discover_NoDup|assumption].
  - destruct (gather_step env w permits cs w' f' Hinv H)
      as [[-> _]|(p' & cs' & -> & Hg & _)]; simpl; auto.
  - inversion H.
Qed.

Lemma fleet_inv_reach o f :
  rtc (fleet_moves env) (FStart o) f -> fleet_inv env f.
Proof.
  intros H.
  apply (rtc_ind_r (R:=fleet_moves env) (fleet_inv env) (FStart o));
    [exact I| |exact H].
  intros y z _ Hstep Hy. eapply fleet_inv_step; eauto.
Qed.

Lemma in_flight_running cs :
  (length (filter (λ c, child_in_flight c = true) cs) <= running cs)%nat.
Proof.
  unfold running. induction cs as [|c cs IH]; [reflexivity|].
  rewrite !filter_cons.
  assert (Himp : child_in_flight c = true -> is_running c = true).
  { unfold child_in_flight, is_running. destruct (child_st c); auto. }
  repeat case_decide; simpl; try lia. exfalso. auto.
Qed.
End FleetInvariant.

Example two_triggers :
  let env := sample_env manual in
  let jobs := [Direct "gamma" "github" Start; Direct "gamma" "gitea" Start] in
  let s1 := task_step env "gamma" "github" Start world_gamma in
  let s2 := task_step env "gamma" "gitea" Start s1.1 in
  s1.2 = AwaitGithub /\ s2.2 = AwaitGithub /\
  sync_status <$> repositories s2.1 !! "gamma" = Some "syncing".
Proof. vm_compute. auto. Qed.

(** C4 as stated fails: two webhook deliveries for [gamma] start two
    coroutines [sync_repository]; the event loop runs the first up to its
    first await, then the second, and both are in flight on the same
    repository, whose row is [syncing]. *)
Lemma one_sync_per_repository_counterexample :
  let env := sample_env manual in
  exists w' p1 p2,
    rtc (step env)
      (world_gamma, [Direct "gamma" "github" Start; Direct "gamma" "gitea" Start])
      (w', [Direct "gamma" "github" p1; Direct "gamma" "gitea" p2]) /\
    in_flight [Direct "gamma" "github" p1; Direct "gamma" "gitea" p2]
    = ["gamma"; "gamma"] /\
    sync_status <$> repositories w' !! "gamma" = Some "syncing".
Proof.
  intros env.
  set (s1 := task_step env "gamma" "github" Start world_gamma).
  set (s2 := task_step env "gamma" "gitea" Start s1.1).
  exists s2.1, s1.2, s2.2. split; [|split].
  - apply (rtc_l _ _ (s1.1, [Direct "gamma" "github" s1.2;
                             Direct "gamma" "gitea" Start])).
    + exact (step_direct env world_gamma
               [Direct "gamma" "github" Start; Direct "gamma" "gitea" Start]
               0%nat "gamma" "github" Start s1 eq_refl
               (λ r (H : Start = Done r), eq_ind Start (λ p, match p with Start => True | _ => False end) I _ H)
               eq_refl).
    + apply rtc_once.
      exact (step_direct env s1.1
               [Direct "gamma" "github" s1.2; Direct "gamma" "gitea" Start]
               1%nat "gamma" "gitea" Start s2 eq_refl
               (λ r (H : Start = Done r), eq_ind Start (λ p, match p with Start => True | _ => False end) I _ H)
               eq_refl).
  - reflexivity.
  - vm_compute. reflexivity.
Qed.

(** C4, amended.  Within one call of [sync_repositories], for a gate of
    size at least 1 and any schedule: no two syncs in flight carry the
    same repository name, and at most [max_concurrent_syncs] of them are
    in flight.  (Nothing keeps another call, or a webhook's own
    [sync_repository], from syncing the same repository meanwhile.) *)
Theorem gate_one_sync_per_name (env : Env) (o : option string) (f : fleet) :
  1 <= max_concurrent_syncs (settings env) ->
  rtc (fleet_moves env) (FStart o) f ->
  NoDup (fleet_in_flight f) /\
  Z.of_nat (length (fleet_in_flight f)) <= max_concurrent_syncs (settings env).
Proof.
  intros Hmax Hreach. pose proof (fleet_inv_reach env o f Hreach) as Hinv.
  destruct f as [o'|n p| |gh|permits cs|r]; simpl;
    try (split; [constructor|lia]).
  - destruct (pc_in_flight p); simpl.
    + split; [apply NoDup_singleton|lia].
    + split; [constructor|lia].
  - destruct Hinv as (Hnd & Hp & Hsum). split.
    + eapply sublist_NoDup; [exact Hnd|].
      apply fmap_sublist, sublist_filter.
    + rewrite length_map. pose proof (in_flight_running cs). lia.
Qed.

Lemma gate_one_sync_per_name_witness :
  let env := sample_env manual in
  let f := (fleet_run env 5 (world0, FStart None)).2 in
  NoDup (fleet_in_flight f) /\
  Z.of_nat (length (fleet_in_flight f)) <= max_concurrent_syncs (settings env).
Proof.
  apply (gate_one_sync_per_name (sample_env manual) None).
  - vm_compute. discriminate.
  - change (FStart None) with (world0, FStart None).2.
    apply (rtc_congruence (R:=fleet_step (sample_env manual)) snd);
      [|apply fleet_run_sound].
    intros [w f] [w' f'] H. exists w, w'. exact H.
Defined.

Section FleetIsolation.
Variable env : Env.
Variables gh gt : list RepoInfo.
Hypothesis Hgh : github_list_repositories env = ApiOk gh.
Hypothesis Hgt : gitea_list_repositories env = ApiOk gt.
Hypothesis Hmax : 1 <= max_concurrent_syncs (settings env).

Lemma gather_inv_step f f' :
  gather_inv env gh gt f -> fleet_moves env f f' -> gather_inv env gh gt f'.
Proof.
  intros Hinv (w & w' & H).
  destruct f as [o|n p| |g|permits cs|r]; simpl in Hinv.
  - inversion H; subst; simpl; auto.
    destruct Hinv as [?|?]; congruence.
  - contradiction.
  - inversion H; subst; simpl; congruence.
  - subst g. inversion H; subst; simpl; try congruence; try lia.
    assert (gitea_repos = gt) by congruence. subst gitea_repos.
    apply gather_initial; [apply discover_NoDup|lia].
  - destruct Hinv as [Hg Hn].
    destruct (gather_step env w permits cs w' f' Hg H)
      as [[-> _]|(p' & cs' & -> & Hg' & Hn' & _)]; simpl; auto.
    split; [exact Hg'|congruence].
  - inversion H.
Qed.

Lemma gather_inv_reach f :
  rtc (fleet_moves env) (FStart None) f -> gather_inv env gh gt f.
Proof.
  intros H.
  apply (rtc_ind_r (R:=fleet_moves env) (gather_inv env gh gt) (FStart None));
    [left; reflexivity| |exact H].
  intros y z _ Hstep Hy. eapply gather_inv_step; eauto.
Qed.

Lemma none_ready_none_running permits cs :
  Forall (λ c, ~ ready permits c) cs -> running cs = 0%nat.
Proof.
  unfold running. induction 1 as [|c cs Hc _ IH]; [reflexivity|].
  rewrite filter_cons. destruct (decide _) as [Hd|Hd]; [|exact IH].
  exfalso. apply Hc. unfold ready. unfold is_running in Hd.
  destruct (child_st c); try discriminate. exact I.
Qed.

Lemma none_ready_all_finished permits cs :
  gate_ok env permits cs ->
  Forall (λ c, ~ ready permits c) cs -> forallb is_finished cs = true.
Proof.
  intros (_ & Hp & Hsum) Hall.
  rewrite (none_ready_none_running permits cs Hall) in Hsum.
  apply forallb_forall. intros c Hc.
  rewrite Forall_forall in Hall. apply list_elem_of_In in Hc.
  specialize (Hall c Hc). unfold ready in Hall. unfold is_finished.
  destruct (child_st c); [|exfalso; apply Hall; exact I|reflexivity].
  exfalso. apply Hall. lia.
Qed.

Lemma gather_progress f w :
  gather_inv env gh gt f ->
  (exists r, f = FDone r) \/ exists wf', fleet_next env (w, f) = Some wf'.
Proof.
  intros Hinv. destruct f as [o|n p| |g|permits cs|r]; simpl in Hinv.
  - right. unfold fleet_next. cbn [fst snd].
    destruct Hinv as [->| ->]; [eauto|].
    rewrite decide_True by reflexivity. eauto.
  - contradiction.
  - right. unfold fleet_next. cbn [fst snd]. rewrite Hgh. eauto.
  - right. unfold fleet_next. cbn [fst snd]. rewrite Hgt.
    rewrite decide_False by lia. eauto.
  - right. destruct Hinv as [Hg _]. unfold fleet_next. cbn [fst snd].
    destruct (list_find (ready permits) cs) as [[i c]|] eqn:E.
    + apply list_find_Some in E as (_ & Hr & _). unfold ready in Hr.
      destruct (child_st c); [eauto| |contradiction].
      destruct (task_step env (child_name c) "auto" p w).2; eauto.
    + apply list_find_None in E.
      rewrite (none_ready_all_finished permits cs Hg E). eauto.
  - left. eauto.
Qed.
End FleetIsolation.

(** C5 as stated fails: the sync of the sample fleet of three
    repositories, one of which ends in a conflict, runs to completion and
    hands [None] to its caller, not a result for each repository. *)
Lemma fleet_results_counterexample :
  let env := sample_env manual in
  exists w',
    rtc (fleet_step env) (world0, FStart None) (w', FDone (Return PyNone)) /\
    map (λ l, (log_repository_name l, log_sync_status l)) (sync_logs w') =
      [("alpha", "success"); ("beta", "success"); ("gamma", "conflict")] /\
    forall rs, Return PyNone <> Return (PyResults rs).
Proof.
  intros env.
  pose proof (fleet_run_sound env 20 (world0, FStart None)) as Hrun.
  pose proof fleet_run_sample as (E1 & E2 & _). fold env in E1, E2.
  destruct (fleet_run env 20 (world0, FStart None)) as [w' f'].
  simpl in E1, E2. subst f'. exists w'.
  split; [exact Hrun|]. split; [exact E2|]. discriminate.
Qed.

(** C5, amended.  When both listings succeed and the gate has size at
    least 1, a sync of the whole fleet, under any schedule: dispatches one
    task for each discovered repository and keeps all of them until the
    end; can always move on until it is done, whatever state the store is
    in, so that a failed repository blocks no other; finishes the gather
    only when every task has finished, its measure decreasing with every
    move, so that every schedule ends; and ends by returning [None]: no
    exception of a repository sync reaches the caller, and the results are
    not returned (they are in the log table and in the status rows). *)
Theorem fleet_sync_isolation (env : Env) (gh gt : list RepoInfo) (f : fleet) :
  github_list_repositories env = ApiOk gh ->
  gitea_list_repositories env = ApiOk gt ->
  1 <= max_concurrent_syncs (settings env) ->
  rtc (fleet_moves env) (FStart None) f ->
  (forall r, f = FDone r -> r = Return PyNone) /\
  (forall permits cs,
     f = FGather permits cs ->
     map child_name cs = discover_repositories (settings env) gh gt) /\
  (forall w, (exists r, f = FDone r) \/
             exists w' f', fleet_step env (w, f) (w', f')) /\
  (forall permits cs w w' f',
     f = FGather permits cs -> fleet_step env (w, f) (w', f') ->
     (gather_measure f' < gather_measure f)%nat /\
     (forall r, f' = FDone r ->
                r = Return PyNone /\ forallb is_finished cs = true)).
Proof.
  intros Hgh Hgt Hmax Hreach.
  pose proof (gather_inv_reach env gh gt Hgh Hgt Hmax f Hreach) as Hinv.
  split; [|split; [|split]].
  - intros r ->. exact Hinv.
  - intros permits cs ->. apply Hinv.
  - intros w.
    destruct (gather_progress env gh gt Hgh Hgt Hmax f w Hinv)
      as [?|[[w' f'] Hn]]; [left; assumption|right].
    exists w', f'. apply fleet_next_sound, Hn.
  - intros permits cs w w' f' -> Hstep. destruct Hinv as [Hg _].
    destruct (gather_step env w permits cs w' f' Hg Hstep)
      as [[-> Hfin]|(p' & cs' & -> & _ & _ & Hlt)].
    + split; [simpl; lia|]. intros r [= <-]. auto.
    + split; [exact Hlt|]. intros r. discriminate.
Qed.

Lemma fleet_sync_isolation_witness :
  let env := sample_env manual in
  let f := (fleet_run env 20 (world0, FStart None)).2 in
  (forall r, f = FDone r -> r = Return PyNone) /\
  (forall permits cs,
     f = FGather permits cs ->
     map child_name cs =
     discover_repositories (settings env)
       [info "alpha"; info "beta"; info "gamma"] [info "beta"; info "gamma"]) /\
  (forall w, (exists r, f = FDone r) \/
             exists w' f', fleet_step env (w, f) (w', f')) /\
  (forall permits cs w w' f',
     f = FGather permits cs -> fleet_step env (w, f) (w', f') ->
     (gather_measure f' < gather_measure f)%nat /\
     (forall r, f' = FDone r ->
                r = Return PyNone /\ forallb is_finished cs = true)).
Proof.
  apply (fleet_sync_isolation (sample_env manual)
           [info "alpha"; info "beta"; info "gamma"] [info "beta"; info "gamma"]).
  - reflexivity.
  - reflexivity.
  - vm_compute. discriminate.
  - change (FStart None) with (world0, FStart None).2.
    apply (rtc_congruence (R:=fleet_step (sample_env manual)) snd);
      [|apply fleet_run_sound].
    intros [w f] [w' f'] H. exists w, w'. exact H.
Defined.

(** ** Which branch names the analyser iterates over *)

(** Every occurrence of the remote's name is removed from a ref name, not
    only the leading one: a branch called [origin/gitea/x] is looked for
    under other names and never compared. *)
Example replace_strips_every_occurrence :
  all_branches
    {| refs := ["origin/origin/gitea/x"; "gitea/origin/gitea/x"];
       commit := λ _, None; iter_commits := λ _ _, None;
       push_rejected := λ _, false; remote_tags := λ _, [] |}
  = ["gitea/x"; "origin/x"].
Proof. vm_compute. reflexivity. Qed.

(** * Further properties of the code *)

(** ** The report *)

(** X1. No branch name is in two lists of the report, and no list of the
    report holds a name twice; every listed name is one the analyser
    iterates over. *)
Theorem report_lists_disjoint (repo : Repo) (c1 c2 : branch_class) (b : string) :
  let d := (analyze_repository_differences repo).1 in
  b ∈ class_list c1 d -> b ∈ class_list c2 d ->
  c1 = c2 /\ NoDup (class_list c1 d) /\ b ∈ all_branches repo.
Proof.
  intros d H1 H2.
  apply analyze_class_elem in H1 as (_ & Hin & E1).
  apply analyze_class_elem in H2 as (_ & _ & E2).
  split; [congruence|]. split; [apply analyze_class_NoDup|exact Hin].
Qed.

Lemma report_lists_disjoint_witness :
  let d := (analyze_repository_differences repo_beta).1 in
  GithubAhead = GithubAhead /\ NoDup (class_list GithubAhead d) /\
  "dev" ∈ all_branches repo_beta.
Proof.
  apply (report_lists_disjoint repo_beta GithubAhead GithubAhead "dev").
  - apply (bool_decide_unpack _). vm_compute. exact I.
  - apply (bool_decide_unpack _). vm_compute. exact I.
Defined.

(** X2. The flag [has_conflicts] of a report is set exactly when its list
    of diverged branches is not empty. *)
Theorem has_conflicts_iff_diverged (repo : Repo) :
  let d := (analyze_repository_differences repo).1 in
  has_conflicts d = true <-> diverged_branches d <> [].
Proof.
  intros d. subst d. rewrite analyze_has_conflicts.
  destruct (diverged_branches _); simpl; split; congruence.
Qed.

(** X3. A forced push is issued only onto a diverged branch, only under
    [github_wins] (onto Gitea, from the GitHub ref) or [gitea_wins] (onto
    GitHub, from the Gitea ref); the conflict-free path and the policy
    [manual] never force. *)
Theorem force_push_only_diverged (st : Settings) (repo : Repo)
    (t0 : list GitPush) (remote src b : string) :
  let d := (analyze_repository_differences repo).1 in
  PushRef remote src b true ∈ (resolve st repo d t0).1 ->
  PushRef remote src b true ∈ t0 \/
  (has_conflicts d = true /\ b ∈ diverged_branches d /\
   ((conflict_resolution st = github_wins /\ remote = "gitea" /\
     src = github_ref b) \/
    (conflict_resolution st = gitea_wins /\ remote = "origin" /\
     src = gitea_ref b))).
Proof.
  intros d. rewrite resolve_trace, elem_of_app.
  intros [H|H]; [left; exact H|right]. apply accepted_elem in H.
  unfold plan in H. destruct (has_conflicts d); simpl in H.
  - apply conflict_plan_ref in H. tauto.
  - apply simple_plan_ref in H. destruct H as [H _]. discriminate.
Qed.

Lemma force_push_only_diverged_witness :
  let d := (analyze_repository_differences repo_mixed).1 in
  PushRef "gitea" "origin/main" "main" true ∈ [] \/
  (has_conflicts d = true /\ "main" ∈ diverged_branches d /\
   ((conflict_resolution (sample_settings github_wins true) = github_wins /\
     "gitea" = "gitea" /\ "origin/main" = github_ref "main") \/
    (conflict_resolution (sample_settings github_wins true) = gitea_wins /\
     "gitea" = "origin" /\ "origin/main" = gitea_ref "main"))).
Proof.
  apply (force_push_only_diverged (sample_settings github_wins true) repo_mixed
           [] "gitea" "origin/main" "main").
  apply (bool_decide_unpack _). vm_compute. exact I.
Defined.

(** ** Rejected pushes *)

Lemma raises_only_git_ret {A} (a : A) : raises_only_git (git_ret a).
Proof. intros t e. discriminate. Qed.

Lemma raises_only_git_push repo cmd : raises_only_git (git_push repo cmd).
Proof.
  intros t e. unfold git_push. destruct (push_rejected repo cmd); simpl;
    congruence.
Qed.

Lemma raises_only_git_bind {A B} (m : Git A) (k : A -> Git B) :
  raises_only_git m -> (forall a, raises_only_git (k a)) ->
  raises_only_git (git_bind m k).
Proof.
  intros Hm Hk t e. unfold git_bind.
  destruct (m t) as [t' [a|e']] eqn:E; simpl.
  - apply Hk.
  - intros [= <-]. apply (Hm t). rewrite E. reflexivity.
Qed.

Lemma raises_only_git_push_each repo mk label bs : forall actions,
  raises_only_git (push_each repo mk label bs actions).
Proof.
  induction bs as [|b bs IH]; intros actions; simpl.
  - apply raises_only_git_ret.
  - apply raises_only_git_bind; [apply raises_only_git_push|auto].
Qed.

Lemma raises_only_git_resolve_each st repo bs : forall actions,
  raises_only_git (resolve_each st repo bs actions).
Proof.
  induction bs as [|b bs IH]; intros actions; simpl.
  - apply raises_only_git_ret.
  - destruct (conflict_resolution st);
      try (apply raises_only_git_bind; [apply raises_only_git_push|auto]).
    apply IH.
Qed.

Lemma raises_only_git_simple_sync st repo d :
  raises_only_git (perform_simple_sync st repo d).
Proof.
  unfold perform_simple_sync.
  repeat (apply raises_only_git_bind;
          [first [apply raises_only_git_push_each|idtac]|intros ?]);
    try apply raises_only_git_ret.
  destruct (sync_tags st); [|apply raises_only_git_ret].
  repeat (apply raises_only_git_bind; [apply raises_only_git_push|intros ?]).
  apply raises_only_git_ret.
Qed.

Lemma raises_only_git_handle_conflicts st repo d :
  conflict_resolution st <> manual ->
  raises_only_git (handle_sync_conflicts st repo d).
Proof.
  intros Hm. unfold handle_sync_conflicts.
  destruct (conflict_resolution st); try congruence;
    (apply raises_only_git_bind;
     [apply raises_only_git_resolve_each|intros ?; apply raises_only_git_ret]).
Qed.

(** X4. When a remote rejects one of the pushes of a resolution (any
    policy in the conflict-free path, a winning policy otherwise), the
    resolution raises [GitCommandError]; the pushes issued before the
    rejected one have gone through and stay, and none of the later ones is
    issued. *)
Theorem rejected_push_aborts (st : Settings) (repo : Repo) (d : Differences)
    (t0 : list GitPush) :
  has_conflicts d = false \/ conflict_resolution st <> manual ->
  all_accepted repo (plan st d) = false ->
  resolve st repo d t0 = (t0 ++ accepted repo (plan st d), Raise GitCommandError) /\
  accepted repo (plan st d) `prefix_of` plan st d /\
  (length (accepted repo (plan st d)) < length (plan st d))%nat.
Proof.
  intros Hpath Hrej.
  assert (Hlen : forall p, all_accepted repo p = false ->
                   (length (accepted repo p) < length p)%nat).
  { induction p as [|c p IH]; simpl; [discriminate|].
    destruct (push_rejected repo c); simpl; [lia|].
    intros H. specialize (IH H). lia. }
  split; [|split; [apply accepted_prefix|apply Hlen, Hrej]].
  pose proof (resolve_trace repo st d t0) as Ht.
  unfold resolve, plan in *. destruct (has_conflicts d); simpl in *.
  - destruct Hpath as [?|Hm]; [discriminate|].
    destruct (runs_handle_conflicts repo st d Hm t0) as [_ Hr].
    rewrite Hrej in Hr.
    destruct (handle_sync_conflicts st repo d t0) as [t r] eqn:E.
    simpl in *. subst t. f_equal. destruct r as [a|e]; [discriminate|].
    f_equal. apply (raises_only_git_handle_conflicts st repo d Hm t0).
    rewrite E. reflexivity.
  - destruct (runs_simple_sync repo st d t0) as [_ Hr].
    rewrite Hrej in Hr.
    destruct (perform_simple_sync st repo d t0) as [t r] eqn:E.
    simpl in *. subst t. f_equal. destruct r as [a|e]; [discriminate|].
    f_equal. apply (raises_only_git_simple_sync st repo d t0).
    rewrite E. reflexivity.
Qed.

Lemma rejected_push_aborts_witness :
  let st := sample_settings manual true in
  let d := (analyze_repository_differences repo_protected).1 in
  resolve st repo_protected d [] =
    ([] ++ accepted repo_protected (plan st d), Raise GitCommandError) /\
  accepted repo_protected (plan st d) `prefix_of` plan st d /\
  (length (accepted repo_protected (plan st d)) < length (plan st d))%nat.
Proof.
  apply (rejected_push_aborts (sample_settings manual true) repo_protected).
  - left. reflexivity.
  - reflexivity.
Defined.

Example resolve_protected :
  resolve (sample_settings manual true) repo_protected
    (analyze_repository_differences repo_protected).1 [] =
  ([PushRef "origin" "gitea/docs" "docs" false], Raise GitCommandError).
Proof. vm_compute. reflexivity. Qed.

(** ** The symbolic ref [origin/HEAD] *)

(** X5. The analyser does not set the symbolic ref [origin/HEAD] of a
    clone apart: when Gitea has no ref [gitea/HEAD], the name [HEAD] is
    reported as a branch new on GitHub, and the conflict-free path, when
    the remotes accept its pushes, pushes [origin/HEAD] to a branch [HEAD]
    on Gitea. *)
Theorem origin_head_is_a_branch (st : Settings) (repo : Repo)
    (t0 : list GitPush) :
  "origin/HEAD" ∈ refs repo -> "gitea/HEAD" ∉ refs repo ->
  let d := (analyze_repository_differences repo).1 in
  "HEAD" ∈ github (new_branches d) /\
  (has_conflicts d = false -> all_accepted repo (simple_plan st d) = true ->
   PushRef "gitea" "origin/HEAD" "HEAD" false ∈ (resolve st repo d t0).1).
Proof.
  intros Hgh Hgt d.
  assert (Hin : "HEAD" ∈ github (new_branches d)).
  { apply (analyze_class_elem repo OnlyGithub "HEAD").
    split; [reflexivity|]. split.
    - apply github_branch_enumerated; [exact Hgh|reflexivity].
    - unfold classify.
      change (github_ref "HEAD") with "origin/HEAD".
      change (gitea_ref "HEAD") with "gitea/HEAD".
      rewrite bool_decide_eq_true_2 by exact Hgh.
      rewrite bool_decide_eq_false_2 by exact Hgt. reflexivity. }
  split; [exact Hin|]. intros Hh Hok.
  rewrite resolve_trace. unfold plan. rewrite Hh. simpl.
  rewrite accepted_all by exact Hok. apply elem_of_app. right.
  apply (ahead_push_planned st d OnlyGithub "HEAD"); [reflexivity|exact Hin].
Qed.

Lemma origin_head_is_a_branch_witness :
  let st := sample_settings manual false in
  let d := (analyze_repository_differences repo_head).1 in
  "HEAD" ∈ github (new_branches d) /\
  (has_conflicts d = false -> all_accepted repo_head (simple_plan st d) = true ->
   PushRef "gitea" "origin/HEAD" "HEAD" false ∈ (resolve st repo_head d []).1).
Proof.
  apply (origin_head_is_a_branch (sample_settings manual false) repo_head []).
  - apply (bool_decide_unpack _). vm_compute. exact I.
  - apply (bool_decide_unpack _). vm_compute. exact I.
Defined.

Example resolve_head :
  resolve (sample_settings manual false) repo_head
    (analyze_repository_differences repo_head).1 [] =
  ([PushRef "gitea" "origin/HEAD" "HEAD" false],
   Return {| action := "synced"; details := ["pushed_to_gitea: HEAD"];
             origin := None |}).
Proof. vm_compute. reflexivity. Qed.

(** ** Branch differences *)

(** X6. Swapping the two branches of [get_branch_differences] swaps the
    [ahead] and [behind] lists and keeps the [diverged] flag; it raises
    for one order exactly when it raises for the other. *)
Theorem branch_differences_swap (repo : Repo) (branch1 branch2 : string) :
  get_branch_differences repo branch2 branch1 =
  swap_differences (get_branch_differences repo branch1 branch2).
Proof.
  unfold get_branch_differences.
  destruct (iter_commits repo branch2 branch1) as [l1|],
           (iter_commits repo branch1 branch2) as [l2|]; simpl;
    try reflexivity.
  rewrite andb_comm. reflexivity.
Qed.

Lemma nonempty_truthy {A} (l : list A) : nonempty l = truthy l.
Proof. destruct l; reflexivity. Qed.

(** X7. The analyser and [get_branch_differences] agree on what a fork
    is: a branch the analyser iterates over, whose two refs resolve to
    different commits, is listed as diverged exactly when
    [get_branch_differences] of its two refs returns [diverged = True]. *)
Theorem analyser_agrees_with_branch_differences (repo : Repo) (b : string)
    (g t : hexsha) :
  b ∈ all_branches repo ->
  github_ref b ∈ refs repo -> gitea_ref b ∈ refs repo ->
  commit repo (github_ref b) = Some g -> commit repo (gitea_ref b) = Some t ->
  g <> t ->
  b ∈ diverged_branches (analyze_repository_differences repo).1 <->
  exists r, get_branch_differences repo (github_ref b) (gitea_ref b) = Return r /\
            diverged r = true.
Proof.
  intros Hin H1 H2 H3 H4 Hne.
  rewrite (analyze_class_elem repo Diverged b).
  unfold classify, get_branch_differences.
  rewrite !bool_decide_eq_true_2, H3, H4 by assumption.
  rewrite bool_decide_eq_true_2 by assumption.
  destruct (iter_commits repo (gitea_ref b) (github_ref b)) as [l1|],
           (iter_commits repo (github_ref b) (gitea_ref b)) as [l2|]; simpl.
  - rewrite !nonempty_truthy. split.
    + intros (_ & _ & H). eexists. split; [reflexivity|]. simpl.
      destruct (truthy l1), (truthy l2); simpl in *; congruence.
    + intros (r & [= <-] & H). simpl in H. rewrite H.
      split; [reflexivity|]. split; [exact Hin|reflexivity].
  - split; [intros (_ & _ & ?); discriminate|intros (r & ? & _); discriminate].
  - split; [intros (_ & _ & ?); discriminate|intros (r & ? & _); discriminate].
  - split; [intros (_ & _ & ?); discriminate|intros (r & ? & _); discriminate].
Qed.

Lemma analyser_agrees_with_branch_differences_witness :
  "main" ∈ diverged_branches (analyze_repository_differences repo_mixed).1 <->
  exists r, get_branch_differences repo_mixed (github_ref "main") (gitea_ref "main")
            = Return r /\ diverged r = true.
Proof.
  apply (analyser_agrees_with_branch_differences repo_mixed "main" "X" "Z").
  - apply (bool_decide_unpack _). vm_compute. exact I.
  - apply (bool_decide_unpack _). vm_compute. exact I.
  - apply (bool_decide_unpack _). vm_compute. exact I.
  - reflexivity.
  - reflexivity.
  - discriminate.
Defined.

(** ** The state only grows *)

Lemma evolves_refl w : evolves w w.
Proof.
  split; try reflexivity; try auto.
  intros k r H. exists r. repeat split; try assumption; lia.
Qed.

Lemma evolves_trans w1 w2 w3 : evolves w1 w2 -> evolves w2 w3 -> evolves w1 w3.
Proof.
  intros [R1 L1 P1 C1 G1 F1 H1 K1] [R2 L2 P2 C2 G2 F2 H2 K2].
  split; try (etrans; eassumption); try congruence; try lia; auto.
  intros k r Hr.
  destruct (R1 k r Hr) as (r' & Hr' & ? & ? & ? & ? & ? & ? & ?).
  destruct (R2 k r' Hr') as (r'' & Hr'' & ? & ? & ? & ? & ? & ? & ?).
  exists r''. repeat split; try congruence; lia.
Qed.

Lemma prefix_snoc {A} (l : list A) (x : A) : l `prefix_of` l ++ [x].
Proof. apply prefix_app_r. reflexivity. Qed.

Lemma evolves_log lv ev subj w : evolves w (log lv ev subj w).
Proof.
  split; simpl; try reflexivity; auto; [|apply prefix_snoc].
  intros k r H. exists r. repeat split; try assumption; lia.
Qed.

Lemma evolves_with_logger w lg : evolves w (with_logger (logger w ++ lg) w).
Proof.
  split; simpl; try reflexivity; auto; [|apply prefix_app_r; reflexivity].
  intros k r H. exists r. repeat split; try assumption; lia.
Qed.

Lemma evolves_record_pushes n t w : evolves w (record_pushes n t w).
Proof.
  split; simpl; try reflexivity; auto; [|apply prefix_app_r; reflexivity].
  intros k r H. exists r. repeat split; try assumption; lia.
Qed.

Lemma evolves_with_created w x : evolves w (with_created (created w ++ [x]) w).
Proof.
  split; simpl; try reflexivity; auto; [|apply prefix_snoc].
  intros k r H. exists r. repeat split; try assumption; lia.
Qed.

Lemma evolves_log_sync_result n st d w : evolves w (log_sync_result n st d w).
Proof.
  split; simpl; try reflexivity; auto; [|apply prefix_snoc|lia].
  intros k r H. exists r. repeat split; try assumption; lia.
Qed.

Lemma commit_row_clock key old new w :
  clock w <= clock (commit_row key old new w).
Proof. unfold commit_row. case_decide; simpl; lia. Qed.

Lemma update_repo_status_clock n st w :
  clock w <= clock (update_repo_status n st w).
Proof.
  unfold update_repo_status. destruct (repositories w !! n); [|lia].
  repeat case_decide; (etrans; [|apply commit_row_clock]); simpl; lia.
Qed.

Lemma evolves_update_repo_status n st w : evolves w (update_repo_status n st w).
Proof.
  destruct (update_repo_status_frame n st w) as (F1 & F2 & F3 & F4 & F5 & F6).
  split; try (rewrite ?F1, ?F3, ?F4, ?F5; reflexivity); try congruence;
    [|apply update_repo_status_clock].
  intros k r Hr. destruct (decide (k = n)) as [->|Hk].
  - destruct (update_repo_status_row n st w r Hr)
      as (r' & H1 & _ & _ & H4 & H5 & H6 & H7 & H8 & H9 & H10 & _).
    exists r'. repeat split; try assumption.
    rewrite H4. case_decide; lia.
  - exists r. rewrite update_repo_status_other by exact Hk.
    repeat split; try assumption; lia.
Qed.

Lemma evolves_ensure st n gh gt w :
  evolves w (ensure_repository_record st n gh gt w).
Proof.
  destruct (ensure_repository_record_frame st n gh gt w)
    as (F1 & F2 & F3 & F4 & F5 & F6).
  split; try (rewrite ?F1, ?F3, ?F4, ?F5; reflexivity); try congruence.
  - intros k r Hr. exists r. split; [|repeat split; lia].
    unfold ensure_repository_record.
    destruct (repositories w !! n) eqn:E; [exact Hr|]. simpl.
    rewrite lookup_insert_ne by congruence. exact Hr.
  - unfold ensure_repository_record. case_match; simpl; lia.
Qed.

Lemma evolves_finish n r w : evolves w (finish n r w).1.
Proof.
  destruct r as [a|[bs| | |]]; simpl;
    (eapply evolves_trans; [apply evolves_update_repo_status|]);
    (eapply evolves_trans; [apply evolves_log_sync_result|]);
    apply evolves_log.
Qed.

Lemma evolves_task_step env n src p w : evolves w (task_step env n src p w).1.
Proof.
  destruct p as [| |gh|pl rp|r]; unfold task_step; cbv beta iota zeta.
  - eapply evolves_trans; [apply evolves_log|apply evolves_update_repo_status].
  - destruct (github_get_repository env n);
      [apply evolves_refl|apply evolves_finish].
  - destruct (gitea_get_repository env n) as [gt|]; [|apply evolves_finish].
    set (w1 := ensure_repository_record _ _ _ _ _).
    assert (E1 : evolves w w1) by apply evolves_ensure.
    assert (E2 : forall ev, evolves w (log Info ev n w1)).
    { intros ev. eapply evolves_trans; [exact E1|apply evolves_log]. }
    destruct gh, gt.
    + destruct (work_clone env n).
      * eapply evolves_trans; [|apply evolves_finish].
        eapply evolves_trans; [|apply evolves_record_pushes].
        eapply evolves_trans; [apply E2|apply evolves_with_logger].
      * eapply evolves_trans; [apply E2|apply evolves_finish].
    + destruct (clone_github env n).
      * apply E2.
      * eapply evolves_trans; [apply E2|apply evolves_finish].
    + destruct (clone_gitea env n).
      * apply E2.
      * eapply evolves_trans; [apply E2|apply evolves_finish].
    + eapply evolves_trans; [exact E1|apply evolves_finish].
  - destruct (create_repository env pl n); [|apply evolves_finish].
    destruct (push_everything rp pl []).2;
      (eapply evolves_trans; [|apply evolves_finish]);
      (eapply evolves_trans; [|apply evolves_record_pushes]);
      apply evolves_with_created.
  - apply evolves_refl.
Qed.

Lemma evolves_fleet_fail e w : evolves w (fleet_fail e w).1.
Proof.
  split; simpl; try reflexivity; try discriminate; [|apply prefix_snoc].
  intros k r H. exists r. repeat split; try assumption; lia.
Qed.

Lemma evolves_fleet_step env wf wf' :
  fleet_step env wf wf' -> evolves wf.1 wf'.1.
Proof.
  intros H. inversion H; subst; cbn [fst];
    try apply evolves_task_step; try apply evolves_log;
    try apply evolves_refl; try apply evolves_fleet_fail.
  - eapply evolves_trans; [apply evolves_task_step|apply evolves_fleet_fail].
  - eapply evolves_trans; [apply evolves_log|apply evolves_fleet_fail].
Qed.

Lemma evolves_step env s s' : step env s s' -> evolves s.1 s'.1.
Proof.
  intros H. inversion H; subst; cbn [fst].
  - apply evolves_task_step.
  - apply (evolves_fleet_step env (w, f) (w', f')). assumption.
Qed.

Lemma fleet_rtc_step env wf wf' :
  rtc (fleet_step env) wf wf' ->
  rtc (step env) (wf.1, [Fleet wf.2]) (wf'.1, [Fleet wf'.2]).
Proof.
  induction 1 as [[w f]|[w f] [w1 f1] [w2 f2] H _ IH]; [reflexivity|].
  eapply rtc_l; [|exact IH]. cbn [fst snd].
  exact (step_fleet env w [Fleet f] 0%nat f w1 f1 eq_refl H).
Qed.

(** X8. Whatever coroutines of the service run, in whatever order: no row
    of the repository table is ever deleted, a row keeps its [id],
    [name], [created_at], URLs and [config], and its conflict counter
    never decreases; the log table, the accepted pushes and the created
    repositories only grow at the end; the table of conflicts is never
    written; the health flag is never set back to healthy. *)
Theorem state_only_grows (env : Env) (s s' : World * list Job) :
  rtc (step env) s s' -> evolves s.1 s'.1.
Proof.
  induction 1 as [|x y z H _ IH]; [apply evolves_refl|].
  eapply evolves_trans; [apply (evolves_step env x y H)|exact IH].
Qed.

Lemma state_only_grows_witness :
  evolves world0 (fleet_run (sample_env manual) 20 (world0, FStart None)).1.
Proof.
  apply (state_only_grows (sample_env manual) (world0, [Fleet (FStart None)])
           ((fleet_run (sample_env manual) 20 (world0, FStart None)).1,
            [Fleet (fleet_run (sample_env manual) 20 (world0, FStart None)).2])).
  apply (fleet_rtc_step (sample_env manual) (world0, FStart None)).
  apply fleet_run_sound.
Defined.

Lemma finish_touches_only n r w : touches_only n w (finish n r w).1.
Proof.
  intros k Hk. destruct r as [a|[bs| | |]]; simpl;
    apply update_repo_status_other, Hk.
Qed.

Lemma ensure_touches_only st n gh gt w :
  touches_only n w (ensure_repository_record st n gh gt w).
Proof.
  intros k Hk. unfold ensure_repository_record.
  destruct (repositories w !! n); [reflexivity|]. simpl.
  apply lookup_insert_ne. congruence.
Qed.

(** X9. A step of the sync of one repository reads and writes the row of
    that repository only: the rows of all other repositories are the same
    before and after, whichever path the step takes. *)
Theorem sync_touches_only_its_row (env : Env) (repo_name source : string)
    (p : pc) (w : World) :
  touches_only repo_name w (task_step env repo_name source p w).1.
Proof.
  intros k Hk.
  assert (Hf : forall r w0, repositories w0 !! k = repositories w !! k ->
             repositories (finish repo_name r w0).1 !! k = repositories w !! k).
  { intros r w0 <-. apply finish_touches_only, Hk. }
  assert (He : forall gh gt,
             repositories (ensure_repository_record (settings env) repo_name
                             gh gt w) !! k = repositories w !! k).
  { intros gh gt. apply ensure_touches_only, Hk. }
  destruct p as [| |gh|pl rp|r]; unfold task_step; cbv beta iota zeta.
  - cbn [fst]. rewrite update_repo_status_other by exact Hk. reflexivity.
  - destruct (github_get_repository env repo_name); [reflexivity|].
    apply Hf. reflexivity.
  - destruct (gitea_get_repository env repo_name) as [gt|];
      [|apply Hf; reflexivity].
    destruct gh, gt;
      repeat match goal with
             | |- context [match ?x with Some _ => _ | None => _ end] =>
                 destruct x
             end;
      first [apply Hf; apply He | apply He].
  - destruct (create_repository env pl repo_name); [|apply Hf; reflexivity].
    destruct (push_everything rp pl []).2; apply Hf; reflexivity.
  - reflexivity.
Qed.

(** ** One log row for every attempt *)








Lemma suspended_log n w w' lv ev subj :
  suspended n w w' -> suspended n w (log lv ev subj w').
Proof. intros H. exact H. Qed.





(** The sync of [gamma] cancelled while it waits for Gitea's answer: the
    row stays in [syncing] and the log table is empty. *)
Example cancelled_sync_stays_syncing :
  cancelled_gamma.2 = Cancelled /\
  sync_status <$> repositories cancelled_gamma.1 !! "gamma" = Some "syncing" /\
  sync_logs cancelled_gamma.1 = [].
Proof. vm_compute. auto. Qed.

(** ** The paths of one attempt *)

Lemma finish_row n out w r :
  repositories w !! n = Some r ->
  exists r',
    repositories (finish n out w).1 !! n = Some r' /\
    sync_status r' = outcome_status out /\
    last_sync r' = (if decide (outcome_status out = "synced")
                    then Some (clock w) else last_sync r) /\
    conflict_count r' = (if decide (outcome_status out = "conflict")
                         then conflict_count r + 1 else conflict_count r) /\
    github_url r' = github_url r /\ gitea_url r' = gitea_url r.
Proof.
  intros Hr.
  destruct (update_repo_status_row n (outcome_status out) w r Hr)
    as (r' & H1 & H2 & H3 & H4 & _ & _ & H7 & H8 & _).
  exists r'. destruct out as [a|[bs| | |]]; simpl in *; auto 10.
Qed.

Lemma finish_frame n out w :
  (finish n out w).2 = Done out /\
  pushed (finish n out w).1 = pushed w /\
  created (finish n out w).1 = created w /\
  sync_conflicts (finish n out w).1 = sync_conflicts w /\
  healthy (finish n out w).1 = healthy w.
Proof.
  destruct (update_repo_status_frame n (outcome_status out) w)
    as (_ & F2 & F3 & F4 & _ & F6).
  destruct out as [a|[bs| | |]]; simpl in *; auto 10.
Qed.

Lemma bind_return_inv {A B} (m : Git A) (k : A -> Git B) t t' b :
  git_bind m k t = (t', Return b) ->
  exists t1 a, m t = (t1, Return a) /\ k a t1 = (t', Return b).
Proof.
  unfold git_bind. destruct (m t) as [t1 [a|e]]; [eauto|discriminate].
Qed.

Lemma simple_sync_result st repo d t t' res :
  perform_simple_sync st repo d t = (t', Return res) ->
  action res = "synced" /\ origin res = None.
Proof.
  unfold perform_simple_sync. intros H.
  repeat (apply bind_return_inv in H as (? & ? & _ & H)).
  injection H as _ <-. auto.
Qed.

Lemma step_done env n src w r : task_step env n src (Done r) w = (w, Done r).
Proof. reflexivity. Qed.

(** The state in which [finish] runs when both platforms have the
    repository and the clone succeeds. *)
Lemma sync_repository_both env n src w gh gt repo :
  github_get_repository env n = ApiOk (Some gh) ->
  gitea_get_repository env n = ApiOk (Some gt) ->
  work_clone env n = Some repo ->
  let w1 := update_repo_status n "syncing"
              (log Info "Starting repository sync" n w) in
  let w2 := ensure_repository_record (settings env) n (Some gh) (Some gt) w1 in
  let w2' := log Info "Syncing existing repositories" n w2 in
  let r := sync_existing (settings env) repo in
  sync_repository env n src w =
  finish n r.1.2 (record_pushes n r.1.1 (with_logger (logger w2' ++ r.2) w2')).
Proof.
  intros Hgh Hgt Hcl w1 w2 w2' r. unfold sync_repository.
  change (task_step env n src Start w) with (w1, AwaitGithub). cbn [fst snd].
  rewrite (step_github_ok _ _ _ _ _ Hgh). cbn [fst snd].
  rewrite (step_gitea_both _ _ _ _ _ _ _ Hgt Hcl). cbv zeta.
  fold w2 w2' r.
  destruct (finish_frame n r.1.2
              (record_pushes n r.1.1 (with_logger (logger w2' ++ r.2) w2')))
    as (Hd & _).
  destruct (finish n r.1.2 _) as [wf pf]. cbn [fst snd] in *. subst pf.
  reflexivity.
Qed.

(** The row of the repository once the first three steps have run. *)
Lemma row_before_finish st n gh gt w :
  let w1 := update_repo_status n "syncing"
              (log Info "Starting repository sync" n w) in
  let w2 := ensure_repository_record st n gh gt w1 in
  exists r, repositories w2 !! n = Some r /\
    conflict_count r = match repositories w !! n with
                       | Some r0 => conflict_count r0 | None => 0 end /\
    last_sync r = match repositories w !! n with
                  | Some r0 => last_sync r0 | None => None end /\
    (repositories w !! n = None ->
     github_url r = clone_url <$> gh /\
     (gt = None -> gitea_url r = None)).
Proof.
  intros w1 w2. destruct (repositories w !! n) as [r0|] eqn:E.
  - destruct (update_repo_status_row n "syncing"
                (log Info "Starting repository sync" n w) r0 E)
      as (r' & H1 & _ & H3 & H4 & _).
    fold w1 in H1. subst w2.
    rewrite (ensure_repository_record_old _ _ _ _ _ r') by exact H1.
    exists r'. rewrite H3, H4, !decide_False by discriminate.
    split; [exact H1|]. split; [reflexivity|]. split; [reflexivity|].
    discriminate.
  - assert (E1 : repositories w1 !! n = None).
    { subst w1. rewrite update_repo_status_missing by exact E. exact E. }
    subst w2. unfold ensure_repository_record. rewrite E1. simpl.
    eexists. split; [apply lookup_insert_eq|]. simpl.
    split; [reflexivity|]. split; [reflexivity|]. intros _.
    split; [reflexivity|]. intros ->. reflexivity.
Qed.

(** X11. When both platforms have the repository, the clone succeeds, no
    branch is diverged and the remotes accept the pushes, [sync_repository]
    returns a result of action [synced]; exactly the pushes of the
    conflict-free path are recorded for the repository; its row ends in
    status [synced] with the last-sync time stamped during this attempt and
    the conflict counter it had; nothing is created on a platform. *)
Theorem sync_success_outcome (env : Env) (repo_name source : string)
    (w : World) (gh gt : RepoInfo) (repo : Repo) :
  github_get_repository env repo_name = ApiOk (Some gh) ->
  gitea_get_repository env repo_name = ApiOk (Some gt) ->
  work_clone env repo_name = Some repo ->
  let d := (analyze_repository_differences repo).1 in
  has_conflicts d = false ->
  all_accepted repo (simple_plan (settings env) d) = true ->
  let s := sync_repository env repo_name source w in
  (exists res, s.2 = Done (Return res) /\ action res = "synced") /\
  pushed s.1 = pushed w ++ map (pair repo_name) (simple_plan (settings env) d) /\
  created s.1 = created w /\
  exists row t,
    repositories s.1 !! repo_name = Some row /\
    sync_status row = "synced" /\
    last_sync row = Some t /\ clock w <= t /\
    conflict_count row = match repositories w !! repo_name with
                         | Some r0 => conflict_count r0 | None => 0 end.
Proof.
  intros Hgh Hgt Hcl d Hh Hok s. subst s.
  rewrite (sync_repository_both env repo_name source w gh gt repo Hgh Hgt Hcl).
  cbv zeta. unfold sync_existing. fold d.
  set (w1 := update_repo_status repo_name "syncing" _).
  set (w2 := ensure_repository_record _ _ _ _ w1).
  set (w2' := log Info "Syncing existing repositories" repo_name w2).
  destruct (runs_simple_sync repo (settings env) d []) as [Ht Hr].
  assert (Hres : resolve (settings env) repo d [] =
                 perform_simple_sync (settings env) repo d []).
  { unfold resolve. rewrite Hh. reflexivity. }
  rewrite Hres. rewrite Hok in Hr. rewrite accepted_all in Ht by exact Hok.
  destruct (perform_simple_sync (settings env) repo d []) as [t [res|e]] eqn:E;
    [|discriminate]. cbn [fst snd] in *. subst t.
  destruct (simple_sync_result _ _ _ _ _ _ E) as [Ha _].
  change ([] ++ simple_plan (settings env) d) with (simple_plan (settings env) d).
  set (w3 := record_pushes _ _ _).
  destruct (finish_frame repo_name (Return res) w3) as (F1 & F2 & F3 & _).
  pose proof (before_finish_frame (settings env) repo_name (Some gh) (Some gt)
                (simple_plan (settings env) d)
                (analyze_repository_differences repo).2 w) as B.
  cbv zeta in B. fold w1 w2 w2' in B. fold w3 in B.
  destruct B as (_ & _ & B3 & B4 & B5).
  destruct (row_before_finish (settings env) repo_name (Some gh) (Some gt) w)
    as (r & Hrow & Hc & _). fold w1 w2 in Hrow. rewrite <- B5 in Hrow.
  destruct (finish_row repo_name (Return res) w3 r Hrow)
    as (r' & R1 & R2 & R3 & R4 & _).
  simpl in R2, R3, R4.
  split; [eauto|]. split; [congruence|]. split; [congruence|].
  exists r', (clock w2). repeat split; try assumption; try congruence.
  pose proof (evolves_task_step env repo_name source Start w) as E1.
  pose proof (evolves_ensure (settings env) repo_name (Some gh) (Some gt) w1) as E2.
  apply ev_clock in E1. apply ev_clock in E2. fold w2 in E2.
  change (task_step env repo_name source Start w).1 with w1 in E1. lia.
Qed.

Lemma sync_success_outcome_witness :
  let env := sample_env manual in
  let d := (analyze_repository_differences repo_beta).1 in
  let s := sync_repository env "beta" "auto" world0 in
  (exists res, s.2 = Done (Return res) /\ action res = "synced") /\
  pushed s.1 = pushed world0 ++ map (pair "beta") (simple_plan (settings env) d) /\
  created s.1 = created world0 /\
  exists row t,
    repositories s.1 !! "beta" = Some row /\
    sync_status row = "synced" /\
    last_sync row = Some t /\ clock world0 <= t /\
    conflict_count row = match repositories world0 !! "beta" with
                         | Some r0 => conflict_count r0 | None => 0 end.
Proof.
  apply (sync_success_outcome (sample_env manual) "beta" "auto" world0
           (info "beta") (info "beta") repo_beta); reflexivity.
Defined.

Lemma sync_repository_neither env n src w :
  github_get_repository env n = ApiOk None ->
  gitea_get_repository env n = ApiOk None ->
  let w1 := update_repo_status n "syncing"
              (log Info "Starting repository sync" n w) in
  let w2 := ensure_repository_record (settings env) n None None w1 in
  sync_repository env n src w = finish n (Raise ValueError) w2.
Proof.
  intros Hgh Hgt w1 w2. unfold sync_repository.
  change (task_step env n src Start w) with (w1, AwaitGithub). cbn [fst snd].
  rewrite (step_github_ok _ _ _ _ _ Hgh). cbn [fst snd].
  assert (E : task_step env n src (AwaitGitea None) w1
              = finish n (Raise ValueError) w2).
  { unfold task_step. rewrite Hgt. reflexivity. }
  rewrite E. reflexivity.
Qed.

(** X12. When neither platform has the repository, [sync_repository]
    raises [ValueError] without cloning, pushing or creating anything;
    yet a row for the repository is in the table afterwards, in status
    [failed]: the row is inserted before the existence check, and when it
    was inserted by this attempt both its URLs are null. *)
Theorem sync_unknown_repository (env : Env) (repo_name source : string)
    (w : World) :
  github_get_repository env repo_name = ApiOk None ->
  gitea_get_repository env repo_name = ApiOk None ->
  let s := sync_repository env repo_name source w in
  s.2 = Done (Raise ValueError) /\
  pushed s.1 = pushed w /\ created s.1 = created w /\
  exists row,
    repositories s.1 !! repo_name = Some row /\
    sync_status row = "failed" /\
    (repositories w !! repo_name = None ->
     github_url row = None /\ gitea_url row = None).
Proof.
  intros Hgh Hgt s. subst s.
  rewrite (sync_repository_neither env repo_name source w Hgh Hgt). cbv zeta.
  set (w1 := update_repo_status repo_name "syncing" _).
  set (w2 := ensure_repository_record _ _ _ _ w1).
  destruct (finish_frame repo_name (Raise ValueError) w2) as (F1 & F2 & F3 & _).
  destruct (ensure_repository_record_frame (settings env) repo_name None None w1)
    as (_ & _ & E3 & E4 & _).
  destruct (update_repo_status_frame repo_name "syncing"
              (log Info "Starting repository sync" repo_name w))
    as (_ & _ & U3 & U4 & _).
  fold w1 in U3, U4. fold w2 in E3, E4. simpl in U3, U4.
  destruct (row_before_finish (settings env) repo_name None None w)
    as (r & Hrow & _ & _ & Hnew). fold w1 w2 in Hrow.
  destruct (finish_row repo_name (Raise ValueError) w2 r Hrow)
    as (r' & R1 & R2 & _ & _ & R5 & R6).
  split; [exact F1|]. split; [congruence|]. split; [congruence|].
  exists r'. split; [exact R1|]. split; [exact R2|].
  intros Hn. destruct (Hnew Hn) as [N1 N2]. rewrite R5, R6, N1, N2; auto.
Qed.

Lemma sync_unknown_repository_witness :
  let s := sync_repository (sample_env manual) "ghost" "auto" world0 in
  s.2 = Done (Raise ValueError) /\
  pushed s.1 = pushed world0 /\ created s.1 = created world0 /\
  exists row,
    repositories s.1 !! "ghost" = Some row /\
    sync_status row = "failed" /\
    (repositories world0 !! "ghost" = None ->
     github_url row = None /\ gitea_url row = None).
Proof.
  apply (sync_unknown_repository (sample_env manual) "ghost" "auto" world0);
    reflexivity.
Defined.

Lemma sync_repository_github_only env n src w gh repo :
  github_get_repository env n = ApiOk (Some gh) ->
  gitea_get_repository env n = ApiOk None ->
  clone_github env n = Some repo ->
  let w1 := update_repo_status n "syncing"
              (log Info "Starting repository sync" n w) in
  let w2 := ensure_repository_record (settings env) n (Some gh) None w1 in
  let w2' := log Info "Creating Gitea repository from GitHub" n w2 in
  sync_repository env n src w = task_step env n src (AwaitCreate "gitea" repo) w2'.
Proof.
  intros Hgh Hgt Hcl w1 w2 w2'. unfold sync_repository.
  change (task_step env n src Start w) with (w1, AwaitGithub). cbn [fst snd].
  rewrite (step_github_ok _ _ _ _ _ Hgh). cbn [fst snd].
  assert (E : task_step env n src (AwaitGitea (Some gh)) w1
              = (w2', AwaitCreate "gitea" repo)).
  { unfold task_step. rewrite Hgt, Hcl. reflexivity. }
  rewrite E. reflexivity.
Qed.

(** X13. A repository that only GitHub has: when the clone and the
    creation on Gitea succeed and neither push raises,
    [sync_repository] creates the repository on Gitea, pushes all heads
    and then all tags to it and nothing else, returns the result
    [created_gitea] with source [github], and leaves the row in status
    [synced].  A row inserted by this attempt keeps a null Gitea URL. *)
Theorem sync_creates_missing_gitea (env : Env) (repo_name source : string)
    (w : World) (gh : RepoInfo) (repo : Repo) :
  github_get_repository env repo_name = ApiOk (Some gh) ->
  gitea_get_repository env repo_name = ApiOk None ->
  clone_github env repo_name = Some repo ->
  create_repository env "gitea" repo_name = ApiOk tt ->
  push_rejected repo (PushGlob "gitea" "refs/heads/*:refs/heads/*") = false ->
  push_rejected repo (PushGlob "gitea" "refs/tags/*:refs/tags/*") = false ->
  let s := sync_repository env repo_name source w in
  s.2 = Done (Return {| action := "created_gitea"; details := [];
                        origin := Some "github" |}) /\
  created s.1 = created w ++ [("gitea", repo_name)] /\
  pushed s.1 = pushed w ++
    [(repo_name, PushGlob "gitea" "refs/heads/*:refs/heads/*");
     (repo_name, PushGlob "gitea" "refs/tags/*:refs/tags/*")] /\
  exists row,
    repositories s.1 !! repo_name = Some row /\
    sync_status row = "synced" /\
    (repositories w !! repo_name = None ->
     github_url row = Some (clone_url gh) /\ gitea_url row = None).
Proof.
  intros Hgh Hgt Hcl Hcr Hp1 Hp2 s. subst s.
  rewrite (sync_repository_github_only env repo_name source w gh repo Hgh Hgt Hcl).
  cbv zeta.
  set (w1 := update_repo_status repo_name "syncing" _).
  set (w2 := ensure_repository_record _ _ _ _ w1).
  set (w2' := log Info "Creating Gitea repository from GitHub" repo_name w2).
  unfold task_step. rewrite Hcr. cbv zeta.
  assert (Hpush : push_everything repo "gitea" [] =
                  ([PushGlob "gitea" "refs/heads/*:refs/heads/*";
                    PushGlob "gitea" "refs/tags/*:refs/tags/*"], Return tt)).
  { unfold push_everything, git_bind, git_push. rewrite Hp1. simpl.
    rewrite Hp2. reflexivity. }
  rewrite Hpush. cbn [fst snd]. rewrite decide_True by reflexivity.
  set (res := {| action := "created_gitea"; details := [];
                 origin := Some "github" |}).
  set (w3 := record_pushes _ _ _).
  destruct (finish_frame repo_name (Return res) w3) as (F1 & F2 & F3 & _).
  destruct (ensure_repository_record_frame (settings env) repo_name (Some gh)
              None w1) as (_ & _ & E3 & E4 & _).
  destruct (update_repo_status_frame repo_name "syncing"
              (log Info "Starting repository sync" repo_name w))
    as (_ & _ & U3 & U4 & _).
  fold w1 in U3, U4. fold w2 in E3, E4. simpl in U3, U4.
  destruct (row_before_finish (settings env) repo_name (Some gh) None w)
    as (r & Hrow & _ & _ & Hnew). fold w1 w2 in Hrow.
  assert (Hrow3 : repositories w3 !! repo_name = Some r) by exact Hrow.
  destruct (finish_row repo_name (Return res) w3 r Hrow3)
    as (r' & R1 & R2 & _ & _ & R5 & R6).
  split; [exact F1|]. split; [|split].
  - rewrite F3. subst w3 w2'. simpl. congruence.
  - rewrite F2. subst w3 w2'. simpl. congruence.
  - exists r'. split; [exact R1|]. split; [exact R2|].
    intros Hn. destruct (Hnew Hn) as [N1 N2].
    rewrite R5, R6, N1, N2; auto.
Qed.

Lemma sync_creates_missing_gitea_witness :
  let s := sync_repository (sample_env manual) "alpha" "auto" world0 in
  s.2 = Done (Return {| action := "created_gitea"; details := [];
                        origin := Some "github" |}) /\
  created s.1 = created world0 ++ [("gitea", "alpha")] /\
  pushed s.1 = pushed world0 ++
    [("alpha", PushGlob "gitea" "refs/heads/*:refs/heads/*");
     ("alpha", PushGlob "gitea" "refs/tags/*:refs/tags/*")] /\
  exists row,
    repositories s.1 !! "alpha" = Some row /\
    sync_status row = "synced" /\
    (repositories world0 !! "alpha" = None ->
     github_url row = Some (clone_url (info "alpha")) /\ gitea_url row = None).
Proof.
  eapply (sync_creates_missing_gitea (sample_env manual) "alpha" "auto" world0
            (info "alpha")); reflexivity.
Defined.

(** X14. When the creation of the missing repository on Gitea fails, the
    attempt raises the client's error and has pushed nothing and recorded
    no creation; the row is left in status [failed]. *)
Theorem sync_creation_failure (env : Env) (repo_name source : string)
    (w : World) (gh : RepoInfo) (repo : Repo) :
  github_get_repository env repo_name = ApiOk (Some gh) ->
  gitea_get_repository env repo_name = ApiOk None ->
  clone_github env repo_name = Some repo ->
  create_repository env "gitea" repo_name = ApiError ->
  let s := sync_repository env repo_name source w in
  s.2 = Done (Raise HTTPError) /\
  created s.1 = created w /\ pushed s.1 = pushed w /\
  exists row,
    repositories s.1 !! repo_name = Some row /\ sync_status row = "failed".
Proof.
  intros Hgh Hgt Hcl Hcr s. subst s.
  rewrite (sync_repository_github_only env repo_name source w gh repo Hgh Hgt Hcl).
  cbv zeta.
  set (w1 := update_repo_status repo_name "syncing" _).
  set (w2 := ensure_repository_record _ _ _ _ w1).
  set (w2' := log Info "Creating Gitea repository from GitHub" repo_name w2).
  unfold task_step. rewrite Hcr.
  destruct (finish_frame repo_name (Raise HTTPError) w2') as (F1 & F2 & F3 & _).
  destruct (ensure_repository_record_frame (settings env) repo_name (Some gh)
              None w1) as (_ & _ & E3 & E4 & _).
  destruct (update_repo_status_frame repo_name "syncing"
              (log Info "Starting repository sync" repo_name w))
    as (_ & _ & U3 & U4 & _).
  fold w1 in U3, U4. fold w2 in E3, E4. simpl in U3, U4.
  destruct (row_before_finish (settings env) repo_name (Some gh) None w)
    as (r & Hrow & _). fold w1 w2 in Hrow.
  assert (Hrow' : repositories w2' !! repo_name = Some r) by exact Hrow.
  destruct (finish_row repo_name (Raise HTTPError) w2' r Hrow')
    as (r' & R1 & R2 & _).
  split; [exact F1|]. split; [|split].
  - rewrite F3. subst w2'. simpl. congruence.
  - rewrite F2. subst w2'. simpl. congruence.
  - exists r'. auto.
Qed.

Lemma sync_creation_failure_witness :
  let s := sync_repository (sample_env_no_create manual) "alpha" "auto" world0 in
  s.2 = Done (Raise HTTPError) /\
  created s.1 = created world0 /\ pushed s.1 = pushed world0 /\
  exists row,
    repositories s.1 !! "alpha" = Some row /\ sync_status row = "failed".
Proof.
  eapply (sync_creation_failure (sample_env_no_create manual) "alpha" "auto"
            world0 (info "alpha")); reflexivity.
Defined.

(** ** Discovery and the webhook filter *)

Lemma should_sync_wanted st n : should_sync_repository st n = wanted st n.
Proof.
  unfold should_sync_repository, wanted.
  destruct (included_repositories st) as [inc|]; simpl;
    repeat (case_match; simpl; try reflexivity).
Qed.

(** X15. [discover_repositories] returns every name once, and a name is
    returned exactly when GitHub or Gitea lists it and the webhook filter
    [_should_sync_repository] accepts it: scheduled and webhook-triggered
    syncs apply the same include and exclude rule, in which an excluded
    name is dropped even when it is included. *)
Theorem discovery_characterised (st : Settings) (gh gt : list RepoInfo)
    (n : string) :
  NoDup (discover_repositories st gh gt) /\
  (n ∈ discover_repositories st gh gt <->
   (n ∈ map info_name gh \/ n ∈ map info_name gt) /\
   should_sync_repository st n = true) /\
  (n ∈ default [] (excluded_repositories st) ->
   n ∉ discover_repositories st gh gt).
Proof.
  assert (Hiff : n ∈ discover_repositories st gh gt <->
                 (n ∈ map info_name gh \/ n ∈ map info_name gt) /\
                 should_sync_repository st n = true).
  { unfold discover_repositories.
    rewrite elem_of_remove_dups, elem_of_app, !list_elem_of_filter,
      should_sync_wanted. tauto. }
  split; [apply NoDup_remove_dups|]. split; [exact Hiff|].
  intros Hex Hin. apply Hiff in Hin as [_ Hs].
  unfold should_sync_repository in Hs.
  rewrite (bool_decide_eq_true_2 _ Hex) in Hs.
  destruct (match included_repositories st with Some _ => _ | None => _ end);
    discriminate.
Qed.

(** ** The health flag *)

Lemma task_step_healthy env n src p w :
  healthy (task_step env n src p w).1 = healthy w.
Proof.
  assert (Hf : forall r w0, healthy w0 = healthy w ->
                            healthy (finish n r w0).1 = healthy w).
  { intros r w0 <-. apply finish_frame. }
  assert (He : forall gh gt,
             healthy (ensure_repository_record (settings env) n gh gt w)
             = healthy w).
  { intros gh gt. apply ensure_repository_record_frame. }
  destruct p as [| |gh|pl rp|r]; unfold task_step; cbv beta iota zeta.
  - cbn [fst]. apply (update_repo_status_frame n "syncing"
                        (log Info "Starting repository sync" n w)).
  - destruct (github_get_repository env n); [reflexivity|].
    apply Hf. reflexivity.
  - destruct (gitea_get_repository env n) as [gt|];
      [|apply Hf; reflexivity].
    destruct gh, gt;
      repeat match goal with
             | |- context [match ?x with Some _ => _ | None => _ end] =>
                 destruct x
             end;
      first [apply Hf; apply He | apply He].
  - destruct (create_repository env pl n); [|apply Hf; reflexivity].
    destruct (push_everything rp pl []).2; apply Hf; reflexivity.
  - reflexivity.
Qed.

Lemma fleet_step_healthy env wf wf' :
  fleet_step env wf wf' ->
  healthy wf'.1 = healthy wf.1 \/
  (healthy wf'.1 = false /\ exists e, wf'.2 = FDone (Raise e)).
Proof.
  intros H. inversion H; subst; cbn [fst snd];
    try (left; first [apply task_step_healthy|reflexivity]);
    right; (split; [reflexivity|eauto]).
Qed.

Lemma fleet_next_step env w f wf' :
  fleet_next env (w, f) = Some wf' ->
  step env (w, [Fleet f]) (wf'.1, [Fleet wf'.2]).
Proof.
  intros H. apply fleet_next_sound in H. destruct wf' as [w' f'].
  exact (step_fleet env w [Fleet f] 0%nat f w' f' eq_refl H).
Qed.

(** X16. The health flag of the engine changes only when a call of
    [sync_repositories] has just ended by raising, and then it becomes
    unhealthy: neither a [sync_repository] started by a webhook or by an
    immediate trigger, nor a failing repository inside the gather of a
    whole-fleet sync, touches it. *)
Theorem health_flag_changes (env : Env) (s s' : World * list Job) :
  step env s s' ->
  healthy s'.1 = healthy s.1 \/
  (healthy s'.1 = false /\
   exists i e, s'.2 !! i = Some (Fleet (FDone (Raise e)))).
Proof.
  intros H. inversion H; subst; cbn [fst snd].
  - left. apply task_step_healthy.
  - destruct (fleet_step_healthy env (w, f) (w', f')) as [E|[E [e Ee]]];
      [assumption|left; exact E|right].
    cbn [fst snd] in *. subst f'.
    split; [exact E|]. exists i, e. apply list_lookup_insert_eq.
    eapply lookup_lt_Some. eassumption.
Qed.

Lemma health_flag_changes_witness :
  let env := sample_env manual in
  let wf' := fleet_run env 1 (world0, FSingle "flaky" AwaitGithub) in
  healthy wf'.1 = healthy world0 \/
  (healthy wf'.1 = false /\
   exists i e, [Fleet wf'.2] !! i = Some (Fleet (FDone (Raise e)))).
Proof.
  apply (health_flag_changes (sample_env manual)
           (world0, [Fleet (FSingle "flaky" AwaitGithub)])
           ((fleet_run (sample_env manual) 1
               (world0, FSingle "flaky" AwaitGithub)).1,
            [Fleet (fleet_run (sample_env manual) 1
                      (world0, FSingle "flaky" AwaitGithub)).2])).
  apply fleet_next_step. reflexivity.
Defined.

Example flaky_single_marks_unhealthy :
  let wf' := fleet_run (sample_env manual) 5 (world0, FStart (Some "flaky")) in
  wf'.2 = FDone (Raise HTTPError) /\ healthy wf'.1 = false.
Proof. vm_compute. auto. Qed.

Example flaky_direct_keeps_healthy :
  let s := sync_repository (sample_env manual) "flaky" "auto" world0 in
  s.2 = Done (Raise HTTPError) /\ healthy s.1 = true.
Proof. vm_compute. auto. Qed.

(** ** Webhooks *)


(** A push to [gamma] with the right signature is answered like any other
    request. *)
Example signed_push_rejected :
  github_webhook (sample_webhook_settings (sample_settings manual true))
    (sample_push "gamma") (sample_headers "push" "sha256=s3cret:gamma") []
  = (400, []).
Proof. reflexivity. Qed.

(** ** The other creation path, and a creation that fails half way *)

Lemma sync_repository_gitea_only env n src w gt repo :
  github_get_repository env n = ApiOk None ->
  gitea_get_repository env n = ApiOk (Some gt) ->
  clone_gitea env n = Some repo ->
  let w1 := update_repo_status n "syncing"
              (log Info "Starting repository sync" n w) in
  let w2 := ensure_repository_record (settings env) n None (Some gt) w1 in
  let w2' := log Info "Creating GitHub repository from Gitea" n w2 in
  sync_repository env n src w = task_step env n src (AwaitCreate "github" repo) w2'.
Proof.
  intros Hgh Hgt Hcl w1 w2 w2'. unfold sync_repository.
  change (task_step env n src Start w) with (w1, AwaitGithub). cbn [fst snd].
  rewrite (step_github_ok _ _ _ _ _ Hgh). cbn [fst snd].
  assert (E : task_step env n src (AwaitGitea None) w1
              = (w2', AwaitCreate "github" repo)).
  { unfold task_step. rewrite Hgt, Hcl. reflexivity. }
  rewrite E. reflexivity.
Qed.

(** X20. A repository that only Gitea has: when the clone and the
    creation on GitHub succeed and neither push raises, [sync_repository]
    creates the repository on GitHub, pushes all heads and then all tags
    to the remote [github] and nothing else, returns the result
    [created_github] with source [gitea], and leaves the row in status
    [synced].  A row inserted by this attempt keeps a null GitHub URL. *)
Theorem sync_creates_missing_github (env : Env) (repo_name source : string)
    (w : World) (gt : RepoInfo) (repo : Repo) :
  github_get_repository env repo_name = ApiOk None ->
  gitea_get_repository env repo_name = ApiOk (Some gt) ->
  clone_gitea env repo_name = Some repo ->
  create_repository env "github" repo_name = ApiOk tt ->
  push_rejected repo (PushGlob "github" "refs/heads/*:refs/heads/*") = false ->
  push_rejected repo (PushGlob "github" "refs/tags/*:refs/tags/*") = false ->
  let s := sync_repository env repo_name source w in
  s.2 = Done (Return {| action := "created_github"; details := [];
                        origin := Some "gitea" |}) /\
  created s.1 = created w ++ [("github", repo_name)] /\
  pushed s.1 = pushed w ++
    [(repo_name, PushGlob "github" "refs/heads/*:refs/heads/*");
     (repo_name, PushGlob "github" "refs/tags/*:refs/tags/*")] /\
  exists row,
    repositories s.1 !! repo_name = Some row /\
    sync_status row = "synced" /\
    (repositories w !! repo_name = None -> github_url row = None).
Proof.
  intros Hgh Hgt Hcl Hcr Hp1 Hp2 s. subst s.
  rewrite (sync_repository_gitea_only env repo_name source w gt repo Hgh Hgt Hcl).
  cbv zeta.
  set (w1 := update_repo_status repo_name "syncing" _).
  set (w2 := ensure_repository_record _ _ _ _ w1).
  set (w2' := log Info "Creating GitHub repository from Gitea" repo_name w2).
  unfold task_step. rewrite Hcr. cbv zeta.
  assert (Hpush : push_everything repo "github" [] =
                  ([PushGlob "github" "refs/heads/*:refs/heads/*";
                    PushGlob "github" "refs/tags/*:refs/tags/*"], Return tt)).
  { unfold push_everything, git_bind, git_push. rewrite Hp1. simpl.
    rewrite Hp2. reflexivity. }
  rewrite Hpush. cbn [fst snd]. rewrite decide_False by discriminate.
  set (res := {| action := "created_github"; details := [];
                 origin := Some "gitea" |}).
  set (w3 := record_pushes _ _ _).
  destruct (finish_frame repo_name (Return res) w3) as (F1 & F2 & F3 & _).
  destruct (ensure_repository_record_frame (settings env) repo_name None
              (Some gt) w1) as (_ & _ & E3 & E4 & _).
  destruct (update_repo_status_frame repo_name "syncing"
              (log Info "Starting repository sync" repo_name w))
    as (_ & _ & U3 & U4 & _).
  fold w1 in U3, U4. fold w2 in E3, E4. simpl in U3, U4.
  destruct (row_before_finish (settings env) repo_name None (Some gt) w)
    as (r & Hrow & _ & _ & Hnew). fold w1 w2 in Hrow.
  assert (Hrow3 : repositories w3 !! repo_name = Some r) by exact Hrow.
  destruct (finish_row repo_name (Return res) w3 r Hrow3)
    as (r' & R1 & R2 & _ & _ & R5 & R6).
  split; [exact F1|]. split; [|split].
  - rewrite F3. subst w3 w2'. simpl. congruence.
  - rewrite F2. subst w3 w2'. simpl. congruence.
  - exists r'. split; [exact R1|]. split; [exact R2|].
    intros Hn. destruct (Hnew Hn) as [N1 _]. rewrite R5, N1. reflexivity.
Qed.

Lemma sync_creates_missing_github_witness :
  let s := sync_repository (sample_env_delta manual) "delta" "auto" world0 in
  s.2 = Done (Return {| action := "created_github"; details := [];
                        origin := Some "gitea" |}) /\
  created s.1 = created world0 ++ [("github", "delta")] /\
  pushed s.1 = pushed world0 ++
    [("delta", PushGlob "github" "refs/heads/*:refs/heads/*");
     ("delta", PushGlob "github" "refs/tags/*:refs/tags/*")] /\
  exists row,
    repositories s.1 !! "delta" = Some row /\
    sync_status row = "synced" /\
    (repositories world0 !! "delta" = None -> github_url row = None).
Proof.
  eapply (sync_creates_missing_github (sample_env_delta manual) "delta" "auto"
            world0 (info "delta")); reflexivity.
Defined.

(** X21. A creation is not undone.  For a repository only GitHub has,
    when the repository has been created on Gitea and one of the two
    pushes that follow raises, the attempt raises [GitCommandError] and
    leaves the row in status [failed], but the created repository stays:
    the creation is recorded, and so is the push of the heads when it was
    the push of the tags that raised. *)
Theorem creation_not_rolled_back (env : Env) (repo_name source : string)
    (w : World) (gh : RepoInfo) (repo : Repo) :
  github_get_repository env repo_name = ApiOk (Some gh) ->
  gitea_get_repository env repo_name = ApiOk None ->
  clone_github env repo_name = Some repo ->
  create_repository env "gitea" repo_name = ApiOk tt ->
  push_rejected repo (PushGlob "gitea" "refs/heads/*:refs/heads/*") = true \/
  push_rejected repo (PushGlob "gitea" "refs/tags/*:refs/tags/*") = true ->
  let s := sync_repository env repo_name source w in
  s.2 = Done (Raise GitCommandError) /\
  created s.1 = created w ++ [("gitea", repo_name)] /\
  pushed s.1 = pushed w ++
    (if push_rejected repo (PushGlob "gitea" "refs/heads/*:refs/heads/*")
     then []
     else [(repo_name, PushGlob "gitea" "refs/heads/*:refs/heads/*")]) /\
  exists row,
    repositories s.1 !! repo_name = Some row /\ sync_status row = "failed".
Proof.
  intros Hgh Hgt Hcl Hcr Hp s. subst s.
  rewrite (sync_repository_github_only env repo_name source w gh repo Hgh Hgt Hcl).
  cbv zeta.
  set (w1 := update_repo_status repo_name "syncing" _).
  set (w2 := ensure_repository_record _ _ _ _ w1).
  set (w2' := log Info "Creating Gitea repository from GitHub" repo_name w2).
  unfold task_step. rewrite Hcr. cbv zeta.
  set (heads := PushGlob "gitea" "refs/heads/*:refs/heads/*") in *.
  set (tags := PushGlob "gitea" "refs/tags/*:refs/tags/*") in *.
  assert (Hpush : push_everything repo "gitea" [] =
                  ((if push_rejected repo heads then [] else [heads]),
                   Raise GitCommandError)).
  { unfold push_everything, git_bind, git_push. fold heads tags.
    destruct (push_rejected repo heads); [reflexivity|].
    destruct Hp as [Hp|Hp]; [discriminate|]. simpl. rewrite Hp. reflexivity. }
  rewrite Hpush. cbn [fst snd].
  set (w3 := record_pushes _ _ _).
  destruct (finish_frame repo_name (Raise GitCommandError) w3)
    as (F1 & F2 & F3 & _).
  destruct (ensure_repository_record_frame (settings env) repo_name (Some gh)
              None w1) as (_ & _ & E3 & E4 & _).
  destruct (update_repo_status_frame repo_name "syncing"
              (log Info "Starting repository sync" repo_name w))
    as (_ & _ & U3 & U4 & _).
  fold w1 in U3, U4. fold w2 in E3, E4. simpl in U3, U4.
  destruct (row_before_finish (settings env) repo_name (Some gh) None w)
    as (r & Hrow & _). fold w1 w2 in Hrow.
  assert (Hrow3 : repositories w3 !! repo_name = Some r) by exact Hrow.
  destruct (finish_row repo_name (Raise GitCommandError) w3 r Hrow3)
    as (r' & R1 & R2 & _).
  split; [exact F1|]. split; [|split].
  - rewrite F3. subst w3 w2'. simpl. congruence.
  - rewrite F2. subst w3 w2'. simpl. rewrite E3, U3.
    destruct (push_rejected repo heads); reflexivity.
  - exists r'. auto.
Qed.

Lemma creation_not_rolled_back_witness :
  let s := sync_repository (sample_env_tags_fail manual) "alpha" "auto" world0 in
  s.2 = Done (Raise GitCommandError) /\
  created s.1 = created world0 ++ [("gitea", "alpha")] /\
  pushed s.1 = pushed world0 ++
    [("alpha", PushGlob "gitea" "refs/heads/*:refs/heads/*")] /\
  exists row,
    repositories s.1 !! "alpha" = Some row /\ sync_status row = "failed".
Proof.
  exact (creation_not_rolled_back (sample_env_tags_fail manual) "alpha" "auto"
           world0 (info "alpha")
           {| refs := ["main"; "origin/main"; "v1"];
              commit := λ _, Some "A"; iter_commits := λ _ _, Some [];
              push_rejected := λ cmd,
                bool_decide (cmd = PushGlob "gitea" "refs/tags/*:refs/tags/*");
              remote_tags := λ r, if decide (r = "origin")
                                  then [("v1", "A")] else [] |}
           eq_refl eq_refl eq_refl eq_refl (or_intror eq_refl)).
Defined.

(** ** The repositories a sync writes *)

Lemma writes_within_frame D w w' :
  (forall k, ~ D k -> repositories w' !! k = repositories w !! k) ->
  pushed w' = pushed w -> created w' = created w ->
  sync_logs w' = sync_logs w ->
  writes_within D w w'.
Proof.
  intros R P C L. split; [exact R|].
  split; [|split]; exists []; rewrite app_nil_r; auto.
Qed.

Lemma writes_within_refl D w : writes_within D w w.
Proof. apply writes_within_frame; auto. Qed.

Lemma writes_within_trans D w1 w2 w3 :
  writes_within D w1 w2 -> writes_within D w2 w3 -> writes_within D w1 w3.
Proof.
  intros (R1 & (p1 & P1 & FP1) & (c1 & C1 & FC1) & (l1 & L1 & FL1))
         (R2 & (p2 & P2 & FP2) & (c2 & C2 & FC2) & (l2 & L2 & FL2)).
  split; [|split; [|split]].
  - intros k Hk. rewrite R2, R1; auto.
  - exists (p1 ++ p2). rewrite P2, P1, <- app_assoc.
    split; [reflexivity|]. apply Forall_app; auto.
  - exists (c1 ++ c2). rewrite C2, C1, <- app_assoc.
    split; [reflexivity|]. apply Forall_app; auto.
  - exists (l1 ++ l2). rewrite L2, L1, <- app_assoc.
    split; [reflexivity|]. apply Forall_app; auto.
Qed.

Lemma writes_within_log D lv ev subj w : writes_within D w (log lv ev subj w).
Proof. apply writes_within_frame; auto. Qed.

Lemma writes_within_logger D lg w : writes_within D w (with_logger lg w).
Proof. apply writes_within_frame; auto. Qed.

Lemma writes_within_fleet_fail D e w : writes_within D w (fleet_fail e w).1.
Proof. apply writes_within_frame; auto. Qed.

Lemma writes_within_update D n st w :
  D n -> writes_within D w (update_repo_status n st w).
Proof.
  intros Hn.
  destruct (update_repo_status_frame n st w) as (F1 & _ & F3 & F4 & _).
  apply writes_within_frame; auto.
  intros k Hk. apply update_repo_status_other. congruence.
Qed.

Lemma writes_within_ensure D st n gh gt w :
  D n -> writes_within D w (ensure_repository_record st n gh gt w).
Proof.
  intros Hn.
  destruct (ensure_repository_record_frame st n gh gt w)
    as (F1 & _ & F3 & F4 & _).
  apply writes_within_frame; auto.
  intros k Hk. apply ensure_touches_only. congruence.
Qed.

Lemma writes_within_pushes D n t w :
  D n -> writes_within D w (record_pushes n t w).
Proof.
  intros Hn. split; [auto|]. split; [|split].
  - exists (map (pair n) t). split; [reflexivity|].
    apply Forall_forall. intros x Hx.
    apply list_elem_of_fmap in Hx as (c & -> & _). exact Hn.
  - exists []. rewrite app_nil_r. auto.
  - exists []. rewrite app_nil_r. auto.
Qed.

Lemma writes_within_created D pl n w :
  D n -> writes_within D w (with_created (created w ++ [(pl, n)]) w).
Proof.
  intros Hn. split; [auto|]. split; [|split].
  - exists []. rewrite app_nil_r. auto.
  - exists [(pl, n)]. split; [reflexivity|]. repeat constructor. exact Hn.
  - exists []. rewrite app_nil_r. auto.
Qed.

Lemma writes_within_log_sync_result D n st d w :
  D n -> writes_within D w (log_sync_result n st d w).
Proof.
  intros Hn. split; [auto|]. split; [|split].
  - exists []. rewrite app_nil_r. auto.
  - exists []. rewrite app_nil_r. auto.
  - eexists. split; [reflexivity|]. repeat constructor. exact Hn.
Qed.

Lemma writes_within_finish D n r w :
  D n -> writes_within D w (finish n r w).1.
Proof.
  intros Hn. destruct r as [a|[bs| | |]]; simpl;
    (eapply writes_within_trans; [apply writes_within_update, Hn|]);
    (eapply writes_within_trans; [apply writes_within_log_sync_result, Hn|]);
    apply writes_within_log.
Qed.

Lemma writes_within_task_step D env n src p w :
  D n -> writes_within D w (task_step env n src p w).1.
Proof.
  intros Hn.
  destruct p as [| |gh|pl rp|r]; unfold task_step; cbv beta iota zeta.
  - eapply writes_within_trans;
      [apply writes_within_log|apply writes_within_update, Hn].
  - destruct (github_get_repository env n);
      [apply writes_within_refl|apply writes_within_finish, Hn].
  - destruct (gitea_get_repository env n) as [gt|];
      [|apply writes_within_finish, Hn].
    set (w1 := ensure_repository_record _ _ _ _ _).
    assert (E1 : writes_within D w w1) by apply writes_within_ensure, Hn.
    assert (E2 : forall ev, writes_within D w (log Info ev n w1)).
    { intros ev. eapply writes_within_trans;
        [exact E1|apply writes_within_log]. }
    destruct gh, gt.
    + destruct (work_clone env n).
      * eapply writes_within_trans; [|apply writes_within_finish, Hn].
        eapply writes_within_trans; [|apply writes_within_pushes, Hn].
        eapply writes_within_trans; [apply E2|apply writes_within_logger].
      * eapply writes_within_trans; [apply E2|apply writes_within_finish, Hn].
    + destruct (clone_github env n).
      * apply E2.
      * eapply writes_within_trans; [apply E2|apply writes_within_finish, Hn].
    + destruct (clone_gitea env n).
      * apply E2.
      * eapply writes_within_trans; [apply E2|apply writes_within_finish, Hn].
    + eapply writes_within_trans; [exact E1|apply writes_within_finish, Hn].
  - destruct (create_repository env pl n); [|apply writes_within_finish, Hn].
    destruct (push_everything rp pl []).2;
      (eapply writes_within_trans; [|apply writes_within_finish, Hn]);
      (eapply writes_within_trans; [|apply writes_within_pushes, Hn]);
      apply writes_within_created, Hn.
  - apply writes_within_refl.
Qed.

Lemma set_child_scope (D : string -> Prop) i s cs :
  Forall (λ c, D (child_name c)) cs ->
  Forall (λ c, D (child_name c)) (set_child i s cs).
Proof.
  intros H. unfold set_child. apply Forall_alter; [exact H|].
  intros c _ Hc. exact Hc.
Qed.

Lemma scope_inv_step env D w f w' f' :
  scope_inv env D f -> fleet_step env (w, f) (w', f') ->
  scope_inv env D f' /\ writes_within D w w'.
Proof.
  intros Hinv H.
  assert (Hchild : forall cs i c,
            Forall (λ c, D (child_name c)) cs -> cs !! i = Some c ->
            D (child_name c)).
  { intros cs i c Hall Hc. exact (proj1 (Forall_lookup _ cs) Hall i c Hc). }
  inversion H; subst; simpl in Hinv; cbn [fst snd].
  - assert (Hn : D repo_name).
    { apply Hinv. simpl. rewrite decide_False by assumption. reflexivity. }
    split; [exact Hn|apply writes_within_task_step, Hn].
  - split; [|apply writes_within_log].
    simpl. intros k Hk. apply Hinv.
    match goal with
    | Ho : _ \/ _ |- _ => destruct Ho as [->| ->]
    end; exact Hk.
  - split; [exact Hinv|apply writes_within_task_step, Hinv].
  - split; [exact I|apply writes_within_task_step, Hinv].
  - split; [exact I|].
    eapply writes_within_trans;
      [apply writes_within_task_step, Hinv|apply (writes_within_fleet_fail D ValueError)].
  - split; [exact I|apply (writes_within_fleet_fail D ValueError)].
  - split; [|apply writes_within_refl]. simpl. auto.
  - split; [exact I|apply (writes_within_fleet_fail D ValueError)].
  - split; [exact I|].
    eapply writes_within_trans;
      [apply writes_within_log|apply (writes_within_fleet_fail D ValueError)].
  - split; [|apply writes_within_log]. simpl.
    destruct Hinv as [Hgh Hd]. apply Forall_forall. intros c Hc.
    apply list_elem_of_fmap in Hc as (n & -> & Hn). simpl.
    apply Hd. unfold discovered.
    match goal with
    | Hgt : gitea_list_repositories env = _ |- _ => rewrite Hgh, Hgt
    end.
    exact Hn.
  - assert (Hn : D (child_name c)) by eauto.
    split; [apply set_child_scope, Hinv|apply writes_within_task_step, Hn].
  - assert (Hn : D (child_name c)) by eauto.
    split; [apply set_child_scope, Hinv|apply writes_within_task_step, Hn].
  - assert (Hn : D (child_name c)) by eauto.
    split; [apply set_child_scope, Hinv|apply writes_within_task_step, Hn].
  - split; [exact I|apply writes_within_refl].
Qed.

Lemma scope_inv_rtc env D wf wf' :
  rtc (fleet_step env) wf wf' -> scope_inv env D wf.2 ->
  scope_inv env D wf'.2 /\ writes_within D wf.1 wf'.1.
Proof.
  induction 1 as [[w f]|[w f] [w1 f1] [w2 f2] H _ IH]; intros Hinv.
  - split; [exact Hinv|apply writes_within_refl].
  - destruct (scope_inv_step env D w f w1 f1 Hinv H) as [Hinv1 W1].
    destruct (IH Hinv1) as [Hinv2 W2].
    split; [exact Hinv2|]. eapply writes_within_trans; eassumption.
Qed.

Lemma discovered_wanted env k :
  k ∈ discovered env -> wanted (settings env) k = true.
Proof.
  unfold discovered.
  destruct (github_list_repositories env) as [gh|];
    [|intros H; inversion H].
  destruct (gitea_list_repositories env) as [gt|];
    [|intros H; inversion H].
  unfold discover_repositories.
  rewrite elem_of_remove_dups, elem_of_app, !list_elem_of_filter. tauto.
Qed.

(** X22. A call of [sync_repositories] writes only what it is about,
    however its tasks are scheduled: called with a name, the row, the
    pushes, the created repositories and the log rows it adds all belong
    to that repository; called without one, they all belong to
    repositories that discovery returned, so a repository the include and
    exclude filter rejects is never pushed to, created or logged, and its
    row stays as it is. *)
Theorem fleet_writes_within_scope (env : Env) (o : option string)
    (w w' : World) (f' : fleet) :
  rtc (fleet_step env) (w, FStart o) (w', f') ->
  writes_within (fleet_scope env o) w w' /\
  (o = None ->
   writes_within (λ k, wanted (settings env) k = true) w w').
Proof.
  intros H. split.
  - apply (scope_inv_rtc env (fleet_scope env o) (w, FStart o) (w', f') H).
    simpl. auto.
  - intros ->.
    apply (scope_inv_rtc env (λ k, wanted (settings env) k = true)
             (w, FStart None) (w', f') H).
    simpl. intros k Hk. apply discovered_wanted, Hk.
Qed.

Lemma fleet_writes_within_scope_witness :
  let env := sample_env_excluding manual in
  let s := fleet_run env 20 (world_gamma, FStart None) in
  writes_within (fleet_scope env None) world_gamma s.1 /\
  (@None string = None ->
   writes_within (λ k, wanted (settings env) k = true) world_gamma s.1).
Proof.
  intros env s.
  pose proof (fleet_run_sound env 20 (world_gamma, FStart None)) as H.
  fold s in H. destruct s as [w' f'].
  exact (fleet_writes_within_scope env None world_gamma w' f' H).
Defined.

(** A named call does not go through the filter: [sync_repositories]
    called with the name of an excluded repository syncs it, while the
    call without a name leaves its row as it is. *)
Example named_sync_bypasses_filter :
  let env := sample_env_excluding manual in
  wanted (settings env) "gamma" = false /\
  (exists row,
     repositories (fleet_run env 20 (world_gamma, FStart (Some "gamma"))).1
       !! "gamma" = Some row /\
     sync_status row = "conflict") /\
  repositories (fleet_run env 20 (world_gamma, FStart None)).1 !! "gamma"
  = Some row_gamma.
Proof. vm_compute. eauto. Qed.

(** ** Listing the repositories of a platform *)

Lemma full_pages_tail {A} (fetch : nat -> api_result (list A)) per_page page
    data pages :
  full_pages fetch per_page page (data :: pages) ->
  fetch page = ApiOk data /\ (per_page <= length data)%nat /\ data <> [] /\
  full_pages fetch per_page (S page) pages.
Proof.
  intros H. destruct (H 0%nat data eq_refl) as (H1 & H2 & H3).
  rewrite Nat.add_0_r in H1.
  split; [exact H1|]. split; [exact H2|]. split; [exact H3|].
  intros i d Hd. specialize (H (S i) d Hd).
  rewrite Nat.add_succ_r in H. exact H.
Qed.

Lemma list_pages_full {A} (fetch : nat -> api_result (list A)) per_page pages :
  forall fuel page repos,
    full_pages fetch per_page page pages ->
    list_pages fetch per_page (length pages + fuel) page repos =
    list_pages fetch per_page fuel (page + length pages) (repos ++ concat pages).
Proof.
  induction pages as [|data pages IH]; intros fuel page repos Hfull.
  - simpl. rewrite Nat.add_0_r, app_nil_r. reflexivity.
  - apply full_pages_tail in Hfull as (Hf & Hlen & Hne & Hrest).
    cbn [length Nat.add list_pages]. rewrite Hf.
    destruct data as [|x data]; [congruence|]. cbn [truthy negb].
    assert (Hlt : (length (x :: data) <? per_page)%nat = false)
      by (apply Nat.ltb_ge; exact Hlen).
    unfold truthy. cbn [negb]. cbv zeta. rewrite Hlt.
    rewrite (IH fuel (S page) (repos ++ x :: data) Hrest).
    rewrite Nat.add_succ_r. cbn [concat]. rewrite app_assoc. reflexivity.
Qed.

Lemma list_pages_unfinished {A} (fetch : nat -> api_result (list A)) per_page
    pages :
  forall fuel page repos,
    full_pages fetch per_page page pages -> (fuel <= length pages)%nat ->
    list_pages fetch per_page fuel page repos = None.
Proof.
  induction pages as [|data pages IH]; intros fuel page repos Hfull Hfuel.
  - destruct fuel; [reflexivity|simpl in Hfuel; lia].
  - destruct fuel as [|fuel]; [reflexivity|].
    apply full_pages_tail in Hfull as (Hf & Hlen & Hne & Hrest).
    cbn [list_pages]. rewrite Hf.
    destruct data as [|x data]; [congruence|].
    assert (Hlt : (length (x :: data) <? per_page)%nat = false)
      by (apply Nat.ltb_ge; exact Hlen).
    unfold truthy. cbn [negb]. cbv zeta. rewrite Hlt.
    apply IH; [exact Hrest|]. simpl in Hfuel. lia.
Qed.

(** X23. [list_repositories] of either client asks for the pages in
    order and stops at the first page that is empty or shorter than the
    page size (100 for GitHub, 50 for Gitea): it returns the entries of
    the pages up to that one, in order, and asks for no later page.  A
    request that raises makes the whole listing raise, the entries
    gathered before being dropped.  As long as the pages are full the loop
    goes on: after as many requests as there were full pages it has not
    returned. *)
Theorem list_repositories_pages {A} (pf : Platform)
    (fetch : nat -> api_result (list A)) (pages : list (list A))
    (fuel : nat) :
  full_pages fetch (page_size pf) 1 pages ->
  ((fuel <= length pages)%nat -> list_repositories pf fetch fuel = None) /\
  ((length pages < fuel)%nat ->
   match fetch (1 + length pages)%nat with
   | ApiError => list_repositories pf fetch fuel = Some ApiError
   | ApiOk last =>
       (length last < page_size pf)%nat ->
       list_repositories pf fetch fuel = Some (ApiOk (concat pages ++ last))
   end).
Proof.
  intros Hfull. unfold list_repositories. split.
  - intros Hfuel. apply (list_pages_unfinished fetch _ pages); assumption.
  - intros Hfuel.
    replace fuel with (length pages + S (fuel - length pages - 1))%nat by lia.
    rewrite (list_pages_full fetch _ pages _ 1%nat [] Hfull).
    cbn [list_pages app].
    destruct (fetch (1 + length pages)%nat) as [last|]; [|reflexivity].
    intros Hlast. destruct last as [|x last].
    + simpl. rewrite app_nil_r. reflexivity.
    + unfold truthy. cbn [negb]. cbv zeta.
      rewrite (proj2 (Nat.ltb_lt _ _) Hlast). reflexivity.
Qed.

Lemma list_repositories_pages_witness :
  list_repositories Gitea sample_fetch 1 = None /\
  list_repositories Gitea sample_fetch 5
  = Some (ApiOk (replicate 50 "r" ++ ["s"])).
Proof.
  assert (Hfull : full_pages sample_fetch (page_size Gitea) 1
                    [replicate 50 "r"]).
  { intros [|i] data; simpl; [|intros H; inversion H].
    intros [= <-]. vm_compute. repeat split; [lia|discriminate]. }
  destruct (list_repositories_pages Gitea sample_fetch [replicate 50 "r"] 1
              Hfull) as [H1 _].
  destruct (list_repositories_pages Gitea sample_fetch [replicate 50 "r"] 5
              Hfull) as [_ H5].
  split; [apply H1; simpl; lia|].
  apply (H5 ltac:(simpl; lia)). simpl. lia.
Defined.

(** ** Tags *)

Lemma push_everything_trace repo platform cmd :
  cmd ∈ (push_everything repo platform []).1 ->
  cmd = PushGlob platform "refs/heads/*:refs/heads/*" \/
  cmd = PushGlob platform "refs/tags/*:refs/tags/*".
Proof.
  unfold push_everything, git_bind, git_push.
  destruct (push_rejected repo (PushGlob platform "refs/heads/*:refs/heads/*"));
    simpl; [by intros ?%elem_of_nil|].
  destruct (push_rejected repo (PushGlob platform "refs/tags/*:refs/tags/*"));
    simpl; intros H;
    repeat (apply elem_of_cons in H as [H|H]; [auto|]);
    by apply elem_of_nil in H.
Qed.

(** C9, amended.  The analyser compares no tags: the tag lists of the
    report are always empty, whatever tags the remotes hold, and the
    report has no list of diverged tags.  Tags are pushed without being
    compared, in two places.  For a repository on both platforms, the
    conflict-free path pushes them when [sync_tags] is set, by the two
    commands [push gitea --tags] and [push origin gitea/*:refs/tags/*];
    when a branch is diverged no tag is pushed under any policy.  For a
    repository on one platform only, the creation path pushes
    [refs/tags/*] to the new repository whether [sync_tags] is set or
    not.  No other push of a sync is about tags, and none of these is
    forced. *)
Theorem tags_not_compared (env : Env) (repo : Repo) (t0 : list GitPush) :
  let st := settings env in
  let d := (analyze_repository_differences repo).1 in
  new_tags d = {| github := []; gitea := [] |} /\
  (forall cmd,
     cmd ∈ (resolve st repo d t0).1 ->
     cmd ∈ t0 \/
     (exists remote src dst force, cmd = PushRef remote src dst force) \/
     (has_conflicts d = false /\ sync_tags st = true /\
      (cmd = PushTags "gitea" \/ cmd = PushGlob "origin" "gitea/*:refs/tags/*"))) /\
  (forall repo_name source platform w,
     create_repository env platform repo_name = ApiOk tt ->
     push_rejected repo (PushGlob platform "refs/heads/*:refs/heads/*") = false ->
     push_rejected repo (PushGlob platform "refs/tags/*:refs/tags/*") = false ->
     (repo_name, PushGlob platform "refs/tags/*:refs/tags/*")
       ∈ pushed (task_step env repo_name source (AwaitCreate platform repo) w).1) /\
  (forall repo_name source p w x,
     x ∈ pushed (task_step env repo_name source p w).1 ->
     x ∈ pushed w \/
     (exists remote src dst force, x.2 = PushRef remote src dst force) \/
     (sync_tags st = true /\
      (exists gh r, p = AwaitGitea (Some gh) /\
         work_clone env repo_name = Some r /\
         has_conflicts (analyze_repository_differences r).1 = false) /\
      (x.2 = PushTags "gitea" \/ x.2 = PushGlob "origin" "gitea/*:refs/tags/*")) \/
     (exists platform r, p = AwaitCreate platform r /\
        (x.2 = PushGlob platform "refs/heads/*:refs/heads/*" \/
         x.2 = PushGlob platform "refs/tags/*:refs/tags/*"))).
Proof.
  intros st d. split; [|split; [|split]].
  - subst d. unfold analyze_repository_differences.
    rewrite analyze_fold_new_tags. reflexivity.
  - intros cmd. rewrite resolve_trace, elem_of_app.
    intros [H|H]; [left; exact H|right].
    apply accepted_elem, plan_tags in H. exact H.
  - intros n src pl w Hcr Hp1 Hp2. unfold task_step. rewrite Hcr. cbv zeta.
    assert (Hpush : push_everything repo pl [] =
                    ([PushGlob pl "refs/heads/*:refs/heads/*";
                      PushGlob pl "refs/tags/*:refs/tags/*"], Return tt)).
    { unfold push_everything, git_bind, git_push. rewrite Hp1. simpl.
      rewrite Hp2. reflexivity. }
    rewrite Hpush. cbn [fst snd].
    match goal with
    | |- _ ∈ pushed (finish ?a ?b ?c).1 =>
        destruct (finish_frame a b c) as (_ & F & _); rewrite F
    end.
    simpl. apply elem_of_app. right. set_solver.
  - intros n src p w x.
    assert (Hf : forall r w0, x ∈ pushed (finish n r w0).1 ->
               pushed w0 = pushed w -> x ∈ pushed w).
    { intros r w0 H E. destruct (finish_frame n r w0) as (_ & F & _).
      rewrite F, E in H. exact H. }
    destruct p as [| |gh|pl rp|r]; unfold task_step; cbv beta iota zeta.
    + cbn [fst].
      destruct (update_repo_status_frame n "syncing"
                  (log Info "Starting repository sync" n w))
        as (_ & _ & U & _).
      rewrite U. simpl. auto.
    + destruct (github_get_repository env n); [auto|].
      intros H. left. apply (Hf _ _ H eq_refl).
    + destruct (gitea_get_repository env n) as [gt|];
        [|intros H; left; apply (Hf _ _ H eq_refl)].
      destruct (ensure_repository_record_frame (settings env) n gh gt w)
        as (_ & _ & E & _).
      destruct gh as [gh|], gt as [gt|].
      * destruct (work_clone env n) as [r|] eqn:Hw;
          [|intros H; left; apply (Hf _ _ H E)].
        match goal with
        | |- _ ∈ pushed (finish ?a ?b ?c).1 -> _ =>
            destruct (finish_frame a b c) as (_ & F & _); rewrite F
        end.
        simpl. rewrite E, elem_of_app, list_elem_of_fmap.
        intros [H|(cmd & -> & H)]; [left; exact H|right]. cbn [snd].
        unfold sync_existing in H. cbn [fst] in H.
        rewrite resolve_trace in H. apply accepted_elem, plan_tags in H.
        destruct H as [H|(H1 & H2 & H3)]; [left; exact H|right; left].
        split; [exact H2|]. split; [|exact H3]. eauto.
      * destruct (clone_github env n); [cbn [fst]; simpl; rewrite E; auto|].
        intros H; left; apply (Hf _ _ H E).
      * destruct (clone_gitea env n); [cbn [fst]; simpl; rewrite E; auto|].
        intros H; left; apply (Hf _ _ H E).
      * intros H; left; apply (Hf _ _ H E).
    + destruct (create_repository env pl n);
        [|intros H; left; apply (Hf _ _ H eq_refl)].
      assert (Hx : x ∈ pushed w ++ map (pair n) (push_everything rp pl []).1 ->
                   x ∈ pushed w \/
                   (x.2 = PushGlob pl "refs/heads/*:refs/heads/*" \/
                    x.2 = PushGlob pl "refs/tags/*:refs/tags/*")).
      { rewrite elem_of_app, list_elem_of_fmap.
        intros [H|(cmd & -> & H)]; [left; exact H|right].
        apply push_everything_trace in H. exact H. }
      destruct (push_everything rp pl []) as [tr [u|e]] eqn:Hp; cbn [fst snd] in *;
        match goal with
        | |- _ ∈ pushed (finish ?a ?b ?c).1 -> _ =>
            destruct (finish_frame a b c) as (_ & F & _); rewrite F
        end;
        simpl; intros H; apply Hx in H as [H|H]; [auto| |auto|];
        right; right; right; eauto.
    + auto.
Qed.

(** With tag synchronisation switched off, creating [alpha] on Gitea still
    pushes its tags. *)
Example creation_pushes_tags_without_tag_sync :
  let env := sample_env_no_tags manual in
  sync_tags (settings env) = false /\
  pushed (sync_repository env "alpha" "auto" world0).1 =
    [("alpha", PushGlob "gitea" "refs/heads/*:refs/heads/*");
     ("alpha", PushGlob "gitea" "refs/tags/*:refs/tags/*")].
Proof. vm_compute. auto. Qed.
